(** * NL2FOFA: the query-translation and execution pipeline

    A shallow embedding of [src/llmService.ts], [src/fofaService.ts] and
    [src/orchestrator.ts], and the properties the specification states
    about them.

    JavaScript strings are sequences of UTF-16 code units; the regular
    expressions of the source carry no [u] flag and so work on code
    units as well.  A string is therefore a [list N]. *)

From Stdlib Require Import List NArith ZArith Bool Lia String Ascii Arith.
Import ListNotations.

Set Implicit Arguments.

(** ** Strings *)

Definition char := N.
Definition jstring := list char.

(** An ASCII literal as a JavaScript string. *)
Definition str (s : string) : jstring :=
  map N_of_ascii (list_ascii_of_string s).

Definition dq : char := 34%N.        (* the double quote *)
Definition bslash : char := 92%N.    (* the backslash *)
Definition lparen : char := 40%N.
Definition rparen : char := 41%N.
Definition colon : char := 58%N.
Definition equals : char := 61%N.
Definition backtick : char := 96%N.
Definition newline : char := 10%N.

Definition jstring_eqb (a b : jstring) : bool :=
  if list_eq_dec N.eq_dec a b then true else false.

(** ECMAScript WhiteSpace and LineTerminator code points: what [\s]
    matches and what [String.prototype.trim] removes. *)
Definition isWhiteSpace (c : char) : bool :=
  ((9 <=? c) && (c <=? 13) || (c =? 32) || (c =? 160) || (c =? 5760)
   || (8192 <=? c) && (c <=? 8202) || (c =? 8232) || (c =? 8233)
   || (c =? 8239) || (c =? 8287) || (c =? 12288) || (c =? 65279))%N.

(** [\w] without the [u] and [i] flags: [A-Za-z0-9_]. *)
Definition isWordChar (c : char) : bool :=
  ((65 <=? c) && (c <=? 90) || (97 <=? c) && (c <=? 122)
   || (48 <=? c) && (c <=? 57) || (c =? 95))%N.

Fixpoint dropWhile (p : char -> bool) (s : jstring) : jstring :=
  match s with
  | [] => []
  | c :: rest => if p c then dropWhile p rest else s
  end.

Definition trimStart (s : jstring) : jstring := dropWhile isWhiteSpace s.
Definition trimEnd (s : jstring) : jstring := rev (dropWhile isWhiteSpace (rev s)).
Definition trim (s : jstring) : jstring := trimEnd (trimStart s).

Fixpoint startsWith (s prefix : jstring) : bool :=
  match prefix, s with
  | [], _ => true
  | p :: ps, c :: cs => (c =? p)%N && startsWith cs ps
  | _ :: _, [] => false
  end.

Fixpoint includes (s needle : jstring) : bool :=
  startsWith s needle
  || match s with
     | [] => false
     | _ :: rest => includes rest needle
     end.

(** [s.split(sep)] for a one-character separator: never an empty array. *)
Fixpoint split (sep : char) (s : jstring) : list jstring :=
  match s with
  | [] => [[]]
  | c :: rest =>
      if (c =? sep)%N then [] :: split sep rest
      else match split sep rest with
           | [] => [[c]]
           | piece :: pieces => (c :: piece) :: pieces
           end
  end.

(** ** Regular expressions

    The expressions of the source are sequences of single characters,
    character classes and greedy repetitions of a class, with at most one
    capturing group; [run] is the backtracking matcher for that fragment. *)

Module Regex.

Inductive item : Type :=
| Chr (c : char)                 (* a literal character *)
| Cls (p : char -> bool)         (* a class, once: [..] *)
| Star (p : char -> bool)        (* p*, greedy *)
| Plus (p : char -> bool)        (* p+, greedy *)
| CapPlus (p : char -> bool)     (* (p+), a capturing group *)
| Eos.                           (* $ without the m flag *)

Definition pattern := list item.

(** [anchored] is a leading [^]. *)
Record regex := { anchored : bool; body : pattern }.

Definition lits (s : jstring) : pattern := map Chr s.

(** The longest run [m] of [p]-characters at the head of [s] after which
    the continuation [k] succeeds; shorter runs are tried on failure. *)
Fixpoint greedy {R : Type} (p : char -> bool) (k : jstring -> option R)
         (s : jstring) : option (jstring * R) :=
  let stop := option_map (pair []) (k s) in
  match s with
  | x :: xs =>
      if p x then
        match greedy p k xs with
        | Some (m, r) => Some (x :: m, r)
        | None => stop
        end
      else stop
  | [] => stop
  end.

(** A match at the head of the input: the captures and the rest. *)
Fixpoint run (pat : pattern) : jstring -> option (list jstring * jstring) :=
  match pat with
  | [] => fun s => Some ([], s)
  | Chr c :: k => fun s =>
      match s with
      | x :: xs => if (x =? c)%N then run k xs else None
      | [] => None
      end
  | Cls p :: k => fun s =>
      match s with
      | x :: xs => if p x then run k xs else None
      | [] => None
      end
  | Star p :: k => fun s => option_map snd (greedy p (run k) s)
  | Plus p :: k => fun s =>
      match greedy p (run k) s with
      | Some (_ :: _, r) => Some r
      | _ => None
      end
  | CapPlus p :: k => fun s =>
      match greedy p (run k) s with
      | Some ((_ :: _) as m, (caps, rest)) => Some (m :: caps, rest)
      | _ => None
      end
  | Eos :: k => fun s =>
      match s with
      | [] => run k []
      | _ :: _ => None
      end
  end.

(** The leftmost match: the text before it, the captures, the text after. *)
Fixpoint search (pat : pattern) (s : jstring)
  : option (jstring * list jstring * jstring) :=
  match run pat s with
  | Some (caps, rest) => Some ([], caps, rest)
  | None =>
      match s with
      | [] => None
      | x :: xs =>
          match search pat xs with
          | Some (pre, caps, rest) => Some (x :: pre, caps, rest)
          | None => None
          end
      end
  end.

Definition exec (r : regex) (s : jstring)
  : option (jstring * list jstring * jstring) :=
  if anchored r then
    match run (body r) s with
    | Some (caps, rest) => Some ([], caps, rest)
    | None => None
    end
  else search (body r) s.

(** [r.test(s)] *)
Definition test (r : regex) (s : jstring) : bool :=
  match exec r s with Some _ => true | None => false end.

(** [s.match(r)] for a regex without the [g] flag: [None] is [null],
    otherwise the capture groups ([m[1]] is the head). *)
Definition match_ (r : regex) (s : jstring) : option (list jstring) :=
  match exec r s with
  | Some (_, caps, _) => Some caps
  | None => None
  end.

(** [s.replace(r, empty)], [empty] the empty string, for a regex without
    the [g] flag. *)
Definition replace_empty (r : regex) (s : jstring) : jstring :=
  match exec r s with
  | Some (pre, _, rest) => pre ++ rest
  | None => s
  end.

(** [s.match(/c/g)] for a one-character pattern: every occurrence, or
    [null] when there is none. *)
Definition match_all_chr (c : char) (s : jstring) : option (list jstring) :=
  match filter (fun x => (x =? c)%N) s with
  | [] => None
  | hits => Some (map (fun x => [x]) hits)
  end.

End Regex.

Import Regex.

(** ** The query grammar validator ([FofaService.validateQuery]) *)

(** [/[=:]/] *)
Definition re_operator : regex :=
  {| anchored := false;
     body := [Cls (fun c => (c =? equals)%N || (c =? colon)%N)] |}.

(** [/\w+/] *)
Definition re_word : regex :=
  {| anchored := false; body := [Plus isWordChar] |}.

Definition validateQuery (query : jstring) : bool :=
  if match query with [] => true | _ => false end
     || (List.length (trim query) =? 0)
  then false
  else
    let hasValidSyntax := test re_operator query || test re_word query in
    let quotes := match_all_chr dq query in
    let quotesBalanced :=
      match quotes with
      | None => true
      | Some qs => List.length qs mod 2 =? 0
      end in
    let openParens :=
      List.length (match match_all_chr lparen query with Some l => l | None => [] end) in
    let closeParens :=
      List.length (match match_all_chr rparen query with Some l => l | None => [] end) in
    let parensBalanced := openParens =? closeParens in
    hasValidSyntax && quotesBalanced && parensBalanced.

(** ** JavaScript values

    What [JSON.parse] returns and what the fields of an [LLMResponse] hold
    at run time: the source reads them from an untyped parse result, so a
    field may hold any JSON value or [undefined]. *)

(** A JSON number literal: [(-1)^negative * mantissa * 10^exp10]. *)
Record number := { negative : bool; mantissa : N; exp10 : Z }.

#[warnings="-register-all"]
Inductive value : Type :=
| VUndefined
| VNull
| VBool (b : bool)
| VNumber (n : number)
| VString (s : jstring)
| VArray (items : list value)
| VObject (props : list (jstring * value)).

(** The literal denotes a double that is [+0] or [-0]: its mantissa is zero,
    or its magnitude is at most [2^-1075] and rounds to zero. *)
Definition number_is_zero (n : number) : bool :=
  (mantissa n =? 0)%N
  || ((exp10 n <? 0)%Z
      && (Z.of_N (mantissa n) * 2 ^ 1075 <=? 10 ^ (- exp10 n))%Z).

(** ToBoolean *)
Definition truthy (v : value) : bool :=
  match v with
  | VUndefined | VNull => false
  | VBool b => b
  | VNumber n => negb (number_is_zero n)
  | VString s => match s with [] => false | _ => true end
  | VArray _ | VObject _ => true
  end.

(** What is thrown: an [Error] object (also [TypeError] and [SyntaxError]),
    an error of the HTTP client ([axios.isAxiosError]) with the status of
    its response and its code when it has them, or a value that is not an
    [Error] instance. *)
Inductive exn : Type :=
| ErrorObj (message : jstring)
| AxiosErrorObj (message : jstring) (status : option Z) (code : option jstring)
| NonError.

Inductive Outcome (A : Type) : Type :=
| Ret (a : A)
| Throw (e : exn).
Arguments Ret {A} a.
Arguments Throw {A} e.

Definition bind {A B : Type} (m : Outcome A) (k : A -> Outcome B) : Outcome B :=
  match m with
  | Ret a => k a
  | Throw e => Throw e
  end.

(** [try { body } catch (e) { handler(e) }] *)
Definition try_catch {A : Type} (body : Outcome A) (handler : exn -> Outcome A)
  : Outcome A :=
  match body with
  | Ret a => Ret a
  | Throw e => handler e
  end.

Declare Scope js_scope.
Delimit Scope js_scope with js.
Notation "x <- m ;; k" := (bind m (fun x => k))
  (at level 61, m at next level, right associativity) : js_scope.
Open Scope js_scope.

(** The run-time faults of the engine that the source can meet. *)
Inductive fault : Type :=
| ReadOfNullish (key : jstring)     (* a property read on null or undefined *)
| NotAFunction (key : jstring)      (* a call of a property that is no function *)
| JsonSyntax                        (* JSON.parse on malformed text *)
| NotPrimitive.                     (* ToString on an object without a primitive form *)

(** What the source takes from the JavaScript engine: the text of its
    [TypeError] and [SyntaxError] messages, the rendering of a number as a
    string, and [String.prototype.toLowerCase]. *)
Record Engine := {
  fault_message : fault -> jstring;
  number_to_string : number -> jstring;
  toLowerCase : jstring -> jstring
}.

(** ** [JSON.parse] (ECMA-404) *)

Module JSON.

Inductive presult (A : Type) : Type :=
| POk (a : A) (rest : jstring)
| PErr
| PFuel.
Arguments POk {A} a rest.
Arguments PErr {A}.
Arguments PFuel {A}.

Definition isJsonWs (c : char) : bool :=
  ((c =? 32) || (c =? 9) || (c =? 10) || (c =? 13))%N.

Definition skip_ws (s : jstring) : jstring := dropWhile isJsonWs s.

Definition isDigit (c : char) : bool := ((48 <=? c) && (c <=? 57))%N.

Definition hexval (c : char) : option N :=
  (if (48 <=? c) && (c <=? 57) then Some (c - 48)
   else if (65 <=? c) && (c <=? 70) then Some (c - 55)
   else if (97 <=? c) && (c <=? 102) then Some (c - 87)
   else None)%N.

(** The maximal run of digits at the head of [s], folded into [acc]:
    the number read, how many digits, the rest. *)
Fixpoint read_digits (s : jstring) (acc : N) (count : nat)
  : N * nat * jstring :=
  match s with
  | c :: r =>
      if isDigit c then read_digits r (acc * 10 + (c - 48))%N (S count)
      else (acc, count, s)
  | [] => (acc, count, s)
  end.

(** [int]: a single 0, or a digit 1-9 followed by digits. *)
Definition parse_int (s : jstring) : option (N * jstring) :=
  match s with
  | c :: r =>
      if (c =? 48)%N then Some (0%N, r)
      else if isDigit c then
        let '(n, _, rest) := read_digits s 0%N 0 in Some (n, rest)
      else None
  | [] => None
  end.

(** [frac]: a dot and at least one digit, appended to the mantissa. *)
Definition parse_frac (m : N) (s : jstring) : option (N * nat * jstring) :=
  match s with
  | c :: r =>
      if (c =? 46)%N then
        match read_digits r m 0 with
        | (_, O, _) => None
        | (m', S k, rest) => Some (m', S k, rest)
        end
      else Some (m, 0, s)
  | [] => Some (m, 0, s)
  end.

(** [exp]: e or E, an optional sign and at least one digit. *)
Definition parse_exp (s : jstring) : option (Z * jstring) :=
  match s with
  | c :: r =>
      if ((c =? 101) || (c =? 69))%N then
        let '(neg, r') :=
          match r with
          | sg :: r1 =>
              if (sg =? 45)%N then (true, r1)
              else if (sg =? 43)%N then (false, r1)
              else (false, r)
          | [] => (false, r)
          end in
        match read_digits r' 0%N 0 with
        | (_, O, _) => None
        | (e, S _, rest) =>
            Some ((if neg then - Z.of_N e else Z.of_N e)%Z, rest)
        end
      else Some (0%Z, s)
  | [] => Some (0%Z, s)
  end.

Definition parse_number (s : jstring) : option (number * jstring) :=
  let '(neg, s1) :=
    match s with
    | c :: r => if (c =? 45)%N then (true, r) else (false, s)
    | [] => (false, s)
    end in
  match parse_int s1 with
  | None => None
  | Some (i, s2) =>
      match parse_frac i s2 with
      | None => None
      | Some (m, fdigits, s3) =>
          match parse_exp s3 with
          | None => None
          | Some (e, s4) =>
              Some ({| negative := neg; mantissa := m;
                       exp10 := (e - Z.of_nat fdigits)%Z |}, s4)
          end
      end
  end.

(** The characters of a string after its opening quote, up to and
    without the closing quote, escapes decoded. *)
Fixpoint parse_string_body (s : jstring) : option (jstring * jstring) :=
  match s with
  | [] => None
  | c :: r =>
      if (c =? dq)%N then Some ([], r)
      else if (c =? bslash)%N then
        match r with
        | [] => None
        | e :: r1 =>
            let simple (d : char) :=
              match parse_string_body r1 with
              | Some (body, rest) => Some (d :: body, rest)
              | None => None
              end in
            if (e =? dq)%N then simple dq
            else if (e =? bslash)%N then simple bslash
            else if (e =? 47)%N then simple 47%N
            else if (e =? 98)%N then simple 8%N
            else if (e =? 102)%N then simple 12%N
            else if (e =? 110)%N then simple 10%N
            else if (e =? 114)%N then simple 13%N
            else if (e =? 116)%N then simple 9%N
            else if (e =? 117)%N then
              match r1 with
              | h1 :: h2 :: h3 :: h4 :: r2 =>
                  match hexval h1, hexval h2, hexval h3, hexval h4 with
                  | Some a, Some b, Some c', Some d =>
                      match parse_string_body r2 with
                      | Some (body, rest) =>
                          Some ((((a * 16 + b) * 16 + c') * 16 + d)%N :: body, rest)
                      | None => None
                      end
                  | _, _, _, _ => None
                  end
              | _ => None
              end
            else None
        end
      else if (c <? 32)%N then None
      else
        match parse_string_body r with
        | Some (body, rest) => Some (c :: body, rest)
        | None => None
        end
  end.

Definition ofOption {A : Type} (o : option (A * jstring)) : presult A :=
  match o with
  | Some (a, rest) => POk a rest
  | None => PErr
  end.

(** A literal name: [true], [false] or [null]. *)
Definition parse_literal (name : jstring) (v : value) (s : jstring)
  : presult value :=
  if startsWith s name then POk v (skipn (List.length name) s) else PErr.

Fixpoint parse_value (fuel : nat) (s : jstring) {struct fuel} : presult value :=
  match fuel with
  | O => PFuel
  | S fuel' =>
      match skip_ws s with
      | [] => PErr
      | c :: r =>
          if (c =? 123)%N then                      (* { *)
            match skip_ws r with
            | c2 :: r2 =>
                if (c2 =? 125)%N then POk (VObject []) r2
                else parse_members fuel' (c2 :: r2) []
            | [] => PErr
            end
          else if (c =? 91)%N then                  (* [ *)
            match skip_ws r with
            | c2 :: r2 =>
                if (c2 =? 93)%N then POk (VArray []) r2
                else parse_elements fuel' (c2 :: r2) []
            | [] => PErr
            end
          else if (c =? dq)%N then
            match parse_string_body r with
            | Some (body, rest) => POk (VString body) rest
            | None => PErr
            end
          else if (c =? 116)%N then parse_literal (str "true") (VBool true) (c :: r)
          else if (c =? 102)%N then parse_literal (str "false") (VBool false) (c :: r)
          else if (c =? 110)%N then parse_literal (str "null") VNull (c :: r)
          else
            match parse_number (c :: r) with
            | Some (n, rest) => POk (VNumber n) rest
            | None => PErr
            end
      end
  end

with parse_elements (fuel : nat) (s : jstring) (acc : list value)
     {struct fuel} : presult value :=
  match fuel with
  | O => PFuel
  | S fuel' =>
      match parse_value fuel' s with
      | POk v rest =>
          match skip_ws rest with
          | c :: r =>
              if (c =? 44)%N then parse_elements fuel' r (v :: acc)
              else if (c =? 93)%N then POk (VArray (rev (v :: acc))) r
              else PErr
          | [] => PErr
          end
      | PErr => PErr
      | PFuel => PFuel
      end
  end

with parse_members (fuel : nat) (s : jstring) (acc : list (jstring * value))
     {struct fuel} : presult value :=
  match fuel with
  | O => PFuel
  | S fuel' =>
      match skip_ws s with
      | c :: r =>
          if (c =? dq)%N then
            match parse_string_body r with
            | Some (key, rest) =>
                match skip_ws rest with
                | c2 :: r2 =>
                    if (c2 =? colon)%N then
                      match parse_value fuel' r2 with
                      | POk v rest2 =>
                          match skip_ws rest2 with
                          | c3 :: r3 =>
                              if (c3 =? 44)%N then
                                parse_members fuel' r3 ((key, v) :: acc)
                              else if (c3 =? 125)%N then
                                POk (VObject (rev ((key, v) :: acc))) r3
                              else PErr
                          | [] => PErr
                          end
                      | PErr => PErr
                      | PFuel => PFuel
                      end
                    else PErr
                | [] => PErr
                end
            | None => PErr
            end
          else PErr
      | [] => PErr
      end
  end.

(** Fuel that never runs out on [s] (lemma [parse_value_fuel]). *)
Definition fuel_for (s : jstring) : nat := 2 * List.length s + 1.

(** One value, then only whitespace up to the end of the text; [None] is
    a thrown [SyntaxError]. *)
Definition parse (s : jstring) : option value :=
  match parse_value (fuel_for s) s with
  | POk v rest =>
      match skip_ws rest with
      | [] => Some v
      | _ :: _ => None
      end
  | PErr => None
  | PFuel => None
  end.

End JSON.

(** ** Property reads on parsed values *)

(** An own property of a parsed object; of duplicate keys the last one
    stands, as in [JSON.parse]. *)
Definition lookup (key : jstring) (props : list (jstring * value)) : value :=
  fold_left (fun found kv => if jstring_eqb (fst kv) key then snd kv else found)
            props VUndefined.

Section Reads.
Context (engine : Engine).

Definition typeError {A : Type} (f : fault) : Outcome A :=
  Throw (ErrorObj (fault_message engine f)).

(** [v.key] for a [key] that no built-in prototype defines (the source
    reads [fofa_query], [explanation], [candidates], [content], [parts],
    [text], [choices] and [message]). *)
Definition get_prop (v : value) (key : jstring) : Outcome value :=
  match v with
  | VUndefined | VNull => typeError (ReadOfNullish key)
  | VObject props => Ret (lookup key props)
  | VBool _ | VNumber _ | VString _ | VArray _ => Ret VUndefined
  end.

(** [v[0]] *)
Definition get_index0 (v : value) : Outcome value :=
  match v with
  | VUndefined | VNull => typeError (ReadOfNullish (str "0"))
  | VArray items => Ret (hd VUndefined items)
  | VString s =>
      Ret (match s with c :: _ => VString [c] | [] => VUndefined end)
  | VObject props => Ret (lookup (str "0") props)
  | VBool _ | VNumber _ => Ret VUndefined
  end.

(** [v.trim()] *)
Definition call_trim (v : value) : Outcome jstring :=
  match v with
  | VString s => Ret (trim s)
  | VUndefined | VNull => typeError (ReadOfNullish (str "trim"))
  | VBool _ | VNumber _ | VArray _ | VObject _ =>
      typeError (NotAFunction (str "trim"))
  end.

(** Whether a parsed object has a member [key] of its own. *)
Definition has_own (key : jstring) (props : list (jstring * value)) : bool :=
  existsb (fun kv => jstring_eqb (fst kv) key) props.

(** ToString, as a template literal applies it.  An object made by
    [JSON.parse] renders as "[object Object]" through
    [Object.prototype.toString], unless it has a member [toString] of its
    own: that member is no function, [valueOf] (its own, which is no
    function, or the inherited one, which returns the object) gives no
    primitive either, and the conversion throws a [TypeError].  An array
    renders as its elements joined by commas, [null] and [undefined]
    among them as nothing. *)
Fixpoint ToString (v : value) : Outcome jstring :=
  match v with
  | VUndefined => Ret (str "undefined")
  | VNull => Ret (str "null")
  | VBool b => Ret (if b then str "true" else str "false")
  | VNumber n => Ret (number_to_string engine n)
  | VString s => Ret s
  | VArray items =>
      (fix join (l : list value) : Outcome jstring :=
         match l with
         | [] => Ret []
         | x :: rest =>
             head <- match x with
                     | VUndefined | VNull => Ret []
                     | _ => ToString x
                     end ;;
             match rest with
             | [] => Ret head
             | _ :: _ => tail <- join rest ;; Ret (head ++ 44%N :: tail)
             end
         end) items
  | VObject props =>
      if has_own (str "toString") props then typeError NotPrimitive
      else Ret (str "[object Object]")
  end.

End Reads.

(** ** The response extractor ([LLMService], [src/llmService.ts]) *)

Record LLMResponse := { fofa_query : value; explanation : value }.

(** "无法解析LLM响应" *)
Definition msg_unparsable : jstring :=
  [26080; 27861; 35299; 26512; 76; 76; 77; 21709; 24212]%N.

(** "从文本中提取的查询" *)
Definition msg_from_text : jstring :=
  [20174; 25991; 26412; 20013; 25552; 21462; 30340; 26597; 35810]%N.

(** "文本解析失败" *)
Definition msg_text_failed : jstring :=
  [25991; 26412; 35299; 26512; 22833; 36133]%N.

Definition notQuote (c : char) : bool := negb (c =? dq)%N.

Definition fence : jstring := [backtick; backtick; backtick].

(** [/^```json\s*/] *)
Definition re_fence_json : regex :=
  {| anchored := true;
     body := lits (fence ++ str "json") ++ [Star isWhiteSpace] |}.

(** [/^```\s*/] *)
Definition re_fence_open : regex :=
  {| anchored := true; body := lits fence ++ [Star isWhiteSpace] |}.

(** [/\s*```$/] *)
Definition re_fence_close : regex :=
  {| anchored := false; body := [Star isWhiteSpace] ++ lits fence ++ [Eos] |}.

(** [/QkeyQ\s*:\s*Q([^Q]+)Q/], writing Q for the double quote *)
Definition re_pair (key : jstring) : regex :=
  {| anchored := false;
     body := lits ([dq] ++ key ++ [dq])
             ++ [Star isWhiteSpace; Chr colon; Star isWhiteSpace; Chr dq;
                 CapPlus notQuote; Chr dq] |}.

(** [/:\s*Q([^Q]+)Q/], writing Q for the double quote *)
Definition re_line_value : regex :=
  {| anchored := false;
     body := [Chr colon; Star isWhiteSpace; Chr dq; CapPlus notQuote; Chr dq] |}.

(** [m[1]] of a match array. *)
Definition group1 (caps : list jstring) : value :=
  match caps with
  | g :: _ => VString g
  | [] => VUndefined
  end.

(** The body of the [for (const line of lines)] loop of [extractFromText],
    on the two variables [fofaQuery] and [explanation]. *)
Definition scanLine (vars : value * value) (line : jstring) : value * value :=
  let '(fofaQuery, explanation) := vars in
  let fofaQuery :=
    if includes line (str "fofa_query") && includes line [colon] then
      match match_ re_line_value line with
      | Some caps => group1 caps
      | None => fofaQuery
      end
    else fofaQuery in
  let explanation :=
    if includes line (str "explanation") && includes line [colon] then
      match match_ re_line_value line with
      | Some caps => group1 caps
      | None => explanation
      end
    else explanation in
  (fofaQuery, explanation).

(** [LLMService.extractFromText] *)
Definition extractFromText (text : jstring) : Outcome LLMResponse :=
  try_catch
    (let queryMatch := match_ (re_pair (str "fofa_query")) text in
     let explanationMatch := match_ (re_pair (str "explanation")) text in
     match queryMatch, explanationMatch with
     | Some qcaps, Some ecaps =>
         Ret {| fofa_query := group1 qcaps; explanation := group1 ecaps |}
     | _, _ =>
         let lines := split newline text in
         let '(fofaQuery, explanation) :=
           fold_left scanLine lines (VNull, VString []) in
         Ret {| fofa_query := fofaQuery;
                explanation := if truthy explanation then explanation
                               else VString msg_from_text |}
     end)
    (fun _ => Ret {| fofa_query := VNull; explanation := VString msg_text_failed |}).

(** The fence stripping of [convertTextToFofaQuery] (its [cleanContent]). *)
Definition cleanContent (content : jstring) : jstring :=
  let cleanContent := trim content in
  if startsWith cleanContent (fence ++ str "json") then
    replace_empty re_fence_close (replace_empty re_fence_json cleanContent)
  else if startsWith cleanContent fence then
    replace_empty re_fence_close (replace_empty re_fence_open cleanContent)
  else cleanContent.

Section Extract.
Context (engine : Engine).

Definition JSON_parse (s : jstring) : Outcome value :=
  match JSON.parse s with
  | Some v => Ret v
  | None => typeError engine JsonSyntax
  end.

(** The inner [try] block of [convertTextToFofaQuery]: the strict parse. *)
Definition strictParse (content : jstring) : Outcome LLMResponse :=
  parsedResponse <- JSON_parse (cleanContent content) ;;
  q <- get_prop engine parsedResponse (str "fofa_query") ;;
  e <- get_prop engine parsedResponse (str "explanation") ;;
  Ret {| fofa_query := q; explanation := e |}.

(** The [catch (parseError)] block: the recovery from the text. *)
Definition recover (content : jstring) : Outcome LLMResponse :=
  fallbackResult <- extractFromText content ;;
  if truthy (fofa_query fallbackResult) then Ret fallbackResult
  else Ret {| fofa_query := VNull; explanation := VString msg_unparsable |}.

(** The extraction of [convertTextToFofaQuery] (lines 36-70): from the
    text of the completion to an [LLMResponse]. *)
Definition extract (content : jstring) : Outcome LLMResponse :=
  try_catch (strictParse content) (fun _ => recover content).

End Extract.

(** ** Effects: the network and the calls made

    The two services [await] one HTTP call each, one after the other.  A
    computation threads the list of calls made so far and ends in a value
    or in a thrown error.  Console output is not modelled. *)

Record LLMConfig := { llmApiKey : jstring; apiUrl : jstring }.
Record FofaConfig := { email : jstring; fofaApiKey : jstring }.

(** The request of [buildRequest]: its URL, the [model], the content of
    its one user message, the sampling parameters and the two headers.
    The time-outs of the two calls (300 s and 30 s) are constants of the
    calls and are not part of a request. *)
Record ProviderRequest := {
  url : jstring;
  model : jstring;
  content : jstring;
  thinking_budget : option Z;
  temperature : number;
  max_tokens : Z;
  authorization : jstring;
  content_type : jstring
}.

(** [Buffer.from(q, 'utf-8').toString('base64')], kept as a term. *)
Inductive encoded : Type := Base64Utf8 (q : jstring).

Record FofaQueryParams := {
  p_email : jstring;
  p_key : jstring;
  qbase64 : encoded;
  fields : jstring;
  size : Z;
  page : Z
}.

Record FofaResult := { ip : jstring; port : jstring; title : jstring; host : jstring }.

(** The payload of the search service, as [FofaApiResponse] types it; the
    fields the source does not read are left out. *)
Record FofaApiResponse := {
  error_flag : bool;
  results : option (list (list jstring))
}.

(** The remote services: what a request resolves to ([response.data]) or
    rejects with. *)
Record Remote := {
  axios_post : ProviderRequest -> Outcome value;
  axios_get : FofaQueryParams -> Outcome FofaApiResponse
}.

Inductive Event : Type :=
| Posted (request : ProviderRequest)                 (* axios.post was called *)
| SearchCalled (query : value) (size page : Z)       (* executeFofaQuery was entered *)
| Got (params : FofaQueryParams).                    (* axios.get was called *)

Definition M (A : Type) : Type := list Event -> Outcome A * list Event.

Definition ret {A : Type} (a : A) : M A := fun log => (Ret a, log).
Definition throw {A : Type} (e : exn) : M A := fun log => (Throw e, log).
Definition lift {A : Type} (o : Outcome A) : M A := fun log => (o, log).
Definition emit (ev : Event) : M unit := fun log => (Ret tt, log ++ [ev]).

Definition bindM {A B : Type} (m : M A) (k : A -> M B) : M B :=
  fun log =>
    match m log with
    | (Ret a, log') => k a log'
    | (Throw e, log') => (Throw e, log')
    end.

Definition tryM {A : Type} (body : M A) (handler : exn -> M A) : M A :=
  fun log =>
    match body log with
    | (Ret a, log') => (Ret a, log')
    | (Throw e, log') => handler e log'
    end.

Notation "x <~ m ;; k" := (bindM m (fun x => k))
  (at level 61, m at next level, right associativity) : js_scope.
Notation "m ;;; k" := (bindM m (fun _ => k))
  (at level 61, right associativity) : js_scope.

(** "未知错误" *)
Definition msg_unknown : jstring := [26410; 30693; 38169; 35823]%N.

(** [error instanceof Error ? error.message : "未知错误"] *)
Definition message_of (error : exn) : jstring :=
  match error with
  | ErrorObj message => message
  | AxiosErrorObj message _ _ => message
  | NonError => msg_unknown
  end.

(** ** The translation client ([LLMService]) *)

(** "LLM服务调用失败: " *)
Definition msg_llm_failed : jstring :=
  [76; 76; 77; 26381; 21153; 35843; 29992; 22833; 36133; 58; 32]%N.

(** "无法解析API响应格式" *)
Definition msg_bad_envelope : jstring :=
  [26080; 27861; 35299; 26512; 65; 80; 73; 21709; 24212; 26684; 24335]%N.

(** The text of [buildPrompt] before and after the request of the user:
    the grammar reference and the output rules. *)
Record Prompt := { prompt_head : jstring; prompt_tail : jstring }.

Section Translation.
Context (engine : Engine) (prompt : Prompt) (net : Remote)
        (config : LLMConfig).

Definition buildPrompt (userInput : jstring) : jstring :=
  prompt_head prompt ++ userInput ++ prompt_tail prompt.

Definition buildRequest (text : jstring) : ProviderRequest :=
  let u := toLowerCase engine (apiUrl config) in
  if includes u (str "siliconflow.cn") then
    {| url := apiUrl config;
       model := str "deepseek-ai/DeepSeek-V3.1";
       content := text;
       thinking_budget := Some 4096%Z;
       temperature := {| negative := false; mantissa := 1; exp10 := -1 |};
       max_tokens := 500%Z;
       authorization := str "Bearer " ++ llmApiKey config;
       content_type := str "application/json" |}
  else
    {| url := apiUrl config;
       model := str "gpt-3.5-turbo";
       content := text;
       thinking_budget := None;
       temperature := {| negative := false; mantissa := 1; exp10 := -1 |};
       max_tokens := 500%Z;
       authorization := str "Bearer " ++ llmApiKey config;
       content_type := str "application/json" |}.

(** [a && a[0]] for [a = responseData.key]. *)
Definition first_of (responseData : value) (key : jstring) : Outcome value :=
  a <- get_prop engine responseData key ;;
  if truthy a then get_index0 engine a else Ret a.

Definition extractContent (responseData : value) : Outcome jstring :=
  c <- first_of responseData (str "candidates") ;;
  if truthy c then
    candidates <- get_prop engine responseData (str "candidates") ;;
    c0 <- get_index0 engine candidates ;;
    content <- get_prop engine c0 (str "content") ;;
    parts <- get_prop engine content (str "parts") ;;
    p0 <- get_index0 engine parts ;;
    text <- get_prop engine p0 (str "text") ;;
    call_trim engine text
  else
    c <- first_of responseData (str "choices") ;;
    if truthy c then
      choices <- get_prop engine responseData (str "choices") ;;
      c0 <- get_index0 engine choices ;;
      message <- get_prop engine c0 (str "message") ;;
      content <- get_prop engine message (str "content") ;;
      call_trim engine content
    else Throw (ErrorObj msg_bad_envelope).

(** [LLMService.convertTextToFofaQuery] *)
Definition convertTextToFofaQuery (userInput : jstring) : M LLMResponse :=
  let text := buildPrompt userInput in
  tryM
    (let request := buildRequest text in
     emit (Posted request) ;;;
     responseData <~ lift (axios_post net request) ;;
     content <~ lift (extractContent responseData) ;;
     lift (extract engine content))
    (fun error => throw (ErrorObj (msg_llm_failed ++ message_of error))).

End Translation.

(** ** The search client ([FofaService]) *)

(** "无效的FOFA查询语法: " *)
Definition msg_invalid_query : jstring :=
  [26080; 25928; 30340; 70; 79; 70; 65; 26597; 35810; 35821; 27861; 58; 32]%N.

(** "FOFA API返回错误，请检查查询语法或API配置" *)
Definition msg_api_error : jstring :=
  [70; 79; 70; 65; 32; 65; 80; 73; 36820; 22238; 38169; 35823; 65292; 35831;
   26816; 26597; 26597; 35810; 35821; 27861; 25110; 65; 80; 73; 37197; 32622]%N.

(** "FOFA API认证失败，请检查email和API key配置" *)
Definition msg_auth : jstring :=
  [70; 79; 70; 65; 32; 65; 80; 73; 35748; 35777; 22833; 36133; 65292; 35831;
   26816; 26597; 101; 109; 97; 105; 108; 21644; 65; 80; 73; 32; 107; 101; 121;
   37197; 32622]%N.

(** "FOFA API访问被拒绝，可能是查询配额不足" *)
Definition msg_denied : jstring :=
  [70; 79; 70; 65; 32; 65; 80; 73; 35775; 38382; 34987; 25298; 32477; 65292;
   21487; 33021; 26159; 26597; 35810; 37197; 39069; 19981; 36275]%N.

(** "FOFA API请求超时，请稍后重试" *)
Definition msg_timeout : jstring :=
  [70; 79; 70; 65; 32; 65; 80; 73; 35831; 27714; 36229; 26102; 65292; 35831;
   31245; 21518; 37325; 35797]%N.

(** "FOFA查询执行失败: " *)
Definition msg_exec_failed : jstring :=
  [70; 79; 70; 65; 26597; 35810; 25191; 34892; 22833; 36133; 58; 32]%N.

Definition or_empty (o : option jstring) : jstring :=
  match o with
  | Some (c :: s) => c :: s
  | Some [] | None => []
  end.

(** [FofaService.transformResults] *)
Definition transformResults (rawResults : option (list (list jstring)))
  : list FofaResult :=
  match rawResults with
  | None | Some [] => []
  | Some rows =>
      map (fun result =>
             {| ip := or_empty (nth_error result 0);
                port := or_empty (nth_error result 1);
                title := or_empty (nth_error result 2);
                host := or_empty (nth_error result 3) |}) rows
  end.

Definition status_is (status : option Z) (code : Z) : bool :=
  match status with
  | Some s => (s =? code)%Z
  | None => false
  end.

Definition code_is (code : option jstring) (name : jstring) : bool :=
  match code with
  | Some c => jstring_eqb c name
  | None => false
  end.

Section Search.
Context (engine : Engine) (net : Remote) (config : FofaConfig).

(** The [catch] block of [executeFofaQuery]. *)
Definition classify {A : Type} (error : exn) : M A :=
  match error with
  | AxiosErrorObj message status code =>
      if status_is status 401 then throw (ErrorObj msg_auth)
      else if status_is status 403 then throw (ErrorObj msg_denied)
      else if code_is code (str "ECONNABORTED") then throw (ErrorObj msg_timeout)
      else throw (ErrorObj (msg_exec_failed ++ message_of error))
  | _ => throw (ErrorObj (msg_exec_failed ++ message_of error))
  end.

(** The [try] block of [executeFofaQuery], the query being a string. *)
Definition request (query : jstring) (size page : Z) : M (list FofaResult) :=
  let qbase64 := Base64Utf8 query in
  let params :=
    {| p_email := email config;
       p_key := fofaApiKey config;
       qbase64 := qbase64;
       fields := str "ip,port,title,host";
       size := size;
       page := page |} in
  emit (Got params) ;;;
  response <~ lift (axios_get net params) ;;
  if error_flag response then throw (ErrorObj msg_api_error)
  else ret (transformResults (results response)).

(** [FofaService.executeFofaQuery]; [size] and [page] default to 100 and
    1.  [validateQuery] reads [query.trim()]: a query that is falsy is
    invalid and is rendered into the message, one that is truthy and no
    string has no [trim] to call. *)
Definition executeFofaQuery (query : value) (size page : option Z)
  : M (list FofaResult) :=
  let size := match size with Some n => n | None => 100%Z end in
  let page := match page with Some n => n | None => 1%Z end in
  emit (SearchCalled query size page) ;;;
  match query with
  | VString q =>
      if negb (validateQuery q) then
        throw (ErrorObj (msg_invalid_query ++ q))
      else tryM (request q size page) classify
  | _ =>
      if truthy query then lift (typeError engine (NotAFunction (str "trim")))
      else
        rendered <~ lift (ToString engine query) ;;
        throw (ErrorObj (msg_invalid_query ++ rendered))
  end.

End Search.

(** ** The coordinator ([Orchestrator]) *)

Record ProcessResult := {
  success : bool;
  data : option (list FofaResult);
  error : option jstring;
  query : option value;
  explanation_ : option value
}.

(** "无法理解您的查询请求: " and the opening double quote *)
Definition msg_not_understood : jstring :=
  [26080; 27861; 29702; 35299; 24744; 30340; 26597; 35810; 35831; 27714; 58; 32;
   34]%N.

(** "直接FOFA查询" *)
Definition msg_direct : jstring :=
  [30452; 25509; 70; 79; 70; 65; 26597; 35810]%N.

(** [ResultPresenter.presentResults] and [presentError] write to the
    console and return nothing.  The templates of [presentResults] render
    the query and the explanation, which its callers have rendered before
    they call it (they are strings in the direct mode), the length of the
    records and their members, which are strings: it throws nothing. *)
Definition presentResults (results : list FofaResult) (query explanation : value)
  : M unit := ret tt.
Definition presentError (message : jstring) : M unit := ret tt.

Definition failed (message : jstring) : ProcessResult :=
  {| success := false; data := None; error := Some message;
     query := None; explanation_ := None |}.

Section Orchestrator.
Context (engine : Engine) (prompt : Prompt) (net : Remote)
        (llmConfig : LLMConfig) (fofaConfig : FofaConfig).

(** The [catch] block of both methods. *)
Definition report (error : exn) : M ProcessResult :=
  let errorMessage := message_of error in
  presentError errorMessage ;;;
  ret (failed errorMessage).

(** [Orchestrator.processUserQuery]; [resultSize] defaults to 50.  The
    templates of the failure message and of the two [console.log] calls
    before the search render values of the translation inside the [try]:
    where ToString throws, the [catch] block takes over. *)
Definition processUserQuery (userInput : jstring) (resultSize : option Z)
  : M ProcessResult :=
  let resultSize := match resultSize with Some n => n | None => 50%Z end in
  tryM
    (llmResponse <~ convertTextToFofaQuery engine prompt net llmConfig userInput ;;
     if negb (truthy (fofa_query llmResponse)) then
       explanationText <~ lift (ToString engine (explanation llmResponse)) ;;
       ret (failed (msg_not_understood ++ userInput ++ [dq; newline]
                    ++ explanationText))
     else
       queryLogged <~ lift (ToString engine (fofa_query llmResponse)) ;;
       explanationLogged <~ lift (ToString engine (explanation llmResponse)) ;;
       fofaResults <~ executeFofaQuery engine net fofaConfig
                        (fofa_query llmResponse) (Some resultSize) None ;;
       presentResults fofaResults (fofa_query llmResponse)
                      (explanation llmResponse) ;;;
       ret {| success := true;
              data := Some fofaResults;
              error := None;
              query := Some (fofa_query llmResponse);
              explanation_ := Some (explanation llmResponse) |})
    report.

(** [Orchestrator.executeDirectQuery] *)
Definition executeDirectQuery (fofaQuery : jstring) (resultSize : option Z)
  : M ProcessResult :=
  let resultSize := match resultSize with Some n => n | None => 50%Z end in
  tryM
    (fofaResults <~ executeFofaQuery engine net fofaConfig
                      (VString fofaQuery) (Some resultSize) None ;;
     presentResults fofaResults (VString fofaQuery) (VString msg_direct) ;;;
     ret {| success := true;
            data := Some fofaResults;
            error := None;
            query := Some (VString fofaQuery);
            explanation_ := Some (VString msg_direct) |})
    report.

End Orchestrator.

(** ** The tool handler of the protocol server ([NL2FOFAMCPServer]) *)

Record QueryResult := {
  qr_success : bool;
  qr_results : list FofaResult;
  qr_query : value;
  qr_explanation : value;
  qr_count : nat
}.

(** The text of a tool response: a plain text, or the text that
    [formatQueryResult] makes of a result, kept as a term. *)
Inductive ToolText : Type :=
| Plain (text : jstring)
| Formatted (result : QueryResult).

(** "❌ 无法理解查询请求: " and the opening double quote *)
Definition msg_tool_not_understood : jstring :=
  [10060; 32; 26080; 27861; 29702; 35299; 26597; 35810; 35831; 27714; 58; 32;
   34]%N.

(** "❌ 查询失败: " *)
Definition msg_tool_failed : jstring :=
  [10060; 32; 26597; 35810; 22833; 36133; 58; 32]%N.

Section ToolHandler.
Context (engine : Engine) (prompt : Prompt) (net : Remote)
        (llmConfig : LLMConfig) (fofaConfig : FofaConfig).

(** [NL2FOFAMCPServer.formatQueryResult] on a result that holds records.
    Of its templates, those of the query and of the explanation render
    values of the translation and throw where ToString does; the others
    render numbers and members of the records, which are strings. *)
Definition formatQueryResult (result : QueryResult) : Outcome ToolText :=
  queryText <- ToString engine (qr_query result) ;;
  explanationText <- ToString engine (qr_explanation result) ;;
  Ret (Formatted result).

(** [NL2FOFAMCPServer.handleNaturalLanguageQuery]; [size] defaults to 50. *)
Definition handleNaturalLanguageQuery (query : jstring) (size : option Z)
  : M ToolText :=
  let size := match size with Some n => n | None => 50%Z end in
  tryM
    (llmResponse <~ convertTextToFofaQuery engine prompt net llmConfig query ;;
     if negb (truthy (fofa_query llmResponse)) then
       explanationText <~ lift (ToString engine (explanation llmResponse)) ;;
       ret (Plain (msg_tool_not_understood ++ query ++ [dq; newline]
                   ++ explanationText))
     else
       results <~ executeFofaQuery engine net fofaConfig
                    (fofa_query llmResponse) (Some size) None ;;
       lift (formatQueryResult {| qr_success := true;
                                  qr_results := results;
                                  qr_query := fofa_query llmResponse;
                                  qr_explanation := explanation llmResponse;
                                  qr_count := List.length results |}))
    (fun error => ret (Plain (msg_tool_failed ++ message_of error))).

End ToolHandler.

(** ** Vocabulary of the statements *)

(** [a] is a contiguous piece of [b]. *)
Definition infix (a b : jstring) : Prop := exists l r, b = l ++ a ++ r.

(** The classes of the capturing groups of a pattern, in order. *)
Fixpoint cap_classes (pat : pattern) : list (char -> bool) :=
  match pat with
  | [] => []
  | CapPlus p :: k => p :: cap_classes k
  | _ :: k => cap_classes k
  end.

(** A query is absent when it is [null] or [undefined]. *)
Definition absent (v : value) : Prop := v = VNull \/ v = VUndefined.
Definition present (v : value) : Prop := ~ absent v.

(** What a value recovered from the text is: a string, not empty, without
    a double quote, and a contiguous piece of that text. *)
Definition scraped (text : jstring) (v : value) : Prop :=
  exists s, v = VString s /\ s <> [] /\ ~ In dq s /\ infix s text.

(** The result of a parse failure from which nothing was recovered. *)
Definition parseFailure : LLMResponse :=
  {| fofa_query := VNull; explanation := VString msg_unparsable |}.
(** The two variables of the line scan hold their initial value or a
    value scraped from the text. *)
Definition scan_inv (text : jstring) (vars : value * value) : Prop :=
  (fst vars = VNull \/ scraped text (fst vars))
  /\ (snd vars = VString [] \/ scraped text (snd vars)).

(** ** An engine and texts to run the definitions on

    The texts of [sample_engine] stand for those of the engine; the
    message of the conversion to a primitive is the one of V8.  No
    statement about every engine depends on them. *)

Definition sample_engine : Engine :=
  {| fault_message := fun f =>
       match f with
       | ReadOfNullish key => str "Cannot read properties of null (reading " ++ key ++ str ")"
       | NotAFunction key => key ++ str " is not a function"
       | JsonSyntax => str "Unexpected token in JSON"
       | NotPrimitive => str "Cannot convert object to primitive value"
       end;
     number_to_string := fun _ => str "<number>";
     toLowerCase :=
       map (fun c => if ((65 <=? c) && (c <=? 90))%N then (c + 32)%N else c) |}.

(** An ASCII literal in which the apostrophe stands for the double quote. *)
Definition quoted (s : string) : jstring :=
  map (fun c => if (c =? 39)%N then dq else c) (str s).

(** The text of the fallback scenario: the two pairs on separate lines,
    the quotes inside the query escaped by a backslash, no braces. *)
Definition fallback_text : jstring :=
  quoted "'fofa_query': 'country=\'US\''" ++ [newline]
  ++ quoted "'explanation': 'y'".

(** The same with bare quotes inside the query. *)
Definition fallback_text_bare : jstring :=
  quoted "'fofa_query': 'country='US''" ++ [newline]
  ++ quoted "'explanation': 'y'".

Definition null_decision_text : jstring :=
  quoted "{'fofa_query': null, 'explanation': 'too vague'}".

Definition empty_query_text : jstring :=
  quoted "{'fofa_query':'','explanation':'x'}".

(** ** Vocabulary of the statements on the services *)

(** A step into a value, and the value at the end of a path; a step that
    cannot be made ends in [undefined]. *)
Inductive accessor : Type :=
| Field (name : jstring)
| First.

Definition read (v : value) (a : accessor) : value :=
  match a with
  | Field name =>
      match v with
      | VObject props => lookup name props
      | _ => VUndefined
      end
  | First =>
      match v with
      | VArray items => hd VUndefined items
      | VString (c :: _) => VString [c]
      | VObject props => lookup (str "0") props
      | _ => VUndefined
      end
  end.

Definition at_path (v : value) (path : list accessor) : value :=
  fold_left read path v.

(** [candidates[0].content.parts[0].text] *)
Definition candidates_path : list accessor :=
  [Field (str "candidates"); First; Field (str "content");
   Field (str "parts"); First; Field (str "text")].

(** [choices[0].message.content] *)
Definition choices_path : list accessor :=
  [Field (str "choices"); First; Field (str "message"); Field (str "content")].

(** The envelope has the shape of the path: a string at its end. *)
Definition has_text (responseData : value) (path : list accessor) : Prop :=
  exists s, at_path responseData path = VString s.

(** Whatever the computation throws is an [Error] object. *)
Definition throws_error {A : Type} (o : Outcome A) : Prop :=
  forall e, o = Throw e -> exists cause, e = ErrorObj cause.

Definition is_search_event (ev : Event) : bool :=
  match ev with
  | SearchCalled _ _ _ | Got _ => true
  | Posted _ => false
  end.

(** ** Services to run the definitions on *)

(** A completion in the envelope of the [choices] shape. *)
Definition completion (text : jstring) : value :=
  VObject [(str "choices",
            VArray [VObject [(str "message",
                              VObject [(str "content", VString text)])]])].

Definition sample_remote (posted : Outcome value)
           (got : Outcome FofaApiResponse) : Remote :=
  {| axios_post := fun _ => posted; axios_get := fun _ => got |}.

Definition sample_prompt : Prompt :=
  {| prompt_head := str "Translate to FOFA: "; prompt_tail := [newline] |}.

Definition sample_llm_config : LLMConfig :=
  {| llmApiKey := str "sk-test";
     apiUrl := str "https://api.siliconflow.cn/v1/chat/completions" |}.

Definition sample_fofa_config : FofaConfig :=
  {| email := str "user@example.com"; fofaApiKey := str "key" |}.

Definition no_rows : FofaApiResponse := {| error_flag := false; results := Some [] |}.
Definition in_band_error : FofaApiResponse := {| error_flag := true; results := None |}.

Definition number_query_text : jstring :=
  quoted "{'fofa_query': 5, 'explanation': 'x'}".

(** A text that is no JSON (a number may not begin with 0) and that holds
    one quoted value after a colon. *)
Definition malformed_number_text : jstring :=
  quoted "{'fofa_query': 01, 'explanation': 'x'}".

(** A completion that declines, with an explanation that has no
    primitive form. *)
Definition unrendered_text : jstring :=
  quoted "{'fofa_query': null, 'explanation': {'toString': 1}}".

Definition nginx_query : jstring := quoted "app='nginx'".

Definition fenced_text : jstring :=
  fence ++ str "json" ++ [newline]
  ++ quoted "{'fofa_query':'app=\'nginx\'','explanation':'x'}" ++ [newline]
  ++ fence.

Definition nginx_us_text : jstring :=
  fence ++ str "json" ++ [newline]
  ++ quoted "{'fofa_query':'app=\'nginx\' && country=\'US\'','explanation':'...'}"
  ++ [newline] ++ fence.

Definition nginx_us_query : jstring := quoted "app='nginx' && country='US'".

Definition ambiguous_text : jstring :=
  quoted "{'fofa_query':null,'explanation':'ambiguous request'}".

Definition two_rows : FofaApiResponse :=
  {| error_flag := false;
     results := Some [[str "1.1.1.1"; str "80"; str "Welcome to nginx!"; str "a.example"];
                      [str "2.2.2.2"; str "443"]] |}.

Definition unauthorized : exn :=
  AxiosErrorObj (str "Request failed with status code 401") (Some 401%Z)
                (Some (str "ERR_BAD_REQUEST")).

(** Text on which the pattern scrape finds nothing (the keys are bare) and
    the line scan finds both values. *)
Definition bare_keys_text : jstring :=
  quoted "fofa_query: 'country=\'US\''" ++ [newline]
  ++ quoted "explanation: 'y'".

Definition timed_out : exn :=
  AxiosErrorObj (str "timeout of 300000ms exceeded") None
                (Some (str "ECONNABORTED")).

(** ** Further vocabulary *)

(** The text ends in a character that is not whitespace, or is empty: no
    non-empty end of it is whitespace alone. *)
Definition no_trailing_space (a : jstring) : Prop :=
  forall a1 a2, a = a1 ++ a2 -> a2 <> [] -> forallb isWhiteSpace a2 = false.

(** The line holds the key and a colon and a quoted value after a colon:
    the line scan takes a value from it. *)
Definition yields (key line : jstring) : bool :=
  includes line key && includes line [colon]
  && match match_ re_line_value line with Some _ => true | None => false end.

(** Two lines that both name the query, for the line scan. *)
Definition two_queries_text : jstring :=
  quoted "fofa_query: 'a=1'" ++ [newline] ++ quoted "fofa_query: 'b=2'".

(** The parameters of the one request of [executeFofaQuery] for a query. *)
Definition params_for (config : FofaConfig) (q : jstring) (size page : option Z)
  : FofaQueryParams :=
  {| p_email := email config;
     p_key := fofaApiKey config;
     qbase64 := Base64Utf8 q;
     fields := str "ip,port,title,host";
     size := match size with Some n => n | None => 100%Z end;
     page := match page with Some n => n | None => 1%Z end |}.

(** ** The result presenter ([ResultPresenter]) *)

Definition dot : char := 46%N.

(** [pieces.join(sep)] on an array of strings. *)
Fixpoint join (sep : jstring) (pieces : list jstring) : jstring :=
  match pieces with
  | [] => []
  | piece :: rest =>
      match rest with
      | [] => piece
      | _ :: _ => piece ++ sep ++ join sep rest
      end
  end.

(** [ResultPresenter.truncateString]; [str.substring(0, n)] takes a
    negative [n] as 0. *)
Definition truncateString (s : jstring) (maxLength : Z) : jstring :=
  match s with
  | [] => []
  | _ :: _ =>
      if (Z.of_nat (List.length s) <=? maxLength)%Z then s
      else firstn (Z.to_nat (maxLength - 3)) s ++ str "..."
  end.

(** [stats[key] = (stats[key] || 0) + 1] on an object that holds counts,
    its own keys kept in the order of their insertion. *)
Fixpoint bump (key : jstring) (stats : list (jstring * nat)) : list (jstring * nat) :=
  match stats with
  | [] => [(key, 1)]
  | (k, n) :: rest =>
      if jstring_eqb k key then (k, n + 1) :: rest
      else (k, n) :: bump key rest
  end.

(** The key that [getIPSegmentStatistics] counts a record under, if any:
    the first two pieces of its address, which is not empty and holds a
    dot. *)
Definition segment_of (result : FofaResult) : option jstring :=
  match ip result with
  | [] => None
  | _ :: _ =>
      match split dot (ip result) with
      | s0 :: s1 :: _ => Some (s0 ++ [dot] ++ s1)
      | _ => None
      end
  end.

(** [ResultPresenter.getIPSegmentStatistics].  Every key it writes holds
    a dot, so none of them names a member that an empty object inherits,
    and none is an array index: the keys stay in insertion order. *)
Definition getIPSegmentStatistics (results : list FofaResult)
  : list (jstring * nat) :=
  fold_left
    (fun segmentStats result =>
       match segment_of result with
       | Some segment => bump segment segmentStats
       | None => segmentStats
       end)
    results [].

(** [stats[key] || 0] *)
Definition count_at (key : jstring) (stats : list (jstring * nat)) : nat :=
  match find (fun entry => jstring_eqb (fst entry) key) stats with
  | Some entry => snd entry
  | None => 0
  end.

(** The number of records counted under a key. *)
Definition occurrences (key : jstring) (results : list FofaResult) : nat :=
  List.length
    (filter (fun result =>
               match segment_of result with
               | Some segment => jstring_eqb segment key
               | None => false
               end) results).

Definition has_dot (result : FofaResult) : bool :=
  existsb (fun c => (c =? dot)%N) (ip result).

(** ** The environment *)

(** The variables of the environment that the entry points read; one that
    is not set reads [undefined]. *)
Record Env := {
  LLM_API_KEY : option jstring;
  LLM_API_URL : option jstring;
  FOFA_EMAIL : option jstring;
  FOFA_API_KEY : option jstring
}.

(** [!value] on a variable: it is not set, or set to the empty string. *)
Definition falsy_var (value : option jstring) : bool :=
  match value with
  | Some (_ :: _) => false
  | _ => true
  end.

(** [value!], read after the check that the variable is set. *)
Definition asserted (value : option jstring) : jstring :=
  match value with
  | Some s => s
  | None => []
  end.

Definition default_api_url : jstring :=
  str "https://api.openai.com/v1/chat/completions".

(** [process.env.LLM_API_URL || default] *)
Definition url_or_default (value : option jstring) : jstring :=
  match value with
  | Some (c :: s) => c :: s
  | _ => default_api_url
  end.

Definition requiredEnvVars (env : Env) : list (jstring * option jstring) :=
  [(str "LLM_API_KEY", LLM_API_KEY env);
   (str "FOFA_EMAIL", FOFA_EMAIL env);
   (str "FOFA_API_KEY", FOFA_API_KEY env)].

(** [Object.entries(requiredEnvVars).filter(([, value]) => !value)
    .map(([key]) => key)] *)
Definition missingVars (env : Env) : list jstring :=
  map fst (filter (fun entry => falsy_var (snd entry)) (requiredEnvVars env)).

(** ** The protocol server ([NL2FOFAMCPServer]), continued *)

(** [NL2FOFAMCPServer.initializeServices]: the configurations the two
    services are made with, or nothing where the method returns false and
    leaves the services unset. *)
Definition initializeServices (env : Env) : option (LLMConfig * FofaConfig) :=
  match missingVars env with
  | _ :: _ => None
  | [] =>
      Some ({| llmApiKey := asserted (LLM_API_KEY env);
               apiUrl := url_or_default (LLM_API_URL env) |},
            {| email := asserted (FOFA_EMAIL env);
               fofaApiKey := asserted (FOFA_API_KEY env) |})
  end.

(** "服务初始化失败，请检查环境变量配置" *)
Definition msg_init_failed : jstring :=
  [26381; 21153; 21021; 22987; 21270; 22833; 36133; 65292; 35831; 26816; 26597;
   29615; 22659; 21464; 37327; 37197; 32622]%N.

(** "缺少必需参数: " *)
Definition msg_missing_argument : jstring :=
  [32570; 23569; 24517; 38656; 21442; 25968; 58; 32]%N.

(** "未知的工具: " *)
Definition msg_unknown_tool : jstring :=
  [26410; 30693; 30340; 24037; 20855; 58; 32]%N.

(** "❌ 错误: " *)
Definition msg_tool_error : jstring := [10060; 32; 38169; 35823; 58; 32]%N.

(** The arguments of a tool call, at the types that the input schemas of
    the two tools declare: every member may be absent. *)
Record ToolArgs := {
  arg_query : option jstring;
  arg_fofaQuery : option jstring;
  arg_size : option Z
}.

Section Server.
Context (engine : Engine) (prompt : Prompt) (net : Remote) (env : Env).

(** [NL2FOFAMCPServer.handleDirectFofaQuery]; [size] defaults to 50. *)
Definition handleDirectFofaQuery (fofaConfig : FofaConfig) (fofaQuery : jstring)
           (size : option Z) : M ToolText :=
  let size := match size with Some n => n | None => 50%Z end in
  tryM
    (results <~ executeFofaQuery engine net fofaConfig (VString fofaQuery)
                  (Some size) None ;;
     lift (formatQueryResult engine
             {| qr_success := true;
                qr_results := results;
                qr_query := VString fofaQuery;
                qr_explanation := VString msg_direct;
                qr_count := List.length results |}))
    (fun error => ret (Plain (msg_tool_failed ++ message_of error))).

(** The handler of [CallToolRequestSchema]: the services after the call,
    and the answer.  The arguments of the request may be absent, and a
    member read on them then throws a [TypeError]. *)
Definition callTool (services : option (LLMConfig * FofaConfig))
           (name : jstring) (args : option ToolArgs)
  : option (LLMConfig * FofaConfig) * M ToolText :=
  let services :=
    match services with
    | Some s => Some s
    | None => initializeServices env
    end in
  (services,
   tryM
     match services with
     | None => throw (ErrorObj msg_init_failed)
     | Some (llmConfig, fofaConfig) =>
         if jstring_eqb name (str "natural_language_query") then
           match args with
           | None => lift (typeError engine (ReadOfNullish (str "query")))
           | Some typedArgs =>
               match arg_query typedArgs with
               | Some (c :: s) =>
                   handleNaturalLanguageQuery engine prompt net llmConfig
                     fofaConfig (c :: s) (arg_size typedArgs)
               | _ => throw (ErrorObj (msg_missing_argument ++ str "query"))
               end
           end
         else if jstring_eqb name (str "direct_fofa_query") then
           match args with
           | None => lift (typeError engine (ReadOfNullish (str "fofaQuery")))
           | Some typedArgs =>
               match arg_fofaQuery typedArgs with
               | Some (c :: s) =>
                   handleDirectFofaQuery fofaConfig (c :: s) (arg_size typedArgs)
               | _ => throw (ErrorObj (msg_missing_argument ++ str "fofaQuery"))
               end
           end
         else throw (ErrorObj (msg_unknown_tool ++ name))
     end
     (fun error => ret (Plain (msg_tool_error ++ message_of error)))).

End Server.

(** ** The command line ([index.ts]) *)

(** What [util.parseArgs] returns for the two boolean options and the
    positionals. *)
Record ParsedArgs := {
  help : bool;
  direct : bool;
  positionals : list jstring
}.

Inductive Mode : Type := HelpMode | DirectMode | NaturalMode.

(** How a run of [main] ends: it returns, or [process.exit] ends the
    process with a code. *)
Inductive Termination : Type :=
| Returned
| Exited (code : Z).

(** [validateEnvironment] *)
Definition validateEnvironment (env : Env) : option (LLMConfig * FofaConfig) :=
  match missingVars env with
  | _ :: _ => None
  | [] =>
      Some ({| llmApiKey := asserted (LLM_API_KEY env);
               apiUrl := url_or_default (LLM_API_URL env) |},
            {| email := asserted (FOFA_EMAIL env);
               fofaApiKey := asserted (FOFA_API_KEY env) |})
  end.

(** [parseArguments], on what [parseArgs] gives or throws: the mode and
    the query, or the code of the [process.exit] it ends with. *)
Definition parseArguments (parsed : Outcome ParsedArgs)
  : Outcome (Mode * jstring + Z) :=
  p <- parsed ;;
  if help p || ((List.length (positionals p) =? 0) && negb (direct p)) then
    Ret (inl (HelpMode, []))
  else if direct p then
    let query := join [32%N] (positionals p) in
    match trim query with
    | [] => Ret (inr 1%Z)
    | _ :: _ => Ret (inl (DirectMode, query))
    end
  else
    let query := join [32%N] (positionals p) in
    match trim query with
    | [] => Ret (inr 1%Z)
    | _ :: _ => Ret (inl (NaturalMode, query))
    end.

Section CommandLine.
Context (engine : Engine) (prompt : Prompt) (net : Remote) (env : Env).

(** [main] *)
Definition main (parsed : Outcome ParsedArgs) : M Termination :=
  tryM
    (arguments <~ lift (parseArguments parsed) ;;
     match arguments with
     | inr code => ret (Exited code)
     | inl (HelpMode, _) => ret Returned
     | inl (mode, query) =>
         match validateEnvironment env with
         | None => ret (Exited 1)
         | Some (llmConfig, fofaConfig) =>
             result <~ match mode with
                       | DirectMode =>
                           executeDirectQuery engine net fofaConfig query None
                       | _ =>
                           processUserQuery engine prompt net llmConfig
                             fofaConfig query None
                       end ;;
             ret (Exited (if success result then 0 else 1))
         end
     end)
    (fun error => ret (Exited 1)).

End CommandLine.

(** * Properties *)

(** ** Strings and the matcher *)

Lemma dropWhile_nil_iff (p : char -> bool) (s : jstring) :
  dropWhile p s = [] <-> forallb p s = true.
Proof.
  induction s as [|c s IH]; simpl.
  - tauto.
  - destruct (p c); simpl.
    + exact IH.
    + split; discriminate.
Qed.

Lemma dropWhile_head (p : char -> bool) (s : jstring) c rest :
  dropWhile p s = c :: rest -> p c = false.
Proof.
  induction s as [|x s IH]; simpl; [discriminate|].
  destruct (p x) eqn:E; [exact IH|].
  intros H; injection H as <- _; exact E.
Qed.

Lemma forallb_rev (p : char -> bool) (s : jstring) :
  forallb p (rev s) = forallb p s.
Proof.
  induction s as [|c s IH]; simpl; [reflexivity|].
  rewrite forallb_app, IH; simpl.
  rewrite andb_true_r; apply andb_comm.
Qed.

(** A string trims to the empty string exactly when it holds nothing but
    whitespace. *)
Lemma trim_nil_iff (s : jstring) :
  trim s = [] <-> forallb isWhiteSpace s = true.
Proof.
  unfold trim, trimEnd, trimStart.
  split.
  - intros H.
    assert (H1 : dropWhile isWhiteSpace (rev (dropWhile isWhiteSpace s)) = []).
    { destruct (dropWhile isWhiteSpace (rev (dropWhile isWhiteSpace s))) as [|a l];
        [reflexivity|].
      simpl in H; destruct (rev l); discriminate. }
    apply dropWhile_nil_iff in H1; rewrite forallb_rev in H1.
    destruct (dropWhile isWhiteSpace s) as [|c rest] eqn:E.
    + apply dropWhile_nil_iff; exact E.
    + apply dropWhile_head in E; simpl in H1; rewrite E in H1; discriminate.
  - intros H; apply dropWhile_nil_iff in H; rewrite H; reflexivity.
Qed.

Lemma greedy_total {R : Type} (p : char -> bool) (k : jstring -> option R) :
  (forall s, k s <> None) -> forall s, greedy p k s <> None.
Proof.
  intros Hk s; induction s as [|x xs IH]; simpl.
  - specialize (Hk []); destruct (k []); [discriminate|contradiction].
  - destruct (p x).
    + destruct (greedy p k xs) as [[m r]|]; [discriminate|contradiction].
    + specialize (Hk (x :: xs)); destruct (k (x :: xs)); [discriminate|contradiction].
Qed.

Lemma run_class_once (p : char -> bool) (s : jstring) :
  run [Cls p] s <> None <-> exists x xs, s = x :: xs /\ p x = true.
Proof.
  destruct s as [|x xs]; simpl.
  - split; [congruence|intros (? & ? & ? & _); discriminate].
  - destruct (p x) eqn:E.
    + split; [eauto|discriminate].
    + split; [congruence|intros (? & ? & H & H'); injection H as <- <-; congruence].
Qed.

Lemma run_plus_alone (p : char -> bool) (s : jstring) :
  run [Plus p] s <> None <-> exists x xs, s = x :: xs /\ p x = true.
Proof.
  destruct s as [|x xs]; simpl.
  - split; [congruence|intros (? & ? & ? & _); discriminate].
  - destruct (p x) eqn:E.
    + split; [eauto|intros _].
      assert (H : greedy p (fun s : jstring => Some (@nil jstring, s)) xs <> None)
        by (apply greedy_total; discriminate).
      destruct (greedy p _ xs) as [[m r]|]; [discriminate|contradiction].
    + split; [congruence|intros (? & ? & H & H'); injection H as <- <-; congruence].
Qed.

(** A pattern that matches at a position exactly when the character there
    is in [p] is found somewhere exactly when the text has such a character. *)
Lemma search_by_head (pat : pattern) (p : char -> bool) :
  (forall s, run pat s <> None <-> exists x xs, s = x :: xs /\ p x = true) ->
  forall s, search pat s <> None <-> exists c, In c s /\ p c = true.
Proof.
  intros Hrun s; induction s as [|x xs IH].
  - simpl. destruct (run pat []) as [[caps rest]|] eqn:E.
    + assert (H : run pat [] <> None) by congruence.
      apply Hrun in H; destruct H as (? & ? & ? & _); discriminate.
    + split; [congruence|intros (? & [] & _)].
  - simpl. destruct (run pat (x :: xs)) as [[caps rest]|] eqn:E.
    + split; [intros _|discriminate].
      assert (H : run pat (x :: xs) <> None) by congruence.
      apply Hrun in H; destruct H as (y & ys & H & Hp); injection H as <- <-.
      exists x; simpl; auto.
    + assert (Hx : p x = false).
      { destruct (p x) eqn:Ex; [|reflexivity].
        exfalso. assert (H : run pat (x :: xs) <> None) by (apply Hrun; eauto).
        congruence. }
      destruct (search pat xs) as [[[pre caps] rest]|] eqn:Es.
      * split; [intros _|discriminate].
        destruct IH as [IH _]. destruct IH as (c & Hc & Hp); [discriminate|].
        exists c; simpl; auto.
      * split; [congruence|].
        intros (c & [<-|Hc] & Hp); [congruence|].
        destruct IH as [_ IH]. exfalso; apply IH; eauto.
Qed.

Lemma test_operator (s : jstring) :
  test re_operator s = true <-> In equals s \/ In colon s.
Proof.
  unfold test, exec; simpl.
  pose proof (@search_by_head _ _ (@run_class_once (fun c => (c =? equals)%N || (c =? colon)%N)) s) as H.
  destruct (search _ s) eqn:E.
  - split; [intros _|reflexivity].
    destruct H as [H _]. destruct H as (c & Hc & Hp); [discriminate|].
    apply orb_true_iff in Hp; destruct Hp as [Hp|Hp]; apply N.eqb_eq in Hp; subst; auto.
  - split; [discriminate|].
    intros Hin; exfalso. destruct H as [_ H]; apply H; [|reflexivity].
    destruct Hin as [Hin|Hin]; [exists equals|exists colon]; split; auto.
Qed.

Lemma test_word (s : jstring) :
  test re_word s = true <-> exists c, In c s /\ isWordChar c = true.
Proof.
  unfold test, exec; simpl.
  pose proof (@search_by_head _ _ (@run_plus_alone isWordChar) s) as H.
  destruct (search _ s) eqn:E.
  - split; [intros _|reflexivity]. apply H; discriminate.
  - split; [discriminate|]. intros Hin; exfalso; apply H in Hin; congruence.
Qed.

Lemma filter_count (c : char) (s : jstring) :
  List.length (filter (fun x => (x =? c)%N) s) = count_occ N.eq_dec s c.
Proof.
  induction s as [|x s IH]; simpl; [reflexivity|].
  destruct (N.eq_dec x c) as [->|Hne].
  - rewrite N.eqb_refl; simpl; congruence.
  - apply N.eqb_neq in Hne; rewrite Hne; exact IH.
Qed.

(** The number of matches of the global one-character expression, [null]
    counting for none. *)
Lemma match_all_chr_count (c : char) (s : jstring) :
  List.length (match match_all_chr c s with Some l => l | None => [] end)
  = count_occ N.eq_dec s c.
Proof.
  unfold match_all_chr; rewrite <- filter_count.
  destruct (filter (fun x => (x =? c)%N) s); simpl; [reflexivity|].
  now rewrite length_map.
Qed.

Lemma mod2_Even (n : nat) : n mod 2 = 0 <-> Nat.Even n.
Proof.
  split.
  - intros H; exists (n / 2).
    pose proof (Nat.div_mod_eq n 2); lia.
  - intros [m ->]. rewrite Nat.mul_comm; apply Nat.Div0.mod_mul.
Qed.

(** ** C3: the validator *)

(** C3.  For every string [s], [validateQuery s] is true exactly when [s]
    is not empty after trimming whitespace, holds an even number of double
    quotes, as many opening as closing parentheses, and an equals sign, a
    colon or a word character.  In particular it is false on the empty
    string, on whitespace alone, and on any string whose quotes or
    parentheses do not balance.  As a function it is total and
    deterministic. *)
Theorem validateQuery_spec (s : jstring) :
  (validateQuery s = true <->
     trim s <> []
     /\ Nat.Even (count_occ N.eq_dec s dq)
     /\ count_occ N.eq_dec s lparen = count_occ N.eq_dec s rparen
     /\ (In equals s \/ In colon s \/ exists c, In c s /\ isWordChar c = true))
  /\ validateQuery [] = false
  /\ (forallb isWhiteSpace s = true -> validateQuery s = false)
  /\ (Nat.Odd (count_occ N.eq_dec s dq) -> validateQuery s = false)
  /\ (count_occ N.eq_dec s lparen <> count_occ N.eq_dec s rparen ->
      validateQuery s = false).
Proof.
  assert (Hiff : validateQuery s = true <->
     trim s <> []
     /\ Nat.Even (count_occ N.eq_dec s dq)
     /\ count_occ N.eq_dec s lparen = count_occ N.eq_dec s rparen
     /\ (In equals s \/ In colon s \/ exists c, In c s /\ isWordChar c = true)).
  { unfold validateQuery.
    assert (Hq : match match_all_chr dq s with
                 | Some qs => List.length qs mod 2 =? 0
                 | None => true
                 end = true <-> Nat.Even (count_occ N.eq_dec s dq)).
    { rewrite <- (match_all_chr_count dq s).
      destruct (match_all_chr dq s) as [qs|].
      - rewrite Nat.eqb_eq; apply mod2_Even.
      - split; [intros _; exists 0; reflexivity|reflexivity]. }
    rewrite <- Hq, <- (match_all_chr_count lparen s), <- (match_all_chr_count rparen s).
    destruct (trim s) as [|t ts] eqn:Et.
    - replace (_ || _) with true by (destruct s; reflexivity).
      split; [discriminate|intros [H _]; contradiction].
    - assert (Hs : s <> []) by (intros ->; discriminate).
      destruct s as [|x xs]; [contradiction|].
      cbv beta iota zeta. simpl (List.length (t :: ts) =? 0). simpl (false || false).
      cbv iota.
      rewrite !andb_true_iff, orb_true_iff, Nat.eqb_eq, test_operator, test_word.
      split.
      + intros [[Hsyn Hquo] Hpar].
        repeat split; try assumption; [discriminate|tauto].
      + intros (_ & Hquo & Hpar & Hsyn). repeat split; try assumption; tauto. }
  split; [exact Hiff|].
  split; [reflexivity|].
  split; [|split].
  - intros Hws. destruct (validateQuery s); [|reflexivity].
    destruct Hiff as [Hiff _]; destruct (Hiff eq_refl) as [E _].
    apply trim_nil_iff in Hws; contradiction.
  - intros Hodd. destruct (validateQuery s); [|reflexivity].
    destruct Hiff as [Hiff _]; destruct (Hiff eq_refl) as (_ & E & _).
    exfalso; exact (Nat.Even_Odd_False _ E Hodd).
  - intros Hne. destruct (validateQuery s); [|reflexivity].
    destruct Hiff as [Hiff _]; destruct (Hiff eq_refl) as (_ & _ & E & _).
    contradiction.
Qed.

(** ** [JSON.parse]: every successful step consumes input, and the fuel
    [fuel_for] is never used up *)

Module JSONFacts.
Import JSON.

Lemma dropWhile_length (p : char -> bool) (s t : jstring) :
  dropWhile p s = t -> List.length t <= List.length s.
Proof.
  revert t; induction s as [|c s IH]; intros t; simpl.
  - intros <-; simpl; lia.
  - destruct (p c).
    + intros H; apply IH in H; lia.
    + intros <-; simpl; lia.
Qed.

Lemma skip_ws_length (s t : jstring) :
  skip_ws s = t -> List.length t <= List.length s.
Proof. apply dropWhile_length. Qed.

Lemma read_digits_length (s : jstring) :
  forall acc k n k' rest,
    read_digits s acc k = (n, k', rest) ->
    List.length rest + k' = List.length s + k /\ k <= k'.
Proof.
  induction s as [|c s IH]; intros acc k n k' rest; simpl.
  - intros H; injection H as _ <- <-; simpl; lia.
  - destruct (isDigit c).
    + intros H; apply IH in H; lia.
    + intros H; injection H as _ <- <-; simpl; lia.
Qed.

Lemma parse_int_length (s : jstring) n rest :
  parse_int s = Some (n, rest) -> List.length rest < List.length s.
Proof.
  destruct s as [|c r]; simpl; [discriminate|].
  destruct (c =? 48)%N.
  - intros H; injection H as _ <-; lia.
  - destruct (isDigit c); [|discriminate].
    destruct (read_digits r _ 1) as [[m k] t] eqn:E.
    intros H; injection H as _ <-.
    apply read_digits_length in E; lia.
Qed.

Lemma parse_frac_length (m : N) (s : jstring) m' k rest :
  parse_frac m s = Some (m', k, rest) -> List.length rest <= List.length s.
Proof.
  destruct s as [|c r]; simpl.
  - intros H; injection H as _ _ <-; simpl; lia.
  - destruct (c =? 46)%N.
    + destruct (read_digits r m 0) as [[a [|j]] t] eqn:E; [discriminate|].
      intros H; injection H as _ _ <-.
      apply read_digits_length in E; lia.
    + intros H; injection H as _ _ <-; simpl; lia.
Qed.

Lemma parse_exp_length (s : jstring) e rest :
  parse_exp s = Some (e, rest) -> List.length rest <= List.length s.
Proof.
  destruct s as [|c r]; simpl.
  - intros H; injection H as _ <-; simpl; lia.
  - destruct ((c =? 101) || (c =? 69))%N.
    + destruct r as [|sg r1].
      * simpl; discriminate.
      * destruct (sg =? 45)%N; [|destruct (sg =? 43)%N].
        all: match goal with
             | |- context [read_digits ?a ?b ?c] =>
                 destruct (read_digits a b c) as [[a' [|j]] t] eqn:E
             end; try discriminate.
        all: intros H; injection H as _ <-;
             apply read_digits_length in E; simpl in *; lia.
    + intros H; injection H as _ <-; simpl; lia.
Qed.

Lemma parse_number_length (s : jstring) n rest :
  parse_number s = Some (n, rest) -> List.length rest < List.length s.
Proof.
  unfold parse_number.
  set (sign := match s with
               | c :: r => if (c =? 45)%N then (true, r) else (false, s)
               | [] => (false, s)
               end).
  assert (Hs : List.length (snd sign) <= List.length s).
  { subst sign; destruct s as [|c r]; simpl; [lia|].
    destruct (c =? 45)%N; simpl; lia. }
  destruct sign as [neg s1]; simpl in Hs.
  destruct (parse_int s1) as [[i s2]|] eqn:Ei; [|discriminate].
  destruct (parse_frac i s2) as [[[m k] s3]|] eqn:Ef; [|discriminate].
  destruct (parse_exp s3) as [[e s4]|] eqn:Ee; [|discriminate].
  intros H; injection H as _ <-.
  apply parse_int_length in Ei; apply parse_frac_length in Ef;
    apply parse_exp_length in Ee; lia.
Qed.

Lemma parse_string_body_length_le (n : nat) :
  forall s body rest,
    List.length s <= n ->
    parse_string_body s = Some (body, rest) ->
    List.length rest < List.length s.
Proof.
  induction n as [|n IH]; intros s body rest Hn.
  - destruct s; [simpl; discriminate|simpl in Hn; lia].
  - destruct s as [|c r]; [simpl; discriminate|].
    simpl in Hn. simpl parse_string_body.
    destruct (c =? dq)%N.
    { intros H; injection H as _ <-; simpl; lia. }
    destruct (c =? bslash)%N.
    + destruct r as [|e r1]; [discriminate|].
      simpl in Hn.
      assert (Hsimple : forall d : char,
                 match parse_string_body r1 with
                 | Some (b, t) => Some (d :: b, t)
                 | None => None
                 end = Some (body, rest) ->
                 List.length rest < List.length (c :: e :: r1)).
      { intros d. destruct (parse_string_body r1) as [[b t]|] eqn:E; [|discriminate].
        intros H; injection H as _ <-.
        apply IH in E; [simpl; lia|lia]. }
      repeat match goal with
             | |- context [if ?b then _ else _] =>
                 destruct b; [solve [apply Hsimple]|]
             end.
      destruct (e =? 117)%N; [|discriminate].
      destruct r1 as [|h1 [|h2 [|h3 [|h4 r2]]]]; try discriminate.
      destruct (hexval h1), (hexval h2), (hexval h3), (hexval h4); try discriminate.
      destruct (parse_string_body r2) as [[b t]|] eqn:E; [|discriminate].
      intros H; injection H as _ <-.
      apply IH in E; simpl in *; lia.
    + destruct (c <? 32)%N; [discriminate|].
      destruct (parse_string_body r) as [[b t]|] eqn:E; [|discriminate].
      intros H; injection H as _ <-.
      apply IH in E; simpl; lia.
Qed.

Lemma parse_string_body_length (s : jstring) body rest :
  parse_string_body s = Some (body, rest) -> List.length rest < List.length s.
Proof. apply (@parse_string_body_length_le (List.length s)); lia. Qed.

Lemma startsWith_length (s p : jstring) :
  startsWith s p = true -> List.length p <= List.length s.
Proof.
  revert s; induction p as [|x p IH]; intros s; simpl; [lia|].
  destruct s as [|c s]; [discriminate|].
  intros H; apply andb_true_iff in H; destruct H as [_ H].
  apply IH in H; simpl; lia.
Qed.

Lemma parse_literal_length (name : jstring) (v : value) (s : jstring) w rest :
  name <> [] ->
  parse_literal name v s = POk w rest -> List.length rest < List.length s.
Proof.
  intros Hname; unfold parse_literal.
  destruct (startsWith s name) eqn:E; [|discriminate].
  intros H; injection H as _ <-.
  apply startsWith_length in E. rewrite length_skipn.
  destruct name; [contradiction|simpl in *; lia].
Qed.

Ltac step H :=
  match type of H with
  | (match ?x with _ => _ end) = _ =>
      let E := fresh "E" in destruct x eqn:E; try discriminate H
  end.

Ltac lens :=
  repeat match goal with
    | E : skip_ws _ = _ |- _ => apply skip_ws_length in E
    | E : parse_string_body _ = Some _ |- _ => apply parse_string_body_length in E
    | E : parse_number _ = Some _ |- _ => apply parse_number_length in E
    | E : parse_literal _ _ _ = POk _ _ |- _ =>
        apply parse_literal_length in E; [|discriminate]
    end.

Arguments parse_literal : simpl never.
Arguments parse_number : simpl never.
Arguments parse_string_body : simpl never.
Arguments skip_ws : simpl never.

(** A value that parses leaves less text than it was given. *)
Lemma parse_progress (fuel : nat) :
  (forall s v rest,
      parse_value fuel s = POk v rest -> List.length rest < List.length s)
  /\ (forall s acc v rest,
        parse_elements fuel s acc = POk v rest -> List.length rest < List.length s)
  /\ (forall s acc v rest,
        parse_members fuel s acc = POk v rest -> List.length rest < List.length s).
Proof.
  induction fuel as [|f (IHv & IHe & IHm)].
  - repeat split; intros; discriminate.
  - repeat split.
    + intros s v rest H; simpl in H.
      repeat step H;
        first [ injection H as _ <-
              | apply IHm in H
              | apply IHe in H
              | idtac ];
        lens; simpl in *; lia.
    + intros s acc v rest H; simpl in H.
      repeat step H;
        first [ injection H as _ <- | apply IHe in H | idtac ];
        repeat match goal with
               | E : parse_value f _ = POk _ _ |- _ => apply IHv in E
               end;
        lens; simpl in *; lia.
    + intros s acc v rest H; simpl in H.
      repeat step H;
        first [ injection H as _ <- | apply IHm in H | idtac ];
        repeat match goal with
               | E : parse_value f _ = POk _ _ |- _ => apply IHv in E
               end;
        lens; simpl in *; lia.
Qed.

(** With fuel above twice the length of the text the parser never stops
    for lack of fuel. *)
Lemma parse_fuel (fuel : nat) :
  (forall s, 2 * List.length s + 1 <= fuel -> parse_value fuel s <> PFuel)
  /\ (forall s acc,
        2 * List.length s + 2 <= fuel -> parse_elements fuel s acc <> PFuel)
  /\ (forall s acc,
        2 * List.length s + 2 <= fuel -> parse_members fuel s acc <> PFuel).
Proof.
  induction fuel as [|f (IHv & IHe & IHm)].
  - repeat split; intros; lia.
  - repeat split.
    + intros s Hf H; simpl in H.
      repeat step H.
      * eapply IHm; [|exact H]. lens; simpl in *; lia.
      * eapply IHe; [|exact H]. lens; simpl in *; lia.
      * unfold parse_literal in H; step H.
      * unfold parse_literal in H; step H.
      * unfold parse_literal in H; step H.
    + intros s acc Hf H; simpl in H.
      repeat step H;
        repeat match goal with
               | E : parse_value f _ = POk _ _ |- _ =>
                   apply (proj1 (parse_progress f)) in E
               end.
      * eapply IHe; [|exact H]. lens; simpl in *; lia.
      * eapply IHv; [|eassumption]. lia.
    + intros s acc Hf H; simpl in H.
      repeat step H;
        repeat match goal with
               | E : parse_value f _ = POk _ _ |- _ =>
                   apply (proj1 (parse_progress f)) in E
               end.
      * eapply IHm; [|exact H]. lens; simpl in *; lia.
      * eapply IHv; [|eassumption]. lens; simpl in *; lia.
Qed.

Lemma parse_value_fuel (s : jstring) : parse_value (fuel_for s) s <> PFuel.
Proof. apply (proj1 (parse_fuel (fuel_for s))); unfold fuel_for; lia. Qed.

End JSONFacts.

(** ** What the matcher captures *)

Lemma infix_refl (a : jstring) : infix a a.
Proof. exists [], []; simpl; now rewrite app_nil_r. Qed.

Lemma infix_app_l (a b pre : jstring) : infix a b -> infix a (pre ++ b).
Proof. intros (l & r & ->); exists (pre ++ l), r; now rewrite app_assoc. Qed.

Lemma infix_app_r (a b post : jstring) : infix a b -> infix a (b ++ post).
Proof.
  intros (l & r & ->); exists l, (r ++ post); now rewrite <- !app_assoc.
Qed.

Lemma infix_cons (a b : jstring) (x : char) : infix a b -> infix a (x :: b).
Proof. apply (@infix_app_l a b [x]). Qed.

Lemma infix_trans (a b c : jstring) : infix a b -> infix b c -> infix a c.
Proof.
  intros (l & r & ->) (l' & r' & ->).
  exists (l' ++ l), (r ++ r'); now rewrite <- !app_assoc.
Qed.

Lemma greedy_sound {R : Type} (p : char -> bool) (k : jstring -> option R) :
  forall s m r,
    greedy p k s = Some (m, r) ->
    forallb p m = true /\ exists t, s = m ++ t /\ k t = Some r.
Proof.
  induction s as [|x xs IH]; intros m r; simpl.
  - destruct (k []) as [r0|] eqn:E; simpl; [|discriminate].
    intros H; injection H as <- <-; split; [reflexivity|exists []; auto].
  - assert (Hstop : option_map (pair []) (k (x :: xs)) = Some (m, r) ->
                    forallb p m = true /\ exists t, x :: xs = m ++ t /\ k t = Some r).
    { destruct (k (x :: xs)) as [r0|] eqn:E; simpl; [|discriminate].
      intros H; injection H as <- <-; split; [reflexivity|exists (x :: xs); auto]. }
    destruct (p x) eqn:Ep; [|exact Hstop].
    destruct (greedy p k xs) as [[m' r']|] eqn:Eg; [|exact Hstop].
    intros H; injection H as <- <-.
    destruct (IH _ _ eq_refl) as (Hall & t & -> & Hk).
    split; [simpl; now rewrite Ep|exists t; auto].
Qed.

(** A maximal run is what the greedy repetition takes when the
    continuation accepts what follows it. *)
Lemma greedy_maximal {R : Type} (p : char -> bool) (k : jstring -> option R) :
  forall m t r,
    forallb p m = true -> k t = Some r ->
    (forall m' r', greedy p k t = Some (m', r') -> m' = []) ->
    greedy p k (m ++ t) = Some (m, r).
Proof.
  induction m as [|x m IH]; intros t r Hall Hk Hmax.
  - simpl. destruct (greedy p k t) as [[m' r']|] eqn:E.
    + pose proof (Hmax _ _ eq_refl) as ->.
      destruct (greedy_sound _ _ _ E) as (_ & t' & Ht & Hk').
      simpl in Ht; subst t'.
      rewrite Hk in Hk'; injection Hk' as ->; reflexivity.
    + exfalso. destruct t as [|y t]; simpl in E.
      * rewrite Hk in E; discriminate.
      * destruct (p y); [destruct (greedy p k t) as [[? ?]|]|];
          try discriminate; rewrite Hk in E; discriminate.
  - simpl in Hall; apply andb_true_iff in Hall; destruct Hall as [Hx Hall].
    simpl; rewrite Hx, (IH t r Hall Hk Hmax); reflexivity.
Qed.

Lemma greedy_stops {R : Type} (p : char -> bool) (k : jstring -> option R)
      (x : char) (t : jstring) :
  p x = false ->
  forall m' r', greedy p k (x :: t) = Some (m', r') -> m' = [].
Proof.
  intros Hx m' r'; simpl; rewrite Hx.
  destruct (k (x :: t)); simpl; [|discriminate].
  intros H; now injection H as <- _.
Qed.

Lemma run_sound (pat : pattern) :
  forall s caps rest,
    run pat s = Some (caps, rest) ->
    exists consumed,
      s = consumed ++ rest
      /\ Forall (fun cap => infix cap consumed) caps
      /\ Forall2 (fun p cap => cap <> [] /\ forallb p cap = true)
                 (cap_classes pat) caps.
Proof.
  induction pat as [|it k IH]; intros s caps rest.
  - simpl; intros H; injection H as <- <-.
    exists []; repeat split; constructor.
  - assert (Hone : forall x xs, s = x :: xs -> run k xs = Some (caps, rest) ->
              cap_classes (it :: k) = cap_classes k ->
              exists consumed,
                s = consumed ++ rest
                /\ Forall (fun cap => infix cap consumed) caps
                /\ Forall2 (fun p cap => cap <> [] /\ forallb p cap = true)
                           (cap_classes (it :: k)) caps).
    { intros x xs -> Hk ->.
      destruct (IH _ _ _ Hk) as (c & -> & Hin & Hcl).
      exists (x :: c); repeat split; [|exact Hcl].
      eapply Forall_impl; [|exact Hin]. intros a; apply infix_cons. }
    destruct it as [c|p|p|p|p|]; simpl run.
    + destruct s as [|x xs]; [discriminate|].
      destruct (x =? c)%N; [|discriminate]. intros H; eapply Hone; eauto.
    + destruct s as [|x xs]; [discriminate|].
      destruct (p x); [|discriminate]. intros H; eapply Hone; eauto.
    + destruct (greedy p (run k) s) as [[m [caps' rest']]|] eqn:E; [|discriminate].
      simpl; intros H; injection H as <- <-.
      destruct (greedy_sound _ _ _ E) as (_ & t & -> & Hk).
      destruct (IH _ _ _ Hk) as (c & -> & Hin & Hcl).
      exists (m ++ c); repeat split; [now rewrite app_assoc| |exact Hcl].
      eapply Forall_impl; [|exact Hin]. intros a; apply infix_app_l.
    + destruct (greedy p (run k) s) as [[[|x m] [caps' rest']]|] eqn:E; try discriminate.
      intros H; injection H as <- <-.
      destruct (greedy_sound _ _ _ E) as (_ & t & -> & Hk).
      destruct (IH _ _ _ Hk) as (c & -> & Hin & Hcl).
      exists ((x :: m) ++ c); repeat split; [now rewrite app_assoc| |exact Hcl].
      eapply Forall_impl; [|exact Hin]. intros a; apply infix_app_l.
    + destruct (greedy p (run k) s) as [[[|x m] [caps' rest']]|] eqn:E; try discriminate.
      intros H; injection H as <- <-.
      destruct (greedy_sound _ _ _ E) as (Hall & t & -> & Hk).
      destruct (IH _ _ _ Hk) as (c & -> & Hin & Hcl).
      exists ((x :: m) ++ c); repeat split; [now rewrite app_assoc| |].
      * constructor.
        -- apply infix_app_r, infix_refl.
        -- eapply Forall_impl; [|exact Hin]. intros a; apply infix_app_l.
      * simpl; constructor; [split; [discriminate|exact Hall]|exact Hcl].
    + destruct s as [|x xs]; [|discriminate].
      intros H. destruct (IH _ _ _ H) as (c & Hc & Hin & Hcl).
      exists c; repeat split; assumption.
Qed.

Lemma search_sound (pat : pattern) :
  forall s pre caps rest,
    search pat s = Some (pre, caps, rest) ->
    exists consumed,
      s = pre ++ consumed ++ rest
      /\ run pat (consumed ++ rest) = Some (caps, rest)
      /\ Forall (fun cap => infix cap s) caps
      /\ Forall2 (fun p cap => cap <> [] /\ forallb p cap = true)
                 (cap_classes pat) caps.
Proof.
  induction s as [|x xs IH]; intros pre caps rest; simpl.
  - destruct (run pat []) as [[caps' rest']|] eqn:E; [|discriminate].
    intros H; injection H as <- <- <-.
    destruct (run_sound _ _ E) as (c & Hc & Hin & Hcl).
    exists c; simpl; rewrite <- Hc; repeat split; try assumption.
    eapply Forall_impl; [|exact Hin].
    intros a Ha; rewrite Hc; now apply infix_app_r.
  - destruct (run pat (x :: xs)) as [[caps' rest']|] eqn:E.
    + intros H; injection H as <- <- <-.
      destruct (run_sound _ _ E) as (c & Hc & Hin & Hcl).
      exists c; simpl; rewrite <- Hc; repeat split; try assumption.
      eapply Forall_impl; [|exact Hin].
      intros a Ha; rewrite Hc; now apply infix_app_r.
    + destruct (search pat xs) as [[[pre' caps'] rest']|] eqn:Es; [|discriminate].
      intros H; injection H as <- <- <-.
      destruct (IH _ _ _ eq_refl) as (c & Hc & Hrun & Hin & Hcl).
      exists c; repeat split; try assumption.
      * simpl; now rewrite <- Hc.
      * eapply Forall_impl; [|exact Hin]. intros a; apply infix_cons.
Qed.

Lemma cap_classes_lits (s : jstring) (k : pattern) :
  cap_classes (lits s ++ k) = cap_classes k.
Proof. induction s as [|c s IH]; simpl; [reflexivity|exact IH]. Qed.

Lemma notQuote_forallb (s : jstring) : forallb notQuote s = true <-> ~ In dq s.
Proof.
  induction s as [|c s IH]; simpl.
  - tauto.
  - rewrite andb_true_iff, IH. unfold notQuote at 1.
    rewrite negb_true_iff, N.eqb_neq. intuition congruence.
Qed.

(** A match of one of the scraping expressions of the source yields one
    group: a non-empty piece of the text without a double quote. *)
Lemma scrape_match (r : regex) (text : jstring) (caps : list jstring) :
  anchored r = false ->
  cap_classes (body r) = [notQuote] ->
  match_ r text = Some caps ->
  scraped text (group1 caps).
Proof.
  unfold match_, exec; intros -> Hcl.
  destruct (search (body r) text) as [[[pre caps'] rest]|] eqn:E; [|discriminate].
  intros H; injection H as <-.
  destruct (search_sound _ _ E) as (c & _ & _ & Hin & Hcls).
  rewrite Hcl in Hcls.
  inversion Hcls as [|p g ps gs [Hne Hall] Hrest]; subst.
  inversion Hrest; subst.
  exists g; simpl; repeat split; try assumption.
  - now apply notQuote_forallb.
  - now inversion Hin.
Qed.

Lemma re_pair_classes (key : jstring) :
  cap_classes (body (re_pair key)) = [notQuote].
Proof. unfold re_pair; cbn [body]; now rewrite cap_classes_lits. Qed.

(** ** The recovery from the text *)

Lemma split_head_prefix (sep : char) (text : jstring) :
  exists piece pieces r, split sep text = piece :: pieces /\ text = piece ++ r.
Proof.
  induction text as [|c rest (piece & pieces & r & Hs & Hr)]; simpl.
  - exists [], [], []; auto.
  - destruct (c =? sep)%N.
    + exists [], (split sep rest), (c :: rest); auto.
    + rewrite Hs. exists (c :: piece), pieces, r; split; [reflexivity|].
      simpl; now rewrite <- Hr.
Qed.

Lemma split_infix (sep : char) (text line : jstring) :
  In line (split sep text) -> infix line text.
Proof.
  revert line; induction text as [|c rest IH]; intros line; simpl.
  - intros [<-|[]]; apply infix_refl.
  - destruct (c =? sep)%N.
    + intros [<-|H]; [exists [], (c :: rest); reflexivity|].
      apply infix_cons, IH, H.
    + destruct (split_head_prefix sep rest) as (piece & pieces & r & Hs & Hr).
      rewrite Hs in *.
      intros [<-|H].
      * exists [], r; simpl; now rewrite <- Hr.
      * apply infix_cons, IH; right; exact H.
Qed.

Lemma scraped_mono (a b : jstring) (v : value) :
  infix a b -> scraped a v -> scraped b v.
Proof.
  intros Hab (s & -> & Hne & Hq & Hin).
  exists s; repeat split; try assumption. eapply infix_trans; eassumption.
Qed.

Lemma scraped_truthy (text : jstring) (v : value) : scraped text v -> truthy v = true.
Proof. intros (s & -> & Hne & _); destruct s; [contradiction|reflexivity]. Qed.

Lemma line_value_scraped (line : jstring) (caps : list jstring) :
  match_ re_line_value line = Some caps -> scraped line (group1 caps).
Proof. apply scrape_match; reflexivity. Qed.

Lemma pair_scraped (key text : jstring) (caps : list jstring) :
  match_ (re_pair key) text = Some caps -> scraped text (group1 caps).
Proof. apply scrape_match; [reflexivity|apply re_pair_classes]. Qed.

Lemma scanLine_inv (text line : jstring) (vars : value * value) :
  infix line text -> scan_inv text vars -> scan_inv text (scanLine vars line).
Proof.
  intros Hline [Hq He]; destruct vars as [fq ex]; unfold scanLine; simpl in *.
  split; simpl.
  - destruct (includes line (str "fofa_query") && includes line [colon]); [|exact Hq].
    destruct (match_ re_line_value line) as [caps|] eqn:E; [|exact Hq].
    right; eapply scraped_mono; [exact Hline|]. now apply line_value_scraped.
  - destruct (includes line (str "explanation") && includes line [colon]); [|exact He].
    destruct (match_ re_line_value line) as [caps|] eqn:E; [|exact He].
    right; eapply scraped_mono; [exact Hline|]. now apply line_value_scraped.
Qed.

Lemma scan_lines_inv (text : jstring) (lines : list jstring) :
  forall vars,
    (forall line, In line lines -> infix line text) ->
    scan_inv text vars -> scan_inv text (fold_left scanLine lines vars).
Proof.
  induction lines as [|l lines IH]; intros vars Hin Hinv; simpl; [exact Hinv|].
  apply IH.
  - intros line H; apply Hin; now right.
  - apply scanLine_inv; [apply Hin; now left|exact Hinv].
Qed.

Lemma msg_from_text_plain :
  msg_from_text <> [] /\ ~ In dq msg_from_text.
Proof.
  split; [discriminate|].
  apply notQuote_forallb; reflexivity.
Qed.

(** [extractFromText] always returns; its query is [null] or scraped from
    the text, its explanation is scraped from the text or the stock one. *)
Lemma extractFromText_spec (text : jstring) :
  exists r,
    extractFromText text = Ret r
    /\ (fofa_query r = VNull \/ scraped text (fofa_query r))
    /\ (explanation r = VString msg_from_text \/ scraped text (explanation r)).
Proof.
  unfold extractFromText, try_catch.
  destruct (match_ (re_pair (str "fofa_query")) text) as [qcaps|] eqn:Eq.
  - destruct (match_ (re_pair (str "explanation")) text) as [ecaps|] eqn:Ee.
    + eexists; split; [reflexivity|]; simpl; split; right;
        eapply pair_scraped; eassumption.
    + pose proof (@scan_lines_inv text (split newline text) (VNull, VString [])
                    (@split_infix newline text)) as H.
      destruct (fold_left scanLine (split newline text) (VNull, VString []))
        as [fq ex].
      destruct H as [Hq He]; [split; left; reflexivity|]; simpl in Hq, He.
      eexists; split; [reflexivity|]; simpl; split; [exact Hq|].
      destruct He as [->|He]; [left; reflexivity|].
      rewrite (scraped_truthy He); right; exact He.
  - pose proof (@scan_lines_inv text (split newline text) (VNull, VString [])
                  (@split_infix newline text)) as H.
    destruct (fold_left scanLine (split newline text) (VNull, VString []))
      as [fq ex].
    destruct H as [Hq He]; [split; left; reflexivity|]; simpl in Hq, He.
    eexists; split; [reflexivity|]; simpl; split; [exact Hq|].
    destruct He as [->|He]; [left; reflexivity|].
    rewrite (scraped_truthy He); right; exact He.
Qed.

(** The [catch] block returns what was recovered when it holds a query,
    and the parse-failure result otherwise. *)
Lemma recover_spec (content : jstring) :
  exists r,
    recover content = Ret r
    /\ ((extractFromText content = Ret r /\ scraped content (fofa_query r))
        \/ (r = parseFailure
            /\ exists r', extractFromText content = Ret r' /\ fofa_query r' = VNull)).
Proof.
  unfold recover.
  destruct (extractFromText_spec content) as (r & Hr & [Hq|Hq] & _); rewrite Hr; simpl.
  - rewrite Hq; simpl. eexists; split; [reflexivity|right].
    split; [reflexivity|eauto].
  - rewrite (scraped_truthy Hq). eexists; split; [reflexivity|left]; auto.
Qed.

(** ** The extraction as a whole *)

Lemma strictParse_cases (engine : Engine) (content : jstring) :
  match JSON.parse (cleanContent content) with
  | None => exists e, strictParse engine content = Throw e
  | Some VNull => exists e, strictParse engine content = Throw e
  | Some VUndefined => exists e, strictParse engine content = Throw e
  | Some (VObject props) =>
      strictParse engine content =
        Ret {| fofa_query := lookup (str "fofa_query") props;
               explanation := lookup (str "explanation") props |}
  | Some _ =>
      strictParse engine content =
        Ret {| fofa_query := VUndefined; explanation := VUndefined |}
  end.
Proof.
  unfold strictParse, JSON_parse.
  destruct (JSON.parse (cleanContent content)) as [[| |b|n|s|items|props]|];
    simpl; eauto.
Qed.

(** The extraction returns, whatever the text: either the strict parse
    gave the result, or it threw and the result is what the recovery
    scraped from the text, or the parse-failure result. *)
Lemma extract_cases (engine : Engine) (content : jstring) :
  exists r,
    extract engine content = Ret r
    /\ (strictParse engine content = Ret r
        \/ (exists e, strictParse engine content = Throw e)
           /\ ((extractFromText content = Ret r /\ scraped content (fofa_query r))
               \/ r = parseFailure)).
Proof.
  unfold extract, try_catch.
  destruct (strictParse engine content) as [r|e] eqn:E.
  - exists r; auto.
  - destruct (recover_spec content) as (r & Hr & Hcase).
    exists r; split; [exact Hr|right]. split; [eauto|].
    destruct Hcase as [H|[H _]]; auto.
Qed.

(** ** C4: the extraction is total *)

(** C4, as stated, fails in its last part: a parse failure does not always
    end in an absent query.  On the text
    [{"fofa_query": 01, "explanation": "x"}], which is no JSON, the line
    scan of the recovery takes the quoted value after the second colon for
    both members, and the extraction returns the query "x". *)
Lemma parse_failure_may_recover :
  JSON.parse (cleanContent malformed_number_text) = None
  /\ extract sample_engine malformed_number_text
     = Ret {| fofa_query := VString (str "x"); explanation := VString (str "x") |}
  /\ present (VString (str "x")).
Proof.
  split; [vm_compute; reflexivity|].
  split; [vm_compute; reflexivity|].
  intros [H|H]; discriminate H.
Qed.

(** C4, amended.  For every text of a completion the extraction returns a
    result and throws nothing, and [JSON.parse] inside it ends within its
    fuel.  When the cleaned text parses to an object, the result is its two
    members; when it parses to another value than [null], both members are
    [undefined].  When it does not parse (or parses to [null], which has
    no member to read), the result is what the recovery scraped from the
    text if that holds a query, and only otherwise the fallback result:
    the query [null], the explanation the stock message [msg_unparsable]. *)
Theorem extract_total (engine : Engine) (content : jstring) :
  JSON.parse_value (JSON.fuel_for (cleanContent content)) (cleanContent content)
    <> JSON.PFuel
  /\ exists r,
      extract engine content = Ret r
      /\ (strictParse engine content = Ret r
          \/ (exists e, strictParse engine content = Throw e)
             /\ ((extractFromText content = Ret r
                  /\ truthy (fofa_query r) = true)
                 \/ r = {| fofa_query := VNull;
                           explanation := VString msg_unparsable |}))
      /\ match JSON.parse (cleanContent content) with
         | Some (VObject props) =>
             r = {| fofa_query := lookup (str "fofa_query") props;
                    explanation := lookup (str "explanation") props |}
         | None | Some VNull | Some VUndefined =>
             (extractFromText content = Ret r /\ truthy (fofa_query r) = true)
             \/ (r = {| fofa_query := VNull;
                        explanation := VString msg_unparsable |}
                 /\ exists r', extractFromText content = Ret r'
                               /\ fofa_query r' = VNull)
         | Some _ => r = {| fofa_query := VUndefined; explanation := VUndefined |}
         end.
Proof.
  split; [apply JSONFacts.parse_value_fuel|].
  destruct (extract_cases engine content) as (r & Hr & Hcase).
  exists r; split; [exact Hr|]. split.
  - destruct Hcase as [H|[He [[H Hq]|H]]]; auto.
    right; split; [exact He|left]; split; [exact H|].
    eapply scraped_truthy; exact Hq.
  - pose proof (strictParse_cases engine content) as Hs.
    assert (Hfail : (exists e, strictParse engine content = Throw e) ->
              (extractFromText content = Ret r /\ truthy (fofa_query r) = true)
              \/ (r = {| fofa_query := VNull;
                         explanation := VString msg_unparsable |}
                  /\ exists r', extractFromText content = Ret r'
                                /\ fofa_query r' = VNull)).
    { intros [e He]. unfold extract, try_catch in Hr. rewrite He in Hr.
      destruct (recover_spec content) as (r1 & Hr1 & Hc).
      rewrite Hr in Hr1; injection Hr1 as <-.
      destruct Hc as [[H Hq]|[H Hn]].
      - left; split; [exact H|eapply scraped_truthy; exact Hq].
      - right; split; [exact H|exact Hn]. }
    assert (Hok : forall r0, strictParse engine content = Ret r0 -> r = r0).
    { intros r0 H0. unfold extract, try_catch in Hr. rewrite H0 in Hr.
      now injection Hr. }
    destruct (JSON.parse (cleanContent content)) as [[| |b|n|s|items|props]|];
      auto.
Qed.

(** ** C6: the null decision of the model passes through *)

(** C6.  When the cleaned text parses as the object with [fofa_query]
    [null] and [explanation] "too vague", the extraction returns the query
    [null] with that explanation, which differs from the result of a parse
    failure, whose explanation is the stock message. *)
Theorem null_query_passthrough (engine : Engine) (content : jstring) :
  JSON.parse (cleanContent content)
  = Some (VObject [(str "fofa_query", VNull);
                   (str "explanation", VString (str "too vague"))]) ->
  extract engine content
  = Ret {| fofa_query := VNull; explanation := VString (str "too vague") |}
  /\ {| fofa_query := VNull; explanation := VString (str "too vague") |}
     <> parseFailure
  /\ VString (str "too vague") <> explanation parseFailure.
Proof.
  intros Hparse.
  pose proof (strictParse_cases engine content) as H; rewrite Hparse in H.
  unfold extract; rewrite H; simpl.
  repeat split; discriminate.
Qed.

(** C6 on the text of the scenario. *)
Lemma null_query_passthrough_witness :
  JSON.parse (cleanContent null_decision_text)
  = Some (VObject [(str "fofa_query", VNull);
                   (str "explanation", VString (str "too vague"))])
  /\ extract sample_engine null_decision_text
     = Ret {| fofa_query := VNull; explanation := VString (str "too vague") |}.
Proof.
  split; [vm_compute; reflexivity|].
  apply (null_query_passthrough sample_engine null_decision_text).
  vm_compute; reflexivity.
Defined.

(** ** Matching at a known place *)

Lemma run_lits (a : jstring) (k : pattern) (s : jstring) :
  run (lits a ++ k) (a ++ s) = run k s.
Proof.
  induction a as [|c a IH]; simpl; [reflexivity|].
  now rewrite N.eqb_refl.
Qed.

Lemma run_star (p : char -> bool) (k : pattern) (m : jstring) (x : char)
      (t : jstring) r :
  forallb p m = true -> p x = false ->
  run k (x :: t) = Some r ->
  run (Star p :: k) (m ++ x :: t) = Some r.
Proof.
  intros Hm Hx Hk; simpl run.
  rewrite (@greedy_maximal _ p (run k) m (x :: t) r Hm Hk (@greedy_stops _ p (run k) x t Hx)).
  reflexivity.
Qed.

Lemma run_capplus (p : char -> bool) (k : pattern) (m : jstring) (x : char)
      (t : jstring) caps rest :
  m <> [] -> forallb p m = true -> p x = false ->
  run k (x :: t) = Some (caps, rest) ->
  run (CapPlus p :: k) (m ++ x :: t) = Some (m :: caps, rest).
Proof.
  intros Hne Hm Hx Hk; simpl run.
  rewrite (@greedy_maximal _ p (run k) m (x :: t) _ Hm Hk (@greedy_stops _ p (run k) x t Hx)).
  destruct m; [contradiction|reflexivity].
Qed.

Lemma search_at_head (pat : pattern) (s : jstring) caps rest :
  run pat s = Some (caps, rest) -> search pat s = Some ([], caps, rest).
Proof. intros H; destruct s; simpl; now rewrite H. Qed.

(** An expression that begins with a literal character does not match
    inside a text without that character. *)
Lemma search_skip (a : char) (k : pattern) (pre s : jstring) caps rest :
  ~ In a pre ->
  run (Chr a :: k) s = Some (caps, rest) ->
  search (Chr a :: k) (pre ++ s) = Some (pre, caps, rest).
Proof.
  intros Hpre Hrun; induction pre as [|x pre IH].
  - now apply search_at_head.
  - assert (Hx : (x =? a)%N = false)
      by (apply N.eqb_neq; intros ->; apply Hpre; now left).
    simpl app. change (search (Chr a :: k) (x :: pre ++ s))
      with (match run (Chr a :: k) (x :: pre ++ s) with
            | Some (caps, rest) => Some ([], caps, rest)
            | None =>
                match search (Chr a :: k) (pre ++ s) with
                | Some (pre', caps, rest) => Some (x :: pre', caps, rest)
                | None => None
                end
            end).
    simpl run; rewrite Hx, IH; [reflexivity|].
    intros H; apply Hpre; now right.
Qed.

(** After the colon, optional whitespace and the opening quote, the group
    takes the text up to the next double quote: a value with an escaped
    quote is cut after the backslash. *)
Lemma run_value_cut (sp v w : jstring) :
  forallb isWhiteSpace sp = true -> ~ In dq v ->
  run [Chr colon; Star isWhiteSpace; Chr dq; CapPlus notQuote; Chr dq]
      ([colon] ++ sp ++ [dq] ++ v ++ [bslash; dq] ++ w)
  = Some ([v ++ [bslash]], w).
Proof.
  intros Hsp Hv.
  change (run (lits [colon] ++ [Star isWhiteSpace; Chr dq; CapPlus notQuote; Chr dq])
              ([colon] ++ sp ++ [dq] ++ v ++ [bslash; dq] ++ w)
          = Some ([v ++ [bslash]], w)).
  rewrite run_lits.
  apply run_star; [exact Hsp|reflexivity|].
  change (run (lits [dq] ++ [CapPlus notQuote; Chr dq])
              ([dq] ++ v ++ [bslash; dq] ++ w) = Some ([v ++ [bslash]], w)).
  rewrite run_lits.
  replace (v ++ [bslash; dq] ++ w) with ((v ++ [bslash]) ++ dq :: w)
    by (now rewrite <- app_assoc).
  apply run_capplus.
  - destruct v; discriminate.
  - rewrite forallb_app; apply andb_true_iff; split;
      [now apply notQuote_forallb|reflexivity].
  - reflexivity.
  - reflexivity.
Qed.

(** ** C9: what the fallback recovers *)

(** C9.  Whatever the text, a query that [extractFromText] returns is
    [null] or a non-empty string without a double quote, and its explanation
    is the stock one or a non-empty string without a double quote: both the
    pattern scrape and the line scan capture a run of characters that are
    not double quotes.  So where the text of a value holds a quote escaped
    by a backslash, the pattern of a quoted pair (after text without a
    double quote) and the pattern of the line scan (after text without a
    colon) both capture the value only up to and with that backslash. *)
Theorem fallback_values_unquoted (text : jstring) (r : LLMResponse) :
  extractFromText text = Ret r ->
  (fofa_query r = VNull
   \/ exists q, fofa_query r = VString q /\ q <> [] /\ ~ In dq q)
  /\ (explanation r = VString msg_from_text
      \/ exists e, explanation r = VString e /\ e <> [] /\ ~ In dq e)
  /\ (forall pre key sp1 sp2 v w,
         ~ In dq pre ->
         forallb isWhiteSpace sp1 = true -> forallb isWhiteSpace sp2 = true ->
         ~ In dq v ->
         match_ (re_pair key)
                (pre ++ [dq] ++ key ++ [dq] ++ sp1 ++ [colon] ++ sp2 ++ [dq]
                 ++ v ++ [bslash; dq] ++ w)
         = Some [v ++ [bslash]])
  /\ (forall pre sp v w,
         ~ In colon pre ->
         forallb isWhiteSpace sp = true -> ~ In dq v ->
         match_ re_line_value
                (pre ++ [colon] ++ sp ++ [dq] ++ v ++ [bslash; dq] ++ w)
         = Some [v ++ [bslash]]).
Proof.
  intros Hr.
  destruct (extractFromText_spec text) as (r' & Hr' & Hq & He).
  rewrite Hr in Hr'; injection Hr' as <-.
  split; [|split; [|split]].
  - destruct Hq as [Hq|(q & Hq & Hne & Hdq & _)]; [now left|right; eauto].
  - destruct He as [He|(e & He & Hne & Hdq & _)]; [now left|right; eauto].
  - intros pre key sp1 sp2 v w Hpre Hsp1 Hsp2 Hv.
    unfold match_, exec, re_pair; cbn [anchored body].
    change (lits ([dq] ++ key ++ [dq])
            ++ [Star isWhiteSpace; Chr colon; Star isWhiteSpace; Chr dq;
                CapPlus notQuote; Chr dq])
      with (Chr dq :: lits (key ++ [dq])
            ++ [Star isWhiteSpace; Chr colon; Star isWhiteSpace; Chr dq;
                CapPlus notQuote; Chr dq]).
    erewrite search_skip; [reflexivity|exact Hpre|].
    change (Chr dq :: lits (key ++ [dq])
            ++ [Star isWhiteSpace; Chr colon; Star isWhiteSpace; Chr dq;
                CapPlus notQuote; Chr dq])
      with (lits ([dq] ++ key ++ [dq])
            ++ [Star isWhiteSpace; Chr colon; Star isWhiteSpace; Chr dq;
                CapPlus notQuote; Chr dq]).
    replace ([dq] ++ key ++ [dq] ++ sp1 ++ [colon] ++ sp2 ++ [dq]
             ++ v ++ [bslash; dq] ++ w)
      with (([dq] ++ key ++ [dq])
            ++ sp1 ++ [colon] ++ sp2 ++ [dq] ++ v ++ [bslash; dq] ++ w)
      by (now rewrite <- !app_assoc).
    rewrite run_lits.
    apply run_star; [exact Hsp1|reflexivity|].
    apply (run_value_cut sp2 v w Hsp2 Hv).
  - intros pre sp v w Hpre Hsp Hv.
    unfold match_, exec, re_line_value; cbn [anchored body].
    erewrite search_skip; [reflexivity|exact Hpre|].
    apply (run_value_cut sp v w Hsp Hv).
Qed.

(** C9 on the text of the fallback scenario: the query scraped from it,
    and the cut of its value at the escaped quote. *)
Lemma fallback_values_unquoted_witness :
  extractFromText fallback_text
  = Ret {| fofa_query := VString (str "country=" ++ [bslash]);
           explanation := VString (str "y") |}
  /\ (VString (str "country=" ++ [bslash]) = VNull
      \/ exists q, VString (str "country=" ++ [bslash]) = VString q
                   /\ q <> [] /\ ~ In dq q)
  /\ match_ (re_pair (str "fofa_query"))
            ([] ++ [dq] ++ str "fofa_query" ++ [dq] ++ [] ++ [colon] ++ [32%N]
             ++ [dq] ++ str "country=" ++ [bslash; dq] ++ str "US")
     = Some [str "country=" ++ [bslash]].
Proof.
  assert (H : extractFromText fallback_text
              = Ret {| fofa_query := VString (str "country=" ++ [bslash]);
                       explanation := VString (str "y") |})
    by (vm_compute; reflexivity).
  split; [exact H|split].
  - exact (proj1 (fallback_values_unquoted fallback_text H)).
  - apply (proj1 (proj2 (proj2 (fallback_values_unquoted fallback_text H)))).
    + intros [].
    + reflexivity.
    + reflexivity.
    + vm_compute; intuition discriminate.
Defined.

(** ** C7: the query of a result *)

(** C7, as stated, fails: the strict parse passes the [fofa_query] of the
    parsed object on as it is, so a completion whose [fofa_query] is the
    empty string gives a result whose query is present and empty. *)
Lemma strict_query_may_be_empty :
  extract sample_engine empty_query_text
  = Ret {| fofa_query := VString []; explanation := VString (str "x") |}
  /\ present (VString [])
  /\ ~ (exists q, VString [] = VString q /\ q <> []).
Proof.
  split; [vm_compute; reflexivity|split].
  - intros [H|H]; discriminate.
  - intros (q & Hq & Hne); injection Hq as <-; now apply Hne.
Qed.

(** C7, amended.  A result of the strict parse carries the members of
    the parsed value unchanged: of an object, its [fofa_query] and its
    [explanation]; of another value than [null], which has no such
    members, [undefined] twice.  A
    query that is present in a result of the recovery (the strict parse
    having failed) is a non-empty string without a double quote and a
    contiguous piece of the text: the recovery adds no character of its
    own. *)
Theorem recovered_query_invariant (engine : Engine) (content : jstring)
        (r : LLMResponse) :
  extract engine content = Ret r ->
  (forall v,
      JSON.parse (cleanContent content) = Some v -> present v ->
      fofa_query r = match v with
                     | VObject props => lookup (str "fofa_query") props
                     | _ => VUndefined
                     end
      /\ explanation r = match v with
                         | VObject props => lookup (str "explanation") props
                         | _ => VUndefined
                         end)
  /\ ((exists e, strictParse engine content = Throw e) ->
      present (fofa_query r) ->
      exists q, fofa_query r = VString q /\ q <> [] /\ ~ In dq q
                /\ infix q content).
Proof.
  intros Hr.
  destruct (extract_cases engine content) as (r' & Hr' & Hcase).
  rewrite Hr in Hr'; injection Hr' as <-.
  split.
  - intros v Hv Hpresent.
    pose proof (strictParse_cases engine content) as Hs; rewrite Hv in Hs.
    unfold extract, try_catch in Hr.
    destruct v as [| |b|n|s|items|props];
      try (rewrite Hs in Hr; injection Hr as <-; split; reflexivity).
    + exfalso; apply Hpresent; right; reflexivity.
    + exfalso; apply Hpresent; left; reflexivity.
  - intros [e He] Hpresent.
    destruct Hcase as [H|[_ [[_ Hq]| ->]]].
    + rewrite He in H; discriminate.
    + exact Hq.
    + exfalso; apply Hpresent; left; reflexivity.
Qed.

(** The amended C7 on the text of the fallback scenario, whose strict
    parse fails. *)
Lemma recovered_query_invariant_witness :
  extract sample_engine fallback_text
  = Ret {| fofa_query := VString (str "country=" ++ [bslash]);
           explanation := VString (str "y") |}
  /\ exists q, VString (str "country=" ++ [bslash]) = VString q
               /\ q <> [] /\ ~ In dq q /\ infix q fallback_text.
Proof.
  assert (H : extract sample_engine fallback_text
              = Ret {| fofa_query := VString (str "country=" ++ [bslash]);
                       explanation := VString (str "y") |})
    by (vm_compute; reflexivity).
  split; [exact H|].
  apply (proj2 (recovered_query_invariant sample_engine fallback_text H)).
  - eexists; vm_compute; reflexivity.
  - intros [E|E]; discriminate E.
Defined.

(** ** C5: the fallback scenario *)

(** C5, as stated, fails on the text of the scenario, with the inner quotes
    escaped or bare: the text is no JSON, both quoted pairs are found by the
    pattern scrape, which returns before the line scan, and the query it
    captures ends at the first double quote after the opening one. *)
Lemma fallback_scenario_actual :
  JSON.parse (cleanContent fallback_text) = None
  /\ match_ (re_pair (str "fofa_query")) fallback_text
     = Some [str "country=" ++ [bslash]]
  /\ match_ (re_pair (str "explanation")) fallback_text = Some [str "y"]
  /\ extract sample_engine fallback_text
     = Ret {| fofa_query := VString (str "country=" ++ [bslash]);
              explanation := VString (str "y") |}
  /\ extract sample_engine fallback_text
     <> Ret {| fofa_query := VString (quoted "country='US'");
               explanation := VString (str "y") |}
  /\ extract sample_engine fallback_text_bare
     = Ret {| fofa_query := VString (str "country=");
              explanation := VString (str "y") |}.
Proof.
  repeat split; try (vm_compute; reflexivity).
  vm_compute; discriminate.
Qed.

(** C5, amended.  When the text is no JSON and both quoted pairs are found
    in it, the extraction returns the two values captured by the pattern
    scrape, each a non-empty piece of the text without a double quote; the
    line scan is not reached. *)
Theorem pattern_scrape_first (engine : Engine) (content : jstring)
        (qcaps ecaps : list jstring) :
  JSON.parse (cleanContent content) = None ->
  match_ (re_pair (str "fofa_query")) content = Some qcaps ->
  match_ (re_pair (str "explanation")) content = Some ecaps ->
  extract engine content
  = Ret {| fofa_query := group1 qcaps; explanation := group1 ecaps |}
  /\ scraped content (group1 qcaps)
  /\ scraped content (group1 ecaps).
Proof.
  intros Hparse Hq He.
  pose proof (pair_scraped _ _ Hq) as Sq.
  pose proof (pair_scraped _ _ He) as Se.
  split; [|split; assumption].
  pose proof (strictParse_cases engine content) as H; rewrite Hparse in H.
  destruct H as [e H].
  unfold extract; rewrite H; simpl.
  unfold recover, extractFromText; rewrite Hq, He; simpl.
  now rewrite (scraped_truthy Sq).
Qed.

(** The amended C5 on the text of the claim. *)
Lemma pattern_scrape_first_witness :
  extract sample_engine fallback_text
  = Ret {| fofa_query := group1 [str "country=" ++ [bslash]];
           explanation := group1 [str "y"] |}.
Proof.
  apply (pattern_scrape_first sample_engine fallback_text
           (qcaps := [str "country=" ++ [bslash]]) (ecaps := [str "y"]));
    vm_compute; reflexivity.
Defined.

(** ** The translation client *)

Lemma bind_ret {A B : Type} (m : Outcome A) (k : A -> Outcome B) (b : B) :
  bind m k = Ret b -> exists a, m = Ret a /\ k a = Ret b.
Proof. destruct m as [a|e]; simpl; [eauto|discriminate]. Qed.

Lemma bind_throws {A B : Type} (m : Outcome A) (k : A -> Outcome B) :
  throws_error m -> (forall a, throws_error (k a)) -> throws_error (bind m k).
Proof.
  intros Hm Hk e; destruct m as [a|e']; simpl.
  - apply Hk.
  - intros H; injection H as <-; now apply Hm.
Qed.

Lemma typeError_throws {A : Type} (engine : Engine) (f : fault) :
  throws_error (@typeError engine A f).
Proof. intros e H; injection H as <-; eauto. Qed.

Lemma Ret_throws {A : Type} (a : A) : throws_error (Ret a).
Proof. intros e H; discriminate. Qed.

Lemma get_prop_throws (engine : Engine) (v : value) (key : jstring) :
  throws_error (get_prop engine v key).
Proof. destruct v; simpl; auto using typeError_throws, Ret_throws. Qed.

Lemma get_index0_throws (engine : Engine) (v : value) :
  throws_error (get_index0 engine v).
Proof. destruct v; simpl; auto using typeError_throws, Ret_throws. Qed.

Lemma call_trim_throws (engine : Engine) (v : value) :
  throws_error (call_trim engine v).
Proof. destruct v; simpl; auto using typeError_throws, Ret_throws. Qed.

Lemma first_of_throws (engine : Engine) (v : value) (key : jstring) :
  throws_error (first_of engine v key).
Proof.
  unfold first_of; apply bind_throws; [apply get_prop_throws|].
  intros a; destruct (truthy a); [apply get_index0_throws|apply Ret_throws].
Qed.

(** Whatever [extractContent] throws is an [Error] with a message. *)
Lemma extractContent_throws (engine : Engine) (responseData : value) :
  throws_error (extractContent engine responseData).
Proof.
  unfold extractContent.
  apply bind_throws; [apply first_of_throws|]; intros c.
  destruct (truthy c).
  - repeat (apply bind_throws;
            [first [apply get_prop_throws|apply get_index0_throws]|intros ?]).
    apply call_trim_throws.
  - apply bind_throws; [apply first_of_throws|]; intros c'.
    destruct (truthy c').
    + repeat (apply bind_throws;
              [first [apply get_prop_throws|apply get_index0_throws]|intros ?]).
      apply call_trim_throws.
    + intros e H; injection H as <-; eauto.
Qed.

Lemma get_prop_read (engine : Engine) (v : value) (key : jstring) (w : value) :
  get_prop engine v key = Ret w -> w = read v (Field key).
Proof. destruct v; simpl; intros H; try discriminate; now injection H. Qed.

Lemma get_index0_read (engine : Engine) (v w : value) :
  get_index0 engine v = Ret w -> w = read v First.
Proof.
  destruct v; simpl; intros H; try discriminate; now injection H.
Qed.

Lemma call_trim_string (engine : Engine) (v : value) (s : jstring) :
  call_trim engine v = Ret s -> exists t, v = VString t.
Proof. destruct v; simpl; intros H; try discriminate; eauto. Qed.

(** [extractContent] returns a text only from an envelope of one of the
    two shapes. *)
Lemma extractContent_ret (engine : Engine) (responseData : value) (s : jstring) :
  extractContent engine responseData = Ret s ->
  has_text responseData candidates_path \/ has_text responseData choices_path.
Proof.
  unfold extractContent; intros H.
  apply bind_ret in H; destruct H as (c & _ & H).
  destruct (truthy c).
  - left.
    repeat (apply bind_ret in H; destruct H as (? & ? & H)).
    repeat match goal with
           | E : get_prop _ _ _ = Ret _ |- _ => apply get_prop_read in E
           | E : get_index0 _ _ = Ret _ |- _ => apply get_index0_read in E
           end.
    apply call_trim_string in H; destruct H as [t Ht].
    exists t; rewrite <- Ht; clear Ht; subst; reflexivity.
  - right.
    apply bind_ret in H; destruct H as (c' & _ & H).
    destruct (truthy c'); [|discriminate].
    repeat (apply bind_ret in H; destruct H as (? & ? & H)).
    repeat match goal with
           | E : get_prop _ _ _ = Ret _ |- _ => apply get_prop_read in E
           | E : get_index0 _ _ = Ret _ |- _ => apply get_index0_read in E
           end.
    apply call_trim_string in H; destruct H as [t Ht].
    exists t; rewrite <- Ht; clear Ht; subst; reflexivity.
Qed.

(** The translation makes one request; it returns what the extraction
    makes of the text in the envelope, and whatever is thrown on the way
    is thrown again under the one prefix. *)
Lemma convert_cases (engine : Engine) (prompt : Prompt) (net : Remote)
      (config : LLMConfig) (userInput : jstring) (log : list Event) :
  let request := buildRequest engine config (buildPrompt prompt userInput) in
  convertTextToFofaQuery engine prompt net config userInput log
  = (match (responseData <- axios_post net request ;;
            content <- extractContent engine responseData ;;
            extract engine content) with
     | Ret r => Ret r
     | Throw e => Throw (ErrorObj (msg_llm_failed ++ message_of e))
     end,
     log ++ [Posted request]).
Proof.
  unfold convertTextToFofaQuery, tryM, bindM, emit, lift, throw; simpl.
  destruct (axios_post net _) as [responseData|e]; simpl; [|reflexivity].
  destruct (extractContent engine responseData) as [content|e]; simpl; [|reflexivity].
  destruct (extract engine content) as [r|e]; reflexivity.
Qed.

(** ** C8: the failures of the translation *)

(** C8.  Whatever the remote completion call throws (a network error, a
    timeout, an HTTP error), and whatever envelope it answers that has
    neither the shape [candidates[0].content.parts[0].text] nor the shape
    [choices[0].message.content], the translation throws one error: the
    prefix "LLM服务调用失败: " followed by the message of the cause, which
    is the message of the [Error] or of the error of the HTTP client that
    was thrown, and "未知错误" for a thrown value that is no [Error].  It
    never returns a result in these cases. *)
Theorem translation_failures_raised (engine : Engine) (prompt : Prompt)
        (net : Remote) (config : LLMConfig) (userInput : jstring)
        (log : list Event) :
  let request := buildRequest engine config (buildPrompt prompt userInput) in
  let translated := convertTextToFofaQuery engine prompt net config userInput log in
  (forall e,
      axios_post net request = Throw e ->
      translated
      = (Throw (ErrorObj
                  (msg_llm_failed
                   ++ match e with
                      | ErrorObj message => message
                      | AxiosErrorObj message _ _ => message
                      | NonError => msg_unknown
                      end)),
         log ++ [Posted request])
      /\ forall r, fst translated <> Ret r)
  /\ (forall responseData,
         axios_post net request = Ret responseData ->
         ~ has_text responseData candidates_path ->
         ~ has_text responseData choices_path ->
         exists cause,
           extractContent engine responseData = Throw (ErrorObj cause)
           /\ translated
              = (Throw (ErrorObj (msg_llm_failed ++ cause)), log ++ [Posted request])).
Proof.
  intros request translated; subst translated.
  rewrite convert_cases; fold request.
  split.
  - intros e ->; split; [destruct e; reflexivity|].
    intros r H; discriminate H.
  - intros responseData -> Hc Hm; simpl.
    destruct (extractContent engine responseData) as [s|e] eqn:E.
    + apply extractContent_ret in E; tauto.
    + destruct (@extractContent_throws engine responseData e E) as [cause ->].
      exists cause; split; reflexivity.
Qed.

(** ** The search client *)

(** What [executeFofaQuery] does with a string: an invalid query is
    refused before any request; a valid one makes one request, whose
    failure the [catch] block classifies. *)
Lemma executeFofaQuery_string (engine : Engine) (net : Remote)
      (config : FofaConfig) (q : jstring) (size page : option Z)
      (log : list Event) :
  let sz := match size with Some n => n | None => 100%Z end in
  let pg := match page with Some n => n | None => 1%Z end in
  let params :=
    {| p_email := email config; p_key := fofaApiKey config;
       qbase64 := Base64Utf8 q; fields := str "ip,port,title,host";
       size := sz; page := pg |} in
  executeFofaQuery engine net config (VString q) size page log
  = if validateQuery q then
      match axios_get net params with
      | Ret response =>
          if error_flag response then
            (Throw (ErrorObj (msg_exec_failed ++ msg_api_error)),
             log ++ [SearchCalled (VString q) sz pg] ++ [Got params])
          else
            (Ret (transformResults (results response)),
             log ++ [SearchCalled (VString q) sz pg] ++ [Got params])
      | Throw e =>
          classify e (log ++ [SearchCalled (VString q) sz pg] ++ [Got params])
      end
    else
      (Throw (ErrorObj (msg_invalid_query ++ q)),
       log ++ [SearchCalled (VString q) sz pg]).
Proof.
  intros sz pg params.
  unfold executeFofaQuery, bindM, emit; simpl.
  destruct (validateQuery q); simpl; [|reflexivity].
  unfold tryM, request, bindM, emit, lift; simpl.
  fold sz pg params. rewrite <- app_assoc; simpl.
  destruct (axios_get net params) as [response|e]; simpl; [|reflexivity].
  destruct (error_flag response); reflexivity.
Qed.

Lemma classify_throws {A : Type} (e : exn) (log : list Event) :
  exists message, @classify A e log = (Throw (ErrorObj message), log).
Proof.
  destruct e as [m|m status code|]; simpl; unfold throw; eauto.
  destruct (status_is status 401); [eauto|].
  destruct (status_is status 403); [eauto|].
  destruct (code_is code (str "ECONNABORTED")); eauto.
Qed.

(** The run of [executeFofaQuery] on a query that is no string: a truthy
    one has no [trim] to call, a falsy one is rendered into the message of
    the validator. *)
Ltac nonstring_query :=
  unfold executeFofaQuery, bindM, emit, lift, throw, typeError;
  cbn [truthy ToString];
  try match goal with
      | |- context [if ?c then _ else _] => destruct c
      end;
  cbn [negb].

(** The calls of one [executeFofaQuery]: its own entry, then at most the
    one request; and whatever it throws is an [Error]. *)
Lemma executeFofaQuery_log (engine : Engine) (net : Remote)
      (config : FofaConfig) (query : value) (size page : option Z)
      (log : list Event) :
  exists out rest,
    executeFofaQuery engine net config query size page log
    = (out,
       log ++ SearchCalled query (match size with Some n => n | None => 100%Z end)
                           (match page with Some n => n | None => 1%Z end) :: rest)
    /\ (rest = [] \/ exists params, rest = [Got params])
    /\ throws_error out.
Proof.
  destruct query as [| |b|n|q|items|props];
    try (nonstring_query;
         (eexists; exists []; split; [reflexivity|]; split; [now left|];
          intros e H; injection H as <-; eauto)).
  pose proof (executeFofaQuery_string engine net config q size page log) as E;
    cbv zeta in E; rewrite E; clear E.
  destruct (validateQuery q).
  - destruct (axios_get net _) as [response|e].
    + destruct (error_flag response); eexists; eexists; (split; [reflexivity|]);
        (split; [right; eauto|]).
      * intros e H; injection H as <-; eauto.
      * apply Ret_throws.
    + destruct (@classify_throws (list FofaResult) e
                  (log ++ [SearchCalled (VString q)
                             (match size with Some n => n | None => 100%Z end)
                             (match page with Some n => n | None => 1%Z end)]
                       ++ [Got {| p_email := email config;
                                  p_key := fofaApiKey config;
                                  qbase64 := Base64Utf8 q;
                                  fields := str "ip,port,title,host";
                                  size := match size with Some n => n | None => 100%Z end;
                                  page := match page with Some n => n | None => 1%Z end |}]))
        as [message Hm].
      rewrite Hm. eexists; eexists; (split; [reflexivity|]); (split; [right; eauto|]).
      intros e' H; injection H as <-; eauto.
  - eexists; exists []; split; [reflexivity|]; split; [now left|].
    intros e H; injection H as <-; eauto.
Qed.

(** The part of the classification that holds (C2 but for the error
    flag): an invalid query is refused with its own text and no request
    is made; a valid query makes the request, and a failure of the request
    is classified in this order: status 401, status 403, the time-out code,
    and anything else under the general prefix.  The messages differ. *)
Lemma search_failures_classified (engine : Engine) (net : Remote)
      (config : FofaConfig) (q : jstring) (size page : option Z)
      (log : list Event) :
  let sz := match size with Some n => n | None => 100%Z end in
  let pg := match page with Some n => n | None => 1%Z end in
  let params :=
    {| p_email := email config; p_key := fofaApiKey config;
       qbase64 := Base64Utf8 q; fields := str "ip,port,title,host";
       size := sz; page := pg |} in
  let run := executeFofaQuery engine net config (VString q) size page log in
  (validateQuery q = false ->
   run = (Throw (ErrorObj (msg_invalid_query ++ q)),
          log ++ [SearchCalled (VString q) sz pg]))
  /\ (validateQuery q = true ->
      forall e, axios_get net params = Throw e ->
        fst run
        = Throw (ErrorObj
            match e with
            | AxiosErrorObj m status code =>
                if status_is status 401 then msg_auth
                else if status_is status 403 then msg_denied
                else if code_is code (str "ECONNABORTED") then msg_timeout
                else msg_exec_failed ++ m
            | ErrorObj m => msg_exec_failed ++ m
            | NonError => msg_exec_failed ++ msg_unknown
            end))
  /\ NoDup [msg_auth; msg_denied; msg_timeout; msg_api_error].
Proof.
  intros sz pg params run; subst run.
  pose proof (executeFofaQuery_string engine net config q size page log) as E;
    cbv zeta in E; rewrite E; clear E; fold sz pg params.
  split; [|split].
  - intros ->; reflexivity.
  - intros -> e ->.
    destruct e as [m|m status code|]; simpl; try reflexivity.
    destruct (status_is status 401); [reflexivity|].
    destruct (status_is status 403); [reflexivity|].
    destruct (code_is code (str "ECONNABORTED")); reflexivity.
  - repeat constructor; simpl; intuition discriminate.
Qed.

(** ** C2: the error flag of the payload *)

(** C2 fails where the payload of a successful response has its error flag
    set: the error with the message "FOFA API返回错误，请检查查询语法或API配置"
    is thrown inside the [try] block, caught by the [catch] block of the
    same method, and thrown again under the general prefix
    "FOFA查询执行失败: ", as any unclassified failure is.  Evaluated on the
    valid query [app="nginx"] and a response whose flag is set. *)
Theorem in_band_error_rewrapped :
  executeFofaQuery sample_engine
    (sample_remote (Ret (completion [])) (Ret in_band_error))
    sample_fofa_config (VString nginx_query) None None []
  = (Throw (ErrorObj (msg_exec_failed ++ msg_api_error)),
     [SearchCalled (VString nginx_query) 100 1;
      Got {| p_email := email sample_fofa_config;
             p_key := fofaApiKey sample_fofa_config;
             qbase64 := Base64Utf8 nginx_query;
             fields := str "ip,port,title,host";
             size := 100; page := 1 |}])
  /\ validateQuery nginx_query = true
  /\ msg_exec_failed ++ msg_api_error <> msg_api_error.
Proof.
  repeat split; try (vm_compute; reflexivity).
  vm_compute; discriminate.
Qed.

(** ** The coordinator *)

Lemma infix_middle (a b c : jstring) : infix b (a ++ b ++ c).
Proof. exists a, c; reflexivity. Qed.

Lemma infix_end (a b : jstring) : infix b (a ++ b).
Proof. exists a, []; now rewrite app_nil_r. Qed.

(** [processUserQuery] by the outcomes of the two clients. *)
(** ** ToString *)

Lemma ToString_items (engine : Engine) (items : list value) :
  Forall (fun v => forall e, ToString engine v = Throw e ->
                             e = ErrorObj (fault_message engine NotPrimitive))
         items ->
  forall e, ToString engine (VArray items) = Throw e ->
            e = ErrorObj (fault_message engine NotPrimitive).
Proof.
  simpl. induction 1 as [|x rest Hx _ IHrest]; intros e; [discriminate|].
  destruct (match x with
            | VUndefined | VNull => Ret []
            | _ => ToString engine x
            end) as [head|e0] eqn:Ex; simpl.
  - destruct rest as [|y rest']; [discriminate|].
    intros H. apply IHrest.
    match goal with
    | |- ?j = Throw e =>
        revert H; destruct j; simpl; intros H; [discriminate H|exact H]
    end.
  - intros H; injection H as <-.
    destruct x; try discriminate Ex; exact (Hx _ Ex).
Qed.

(** The one thing ToString throws: the [TypeError] of a value without a
    primitive form. *)
Lemma ToString_throws (engine : Engine) :
  forall v e, ToString engine v = Throw e ->
              e = ErrorObj (fault_message engine NotPrimitive).
Proof.
  fix IH 1.
  intros [| |b|n|s|items|props]; try (intros e H; discriminate H).
  - apply ToString_items.
    induction items as [|x rest IHrest]; constructor; [apply IH|exact IHrest].
  - intros e; simpl.
    destruct (has_own (str "toString") props); [|discriminate].
    unfold typeError; intros H; now injection H.
Qed.

(** A falsy value always renders. *)
Lemma ToString_falsy (engine : Engine) (v : value) :
  truthy v = false -> exists text, ToString engine v = Ret text.
Proof. destruct v; simpl; try discriminate; eauto. Qed.

Lemma formatQueryResult_cases (engine : Engine) (result : QueryResult) :
  formatQueryResult engine result
  = match ToString engine (qr_query result) with
    | Throw e => Throw e
    | Ret _ =>
        match ToString engine (qr_explanation result) with
        | Throw e => Throw e
        | Ret _ => Ret (Formatted result)
        end
    end.
Proof.
  unfold formatQueryResult.
  destruct (ToString engine (qr_query result)); simpl; [|reflexivity].
  destruct (ToString engine (qr_explanation result)); reflexivity.
Qed.

(** ** The two natural-language runs, case by case *)

Lemma processUserQuery_cases (engine : Engine) (prompt : Prompt) (net : Remote)
      (llmConfig : LLMConfig) (fofaConfig : FofaConfig)
      (userInput : jstring) (resultSize : option Z) (log : list Event) :
  processUserQuery engine prompt net llmConfig fofaConfig userInput resultSize log
  = match convertTextToFofaQuery engine prompt net llmConfig userInput log with
    | (Throw e, l1) => (Ret (failed (message_of e)), l1)
    | (Ret r, l1) =>
        if truthy (fofa_query r) then
          match ToString engine (fofa_query r) with
          | Throw e => (Ret (failed (message_of e)), l1)
          | Ret _ =>
              match ToString engine (explanation r) with
              | Throw e => (Ret (failed (message_of e)), l1)
              | Ret _ =>
                  match executeFofaQuery engine net fofaConfig (fofa_query r)
                          (Some (match resultSize with Some n => n | None => 50%Z end))
                          None l1 with
                  | (Ret records, l2) =>
                      (Ret {| success := true; data := Some records; error := None;
                              query := Some (fofa_query r);
                              explanation_ := Some (explanation r) |}, l2)
                  | (Throw e, l2) => (Ret (failed (message_of e)), l2)
                  end
              end
          end
        else
          match ToString engine (explanation r) with
          | Ret text =>
              (Ret (failed (msg_not_understood ++ userInput ++ [dq; newline]
                            ++ text)), l1)
          | Throw e => (Ret (failed (message_of e)), l1)
          end
    end.
Proof.
  unfold processUserQuery, tryM, bindM, lift.
  destruct (convertTextToFofaQuery engine prompt net llmConfig userInput log)
    as [[r|e] l1]; [|reflexivity].
  destruct (truthy (fofa_query r)); simpl.
  - destruct (ToString engine (fofa_query r)); [|reflexivity].
    destruct (ToString engine (explanation r)); [|reflexivity].
    destruct (executeFofaQuery engine net fofaConfig (fofa_query r) _ None l1)
      as [[records|e] l2]; reflexivity.
  - destruct (ToString engine (explanation r)); reflexivity.
Qed.

Lemma handleNaturalLanguageQuery_cases (engine : Engine) (prompt : Prompt)
      (net : Remote) (llmConfig : LLMConfig) (fofaConfig : FofaConfig)
      (query : jstring) (size : option Z) (log : list Event) :
  handleNaturalLanguageQuery engine prompt net llmConfig fofaConfig query size log
  = match convertTextToFofaQuery engine prompt net llmConfig query log with
    | (Throw e, l1) => (Ret (Plain (msg_tool_failed ++ message_of e)), l1)
    | (Ret r, l1) =>
        if truthy (fofa_query r) then
          match executeFofaQuery engine net fofaConfig (fofa_query r)
                  (Some (match size with Some n => n | None => 50%Z end))
                  None l1 with
          | (Ret records, l2) =>
              match formatQueryResult engine
                      {| qr_success := true; qr_results := records;
                         qr_query := fofa_query r;
                         qr_explanation := explanation r;
                         qr_count := List.length records |} with
              | Ret text => (Ret text, l2)
              | Throw e => (Ret (Plain (msg_tool_failed ++ message_of e)), l2)
              end
          | (Throw e, l2) => (Ret (Plain (msg_tool_failed ++ message_of e)), l2)
          end
        else
          match ToString engine (explanation r) with
          | Ret text =>
              (Ret (Plain (msg_tool_not_understood ++ query ++ [dq; newline]
                           ++ text)), l1)
          | Throw e => (Ret (Plain (msg_tool_failed ++ message_of e)), l1)
          end
    end.
Proof.
  unfold handleNaturalLanguageQuery, tryM, bindM, lift.
  destruct (convertTextToFofaQuery engine prompt net llmConfig query log)
    as [[r|e] l1]; [|reflexivity].
  destruct (truthy (fofa_query r)); simpl.
  - destruct (executeFofaQuery engine net fofaConfig (fofa_query r) _ None l1)
      as [[records|e] l2]; [|reflexivity].
    destruct (formatQueryResult engine _); reflexivity.
  - destruct (ToString engine (explanation r)); reflexivity.
Qed.

Lemma convert_log (engine : Engine) (prompt : Prompt) (net : Remote)
      (config : LLMConfig) (userInput : jstring) (log : list Event) o l1 :
  convertTextToFofaQuery engine prompt net config userInput log = (o, l1) ->
  l1 = log ++ [Posted (buildRequest engine config (buildPrompt prompt userInput))].
Proof.
  pose proof (convert_cases engine prompt net config userInput log) as E;
    cbv zeta in E; rewrite E.
  intros H; now injection H.
Qed.

(** Whatever the translation throws is an [Error]. *)
Lemma convert_throws (engine : Engine) (prompt : Prompt) (net : Remote)
      (config : LLMConfig) (userInput : jstring) (log : list Event) e l1 :
  convertTextToFofaQuery engine prompt net config userInput log = (Throw e, l1) ->
  exists message, e = ErrorObj message.
Proof.
  pose proof (convert_cases engine prompt net config userInput log) as E;
    cbv zeta in E; rewrite E.
  destruct (_ <- axios_post net _ ;; _) as [r|e0]; intros H; [discriminate H|].
  injection H as <- _; eauto.
Qed.

Lemma filter_search_posted (log : list Event) (request : ProviderRequest) :
  filter is_search_event (log ++ [Posted request]) = filter is_search_event log.
Proof. rewrite filter_app; simpl; apply app_nil_r. Qed.

Lemma startsWith_prefix (a r : jstring) : startsWith (a ++ r) a = true.
Proof.
  induction a as [|x a IH]; simpl; [now destruct r|].
  now rewrite N.eqb_refl.
Qed.

Lemma includes_unfold (s needle : jstring) :
  includes s needle
  = startsWith s needle
    || match s with
       | [] => false
       | _ :: rest => includes rest needle
       end.
Proof. destruct s; reflexivity. Qed.

(** A text that has another as a piece includes it. *)
Lemma infix_includes (a b : jstring) : infix a b -> includes b a = true.
Proof.
  intros (l & r & ->).
  induction l as [|c l IH].
  - rewrite includes_unfold. simpl app. now rewrite startsWith_prefix.
  - rewrite includes_unfold. change ((c :: l) ++ a ++ r) with (c :: l ++ a ++ r).
    cbv iota. rewrite IH. apply orb_true_r.
Qed.

(** ** C1: the contract of the natural-language run *)

(** C1, as stated, fails in its first part: the message of the failure is
    made by a template that renders the explanation inside the [try].  On
    a completion that declines with the explanation [{"toString": 1}],
    which has no primitive form, the template throws a [TypeError]; the
    [catch] block returns a failure whose message is that of the
    [TypeError], and it holds neither the input nor the explanation. *)
Lemma unrendered_explanation_failure :
  fst (convertTextToFofaQuery sample_engine sample_prompt
         (sample_remote (Ret (completion unrendered_text)) (Ret two_rows))
         sample_llm_config (str "find things") [])
  = Ret {| fofa_query := VNull;
           explanation := VObject [(str "toString",
                                    VNumber {| negative := false; mantissa := 1;
                                               exp10 := 0 |})] |}
  /\ processUserQuery sample_engine sample_prompt
       (sample_remote (Ret (completion unrendered_text)) (Ret two_rows))
       sample_llm_config sample_fofa_config (str "find things") None []
     = (Ret (failed (str "Cannot convert object to primitive value")),
        [Posted (buildRequest sample_engine sample_llm_config
                   (buildPrompt sample_prompt (str "find things")))])
  /\ ~ infix (str "find things") (str "Cannot convert object to primitive value").
Proof.
  split; [vm_compute; reflexivity|].
  split; [vm_compute; reflexivity|].
  intros H. apply infix_includes in H. vm_compute in H. discriminate H.
Qed.

(** C1, amended.  For every input and size the natural-language run
    returns a [ProcessResult] and throws nothing.  When the translation
    returns a query that is absent (or falsy), the run has made the
    completion request and no call of the search client, and the result
    is a failure: its message holds the text of the input and the
    explanation when the explanation renders as text, and is the message
    of the [TypeError] when it does not.  When the translation throws, the
    result is a failure with the message of the [Error] thrown.  When the
    query is truthy and it or the explanation does not render, the result
    is the failure of the [TypeError], with no call of the search client.
    Otherwise the search client is called with the query: what it throws
    is returned as a failure with its message, and the records it returns
    make the success.  A result with [success] true holds the records of
    that call, the query and the explanation of the translation and no
    error; a result with [success] false holds an error. *)
Theorem processUserQuery_contract (engine : Engine) (prompt : Prompt)
        (net : Remote) (llmConfig : LLMConfig) (fofaConfig : FofaConfig)
        (userInput : jstring) (resultSize : option Z) (log : list Event) :
  let request := buildRequest engine llmConfig (buildPrompt prompt userInput) in
  let translated :=
    convertTextToFofaQuery engine prompt net llmConfig userInput log in
  let size := Some (match resultSize with Some n => n | None => 50%Z end) in
  exists res log',
    processUserQuery engine prompt net llmConfig fofaConfig userInput resultSize log
    = (Ret res, log')
    /\ (forall r l1,
           translated = (Ret r, l1) -> truthy (fofa_query r) = false ->
           log' = log ++ [Posted request]
           /\ filter is_search_event log' = filter is_search_event log
           /\ (forall text,
                  ToString engine (explanation r) = Ret text ->
                  let message := msg_not_understood ++ userInput ++ [dq; newline]
                                 ++ text in
                  res = failed message
                  /\ infix userInput message
                  /\ infix text message)
           /\ (forall e,
                  ToString engine (explanation r) = Throw e ->
                  res = failed (fault_message engine NotPrimitive)))
    /\ (forall e l1,
           translated = (Throw e, l1) ->
           exists message,
             e = ErrorObj message /\ res = failed message
             /\ log' = log ++ [Posted request])
    /\ (forall r l1 e,
           translated = (Ret r, l1) -> truthy (fofa_query r) = true ->
           ToString engine (fofa_query r) = Throw e
           \/ ToString engine (explanation r) = Throw e ->
           res = failed (fault_message engine NotPrimitive)
           /\ log' = log ++ [Posted request])
    /\ (forall r l1 queryText explanationText out l2,
           translated = (Ret r, l1) -> truthy (fofa_query r) = true ->
           ToString engine (fofa_query r) = Ret queryText ->
           ToString engine (explanation r) = Ret explanationText ->
           executeFofaQuery engine net fofaConfig (fofa_query r) size None l1
           = (out, l2) ->
           log' = l2
           /\ match out with
              | Ret records =>
                  res = {| success := true; data := Some records; error := None;
                           query := Some (fofa_query r);
                           explanation_ := Some (explanation r) |}
              | Throw e => exists message, e = ErrorObj message /\ res = failed message
              end)
    /\ (success res = true ->
        exists r l1 records,
          translated = (Ret r, l1)
          /\ executeFofaQuery engine net fofaConfig (fofa_query r) size None l1
             = (Ret records, log')
          /\ res = {| success := true; data := Some records; error := None;
                      query := Some (fofa_query r);
                      explanation_ := Some (explanation r) |})
    /\ (success res = false -> exists message, res = failed message).
Proof.
  intros request translated size; subst translated size.
  rewrite processUserQuery_cases.
  destruct (convertTextToFofaQuery engine prompt net llmConfig userInput log)
    as [[r|e] l1] eqn:Et.
  - pose proof (convert_log _ _ _ _ _ _ Et) as Hl1; fold request in Hl1.
    destruct (truthy (fofa_query r)) eqn:Etruthy.
    + destruct (ToString engine (fofa_query r)) as [qt|eq] eqn:Eq.
      * destruct (ToString engine (explanation r)) as [et|ee] eqn:Ee.
        -- destruct (executeFofaQuery engine net fofaConfig (fofa_query r) _ None l1)
             as [[records|e] l2] eqn:Ex.
           ++ eexists; eexists; split; [reflexivity|].
              split; [|split; [|split; [|split; [|split]]]].
              ** intros r0 l0 H Hf; injection H as <- <-; congruence.
              ** intros e0 l0 H; discriminate.
              ** intros r0 l0 e0 H _ [Hx|Hx]; injection H as <- <-; congruence.
              ** intros r0 l0 qt0 et0 out l3 H _ _ _ Hx; injection H as <- <-.
                 rewrite Ex in Hx; injection Hx as <- <-. split; reflexivity.
              ** intros _. exists r, l1, records. auto.
              ** intros H; discriminate.
           ++ pose proof (executeFofaQuery_log engine net fofaConfig (fofa_query r)
                            (Some (match resultSize with
                                   | Some n => n
                                   | None => 50%Z
                                   end)) None l1) as (o & rest & Hl & _ & Hthrows).
              rewrite Ex in Hl; injection Hl as <- _.
              destruct (Hthrows e eq_refl) as [message ->].
              eexists; eexists; split; [reflexivity|].
              split; [|split; [|split; [|split; [|split]]]].
              ** intros r0 l0 H Hf; injection H as <- <-; congruence.
              ** intros e0 l0 H; discriminate.
              ** intros r0 l0 e0 H _ [Hx|Hx]; injection H as <- <-; congruence.
              ** intros r0 l0 qt0 et0 out l3 H _ _ _ Hx; injection H as <- <-.
                 rewrite Ex in Hx; injection Hx as <- <-.
                 split; [reflexivity|]. exists message; auto.
              ** intros H; discriminate.
              ** intros _; eauto.
        -- pose proof Ee as Hm; apply ToString_throws in Hm; subst ee.
           eexists; eexists; split; [reflexivity|].
           split; [|split; [|split; [|split; [|split]]]].
           ++ intros r0 l0 H Hf; injection H as <- <-; congruence.
           ++ intros e0 l0 H; discriminate.
           ++ intros r0 l0 e0 H _ _; auto.
           ++ intros r0 l0 qt0 et0 out l3 H _ _ Hx; injection H as <- <-.
              congruence.
           ++ intros H; discriminate.
           ++ intros _; eauto.
      * pose proof Eq as Hm; apply ToString_throws in Hm; subst eq.
        eexists; eexists; split; [reflexivity|].
        split; [|split; [|split; [|split; [|split]]]].
        -- intros r0 l0 H Hf; injection H as <- <-; congruence.
        -- intros e0 l0 H; discriminate.
        -- intros r0 l0 e0 H _ _; auto.
        -- intros r0 l0 qt0 et0 out l3 H _ Hx; injection H as <- <-.
           congruence.
        -- intros H; discriminate.
        -- intros _; eauto.
    + destruct (ToString engine (explanation r)) as [et|ee] eqn:Ee.
      * eexists; eexists; split; [reflexivity|].
        split; [|split; [|split; [|split; [|split]]]].
        -- intros r0 l0 H _; injection H as <- <-.
           split; [exact Hl1|].
           split; [rewrite Hl1; apply filter_search_posted|].
           split.
           ++ intros text Ht; rewrite Ee in Ht; injection Ht as <-; cbv zeta.
              split; [reflexivity|split].
              ** apply infix_app_l, infix_app_r, infix_refl.
              ** rewrite !app_assoc; apply infix_end.
           ++ intros e0 H; rewrite Ee in H; discriminate H.
        -- intros e0 l0 H; discriminate.
        -- intros r0 l0 e0 H; injection H as <- <-; congruence.
        -- intros r0 l0 qt0 et0 out l3 H; injection H as <- <-; congruence.
        -- intros H; discriminate.
        -- intros _; eauto.
      * pose proof Ee as Hm; apply ToString_throws in Hm; subst ee.
        eexists; eexists; split; [reflexivity|].
        split; [|split; [|split; [|split; [|split]]]].
        -- intros r0 l0 H _; injection H as <- <-.
           split; [exact Hl1|].
           split; [rewrite Hl1; apply filter_search_posted|].
           split; [intros text Ht; rewrite Ee in Ht; discriminate Ht|].
           intros e0 _; reflexivity.
        -- intros e0 l0 H; discriminate.
        -- intros r0 l0 e0 H; injection H as <- <-; congruence.
        -- intros r0 l0 qt0 et0 out l3 H; injection H as <- <-; congruence.
        -- intros H; discriminate.
        -- intros _; eauto.
  - pose proof (convert_log _ _ _ _ _ _ Et) as Hl1; fold request in Hl1.
    destruct (convert_throws _ _ _ _ _ _ Et) as [message ->].
    eexists; eexists; split; [reflexivity|].
    split; [|split; [|split; [|split; [|split]]]].
    + intros r0 l0 H; discriminate.
    + intros e0 l0 H; injection H as <- <-. exists message; auto.
    + intros r0 l0 e0 H; discriminate.
    + intros r0 l0 qt0 et0 out l3 H; discriminate.
    + intros H; discriminate.
    + intros _; eauto.
Qed.

(** ** C10: what reaches the search client *)

(** C10, as stated, fails: the strict parse passes a [fofa_query] that is
    no string through, and the coordinator calls the search client with
    any truthy value that renders as text.  On the completion
    [{"fofa_query": 5, ...}] the search client is entered with the number
    5; its validator has no [trim] to call on it and the run ends in a
    failure. *)
Lemma search_called_with_number :
  processUserQuery sample_engine sample_prompt
    (sample_remote (Ret (completion number_query_text)) (Ret no_rows))
    sample_llm_config sample_fofa_config (str "find") None []
  = (Ret (failed (str "trim is not a function")),
     [Posted (buildRequest sample_engine sample_llm_config
                (buildPrompt sample_prompt (str "find")));
      SearchCalled (VNumber {| negative := false; mantissa := 5; exp10 := 0 |})
                   50 1])
  /\ ~ (exists s, VNumber {| negative := false; mantissa := 5; exp10 := 0 |}
                  = VString s).
Proof.
  split; [vm_compute; reflexivity|].
  intros [s H]; discriminate.
Qed.

Lemma truthy_facts (q : value) :
  truthy q = true -> q <> VString [] /\ ~ absent q.
Proof.
  intros H; split.
  - intros ->; discriminate.
  - intros [->| ->]; discriminate.
Qed.

Lemma falsy_empty_or_absent (q : value) :
  q = VString [] \/ absent q -> truthy q = false.
Proof. intros [->|[->| ->]]; reflexivity. Qed.

Lemma not_in_posted (request : ProviderRequest) (q : value) (size page : Z) :
  ~ In (SearchCalled q size page) [Posted request].
Proof. intros [H|[]]; discriminate H. Qed.

(** The calls of [SearchCalled] among the events of one run of the search
    client, made after the completion request. *)
Lemma in_search_events (request : ProviderRequest) (q0 q : value)
      (size0 size page : Z) (rest : list Event) :
  rest = [] \/ (exists params, rest = [Got params]) ->
  In (SearchCalled q size page)
     ([Posted request] ++ SearchCalled q0 size0 1 :: rest) ->
  q = q0.
Proof.
  intros Hrest H. simpl in H.
  destruct H as [H|[H|H]]; [discriminate H| |].
  - now injection H.
  - destruct Hrest as [->|[params ->]]; simpl in H; [tauto|].
    destruct H as [H|[]]; discriminate H.
Qed.

(** C10, amended.  In the natural-language mode, of the coordinator and of
    the tool handler alike, every call of the search client made by the run
    carries a truthy query: never [null], [undefined] or the empty string,
    so a string that reaches the search client is not empty.  A translation
    whose query is the empty string is handled as one whose query is
    absent: no call of the search client, and a failure that depends on
    the explanation alone, made of the input and the explanation when the
    explanation renders as text and of the message of the [TypeError] when
    it does not.  A truthy query, string or not, reaches the search client
    in the tool handler always, and in the coordinator exactly when the
    query and the explanation render as text. *)
Theorem search_called_with_truthy_query (engine : Engine) (prompt : Prompt)
        (net : Remote) (llmConfig : LLMConfig) (fofaConfig : FofaConfig)
        (userInput : jstring) (resultSize : option Z) (log : list Event) :
  let request := buildRequest engine llmConfig (buildPrompt prompt userInput) in
  let translated :=
    convertTextToFofaQuery engine prompt net llmConfig userInput log in
  let size := match resultSize with Some n => n | None => 50%Z end in
  exists out new out' new',
    processUserQuery engine prompt net llmConfig fofaConfig userInput resultSize log
    = (out, log ++ new)
    /\ handleNaturalLanguageQuery engine prompt net llmConfig fofaConfig
         userInput resultSize log
       = (out', log ++ new')
    /\ (forall q size page,
           In (SearchCalled q size page) new \/ In (SearchCalled q size page) new' ->
           truthy q = true /\ q <> VString [] /\ ~ absent q)
    /\ (forall r l1,
           translated = (Ret r, l1) ->
           fofa_query r = VString [] \/ absent (fofa_query r) ->
           new = [Posted request] /\ new' = [Posted request]
           /\ match ToString engine (explanation r) with
              | Ret text =>
                  out = Ret (failed (msg_not_understood ++ userInput
                                     ++ [dq; newline] ++ text))
                  /\ out' = Ret (Plain (msg_tool_not_understood ++ userInput
                                        ++ [dq; newline] ++ text))
              | Throw _ =>
                  out = Ret (failed (fault_message engine NotPrimitive))
                  /\ out' = Ret (Plain (msg_tool_failed
                                        ++ fault_message engine NotPrimitive))
              end)
    /\ (forall r l1,
           translated = (Ret r, l1) -> truthy (fofa_query r) = true ->
           In (SearchCalled (fofa_query r) size 1) new'
           /\ (In (SearchCalled (fofa_query r) size 1) new <->
               exists queryText explanationText,
                 ToString engine (fofa_query r) = Ret queryText
                 /\ ToString engine (explanation r) = Ret explanationText)).
Proof.
  intros request translated size; subst translated.
  rewrite processUserQuery_cases, handleNaturalLanguageQuery_cases.
  fold size.
  destruct (convertTextToFofaQuery engine prompt net llmConfig userInput log)
    as [[r|e] l1] eqn:Et;
    pose proof (convert_log _ _ _ _ _ _ Et) as Hl1; fold request in Hl1; subst l1.
  - destruct (truthy (fofa_query r)) eqn:Etruthy.
    + destruct (executeFofaQuery_log engine net fofaConfig (fofa_query r)
                  (Some size) None (log ++ [Posted request]))
        as (o & rest & He & Hrest & _).
      rewrite He.
      set (called := [Posted request]
                     ++ SearchCalled (fofa_query r) size 1 :: rest).
      assert (Hcalled : (log ++ [Posted request])
                        ++ SearchCalled (fofa_query r) size 1 :: rest
                        = log ++ called)
        by (unfold called; now rewrite app_assoc).
      rewrite Hcalled.
      assert (Hin : In (SearchCalled (fofa_query r) size 1) called)
        by (unfold called; simpl; auto).
      assert (Htruthy : forall q sz pg,
                 In (SearchCalled q sz pg) called ->
                 truthy q = true /\ q <> VString [] /\ ~ absent q).
      { intros q sz pg H.
        apply (in_search_events Hrest) in H. subst q.
        split; [exact Etruthy|now apply truthy_facts]. }
      assert (Hfalsy : forall r0 (l0 : list Event),
                 (Ret r, log ++ [Posted request]) = (Ret r0, l0) ->
                 fofa_query r0 = VString [] \/ absent (fofa_query r0) -> False).
      { intros r0 l0 H Hq; injection H as <- _.
        apply falsy_empty_or_absent in Hq; congruence. }
      destruct o as [records|e0];
        (destruct (ToString engine (fofa_query r)) as [qt|eq] eqn:Eq;
         [destruct (ToString engine (explanation r)) as [et|ee] eqn:Ee|]);
        rewrite ?formatQueryResult_cases; cbn [qr_query qr_explanation];
        rewrite ?Eq, ?Ee;
        (eexists; eexists; eexists; eexists;
         split; [reflexivity|]; split; [reflexivity|];
         split; [intros q sz pg [H|H];
                 first [eapply Htruthy; exact H|destruct (not_in_posted H)]|];
         split; [intros r0 l0 H Hq; destruct (Hfalsy r0 l0 H Hq)|];
         intros r0 l0 H _; injection H as <- _;
         split; [exact Hin|];
         split; [first [solve [intros _; eauto]
                       |intros H; destruct (not_in_posted H)]
                |first [intros _; exact Hin
                       |intros (qt0 & et0 & H1 & H2); congruence]]).
    + destruct (ToString engine (explanation r)) as [et|ee] eqn:Ee.
      * eexists; exists [Posted request]; eexists; exists [Posted request].
        split; [reflexivity|]. split; [reflexivity|].
        split; [intros q sz pg [H|H]; destruct (not_in_posted H)|].
        split.
        -- intros r0 l0 H _; injection H as <- _.
           rewrite Ee. repeat split; reflexivity.
        -- intros r0 l0 H Ht; injection H as <- _; congruence.
      * pose proof Ee as Hm; apply ToString_throws in Hm; subst ee.
        eexists; exists [Posted request]; eexists; exists [Posted request].
        split; [reflexivity|]. split; [reflexivity|].
        split; [intros q sz pg [H|H]; destruct (not_in_posted H)|].
        split.
        -- intros r0 l0 H _; injection H as <- _.
           rewrite Ee. repeat split; reflexivity.
        -- intros r0 l0 H Ht; injection H as <- _; congruence.
  - eexists; exists [Posted request]; eexists; exists [Posted request].
    split; [reflexivity|]. split; [reflexivity|].
    split; [intros q sz pg [H|H]; destruct (not_in_posted H)|].
    split; intros r0 l0 H; discriminate H.
Qed.

(** ** The scenarios of the specification, run *)

(** The fenced object comes back as it was written. *)
Example fenced_round_trip :
  extract sample_engine fenced_text
  = Ret {| fofa_query := VString nginx_query; explanation := VString (str "x") |}.
Proof. vm_compute; reflexivity. Qed.

(** Scenario 1: a fenced completion, two rows found. *)
Example scenario_found :
  fst (processUserQuery sample_engine sample_prompt
         (sample_remote (Ret (completion nginx_us_text)) (Ret two_rows))
         sample_llm_config sample_fofa_config
         (str "find nginx servers in the US") None [])
  = Ret {| success := true;
           data := Some [{| ip := str "1.1.1.1"; port := str "80";
                            title := str "Welcome to nginx!";
                            host := str "a.example" |};
                         {| ip := str "2.2.2.2"; port := str "443";
                            title := []; host := [] |}];
           error := None;
           query := Some (VString nginx_us_query);
           explanation_ := Some (VString (str "...")) |}.
Proof. vm_compute; reflexivity. Qed.

(** Scenario 2: the model declines; no call of the search client. *)
Example scenario_declined :
  processUserQuery sample_engine sample_prompt
    (sample_remote (Ret (completion ambiguous_text)) (Ret two_rows))
    sample_llm_config sample_fofa_config (str "find things") None []
  = (Ret (failed (msg_not_understood ++ str "find things" ++ [dq; newline]
                  ++ str "ambiguous request")),
     [Posted (buildRequest sample_engine sample_llm_config
                (buildPrompt sample_prompt (str "find things")))]).
Proof. vm_compute; reflexivity. Qed.

(** Scenario 3: the search service answers 401. *)
Example scenario_unauthorized :
  fst (processUserQuery sample_engine sample_prompt
         (sample_remote (Ret (completion nginx_us_text)) (Throw unauthorized))
         sample_llm_config sample_fofa_config
         (str "find nginx servers in the US") None [])
  = Ret (failed msg_auth).
Proof. vm_compute; reflexivity. Qed.

(** The line scan, reached when the pattern scrape finds nothing: the value
    is cut in the same way. *)
Example line_scan_recovers :
  match_ (re_pair (str "fofa_query")) bare_keys_text = None
  /\ extract sample_engine bare_keys_text
     = Ret {| fofa_query := VString (str "country=" ++ [bslash]);
              explanation := VString (str "y") |}.
Proof. split; vm_compute; reflexivity. Qed.

(** A time-out of the completion call, and an envelope of neither shape. *)
Example translation_timed_out :
  fst (convertTextToFofaQuery sample_engine sample_prompt
         (sample_remote (Throw timed_out) (Ret no_rows))
         sample_llm_config (str "find") [])
  = Throw (ErrorObj (msg_llm_failed ++ str "timeout of 300000ms exceeded")).
Proof. vm_compute; reflexivity. Qed.

Example translation_bad_envelope :
  fst (convertTextToFofaQuery sample_engine sample_prompt
         (sample_remote (Ret (VObject [])) (Ret no_rows))
         sample_llm_config (str "find") [])
  = Throw (ErrorObj (msg_llm_failed ++ msg_bad_envelope)).
Proof. vm_compute; reflexivity. Qed.

(** An unbalanced query is refused before any request. *)
Example invalid_query_refused :
  executeFofaQuery sample_engine
    (sample_remote (Ret (VObject [])) (Ret two_rows))
    sample_fofa_config (VString (quoted "app='nginx")) None None []
  = (Throw (ErrorObj (msg_invalid_query ++ quoted "app='nginx")),
     [SearchCalled (VString (quoted "app='nginx")) 100 1]).
Proof. vm_compute; reflexivity. Qed.

(** * Further properties of the code *)

Unset Implicit Arguments.

(** ** The fence stripping of [convertTextToFofaQuery] *)

Lemma dropWhile_split (p : char -> bool) (s : jstring) :
  exists w, s = w ++ dropWhile p s /\ forallb p w = true.
Proof.
  induction s as [|c s (w & Hs & Hw)]; simpl.
  - exists []; auto.
  - destruct (p c) eqn:E.
    + exists (c :: w); simpl; rewrite E, Hw; split; [now f_equal|reflexivity].
    + exists []; auto.
Qed.

Lemma dropWhile_app_stop (p : char -> bool) (b : jstring) (x : char) (t : jstring) :
  p x = false -> dropWhile p (b ++ x :: t) = dropWhile p b ++ x :: t.
Proof.
  intros Hx; induction b as [|c b IH]; simpl.
  - now rewrite Hx.
  - destruct (p c); [exact IH|reflexivity].
Qed.

Lemma dropWhile_all (p : char -> bool) (w s : jstring) :
  forallb p w = true -> dropWhile p (w ++ s) = dropWhile p s.
Proof.
  induction w as [|c w IH]; simpl; [reflexivity|].
  intros H; apply andb_true_iff in H; destruct H as [Hc Hw].
  rewrite Hc; auto.
Qed.

Lemma trimEnd_split (u : jstring) :
  exists w, u = trimEnd u ++ w /\ forallb isWhiteSpace w = true
            /\ no_trailing_space (trimEnd u).
Proof.
  unfold trimEnd.
  destruct (dropWhile_split isWhiteSpace (rev u)) as (w & Hs & Hw).
  exists (rev w); repeat split.
  - rewrite <- rev_app_distr, <- Hs; symmetry; apply rev_involutive.
  - now rewrite forallb_rev.
  - intros a1 a2 Ha Hne.
    apply (f_equal (@rev char)) in Ha; rewrite rev_involutive, rev_app_distr in Ha.
    rewrite <- forallb_rev.
    destruct (rev a2) as [|c r] eqn:Er.
    + apply (f_equal (@rev char)) in Er; rewrite rev_involutive in Er; now subst.
    + simpl in Ha. apply dropWhile_head in Ha. simpl; now rewrite Ha.
Qed.

(** The closing expression matches at a place exactly when what is left
    there is whitespace and the fence. *)
Lemma run_fence_close (s : jstring) caps rest :
  run (body re_fence_close) s = Some (caps, rest) ->
  caps = [] /\ rest = [] /\ exists m, forallb isWhiteSpace m = true /\ s = m ++ fence.
Proof.
  unfold re_fence_close; cbn [body app lits map fence].
  simpl run.
  destruct (greedy isWhiteSpace _ s) as [[m [caps' rest']]|] eqn:E; [|discriminate].
  simpl; intros H; injection H as <- <-.
  destruct (greedy_sound _ _ _ E) as (Hm & t & -> & Hk).
  destruct t as [|c1 [|c2 [|c3 [|c4 t]]]]; simpl in Hk;
    repeat match type of Hk with
           | (if ?b then _ else _) = _ => destruct b eqn:?; [|discriminate]
           | None = _ => discriminate
           end; try discriminate.
  injection Hk as <- <-.
  repeat match goal with
         | H : (_ =? _)%N = true |- _ => apply N.eqb_eq in H; subst
         end.
  repeat split. exists m; auto.
Qed.

Lemma run_fence_close_at (w : jstring) :
  forallb isWhiteSpace w = true ->
  run (body re_fence_close) (w ++ fence) = Some ([], []).
Proof.
  intros Hw. unfold re_fence_close; cbn [body app lits map fence].
  apply run_star; [exact Hw|reflexivity|reflexivity].
Qed.

Lemma search_fence_close (a w : jstring) :
  no_trailing_space a -> forallb isWhiteSpace w = true ->
  search (body re_fence_close) (a ++ w ++ fence) = Some (a, [], []).
Proof.
  intros Ha Hw; induction a as [|x a IH].
  - simpl app. apply search_at_head, run_fence_close_at, Hw.
  - destruct (run (body re_fence_close) ((x :: a) ++ w ++ fence))
      as [[caps rest]|] eqn:E.
    + exfalso. apply run_fence_close in E. destruct E as (_ & _ & m & Hm & Hs).
      rewrite app_assoc in Hs. apply app_inv_tail in Hs.
      assert (Hx : forallb isWhiteSpace (x :: a) = false)
        by (apply (Ha [] (x :: a)); [reflexivity|discriminate]).
      rewrite <- Hs, forallb_app in Hm.
      apply andb_true_iff in Hm; destruct Hm as [Hm _]. congruence.
    + change (search (body re_fence_close) ((x :: a) ++ w ++ fence))
        with (match run (body re_fence_close) ((x :: a) ++ w ++ fence) with
              | Some (caps, rest) => Some ([], caps, rest)
              | None =>
                  match search (body re_fence_close) (a ++ w ++ fence) with
                  | Some (pre, caps, rest) => Some (x :: pre, caps, rest)
                  | None => None
                  end
              end).
      rewrite E, IH; [reflexivity|].
      intros a1 a2 Hsplit Hne. apply (Ha (x :: a1) a2); [|exact Hne].
      simpl; now f_equal.
Qed.

(** On a text that ends in the fence, the closing expression takes the
    fence and the whitespace before it, and nothing else. *)
Lemma replace_fence_close (u : jstring) :
  replace_empty re_fence_close (u ++ fence) = trimEnd u.
Proof.
  destruct (trimEnd_split u) as (w & Hu & Hw & Ha).
  remember (trimEnd u) as a eqn:Heqa; clear Heqa; subst u.
  unfold replace_empty, exec; cbn [anchored].
  rewrite <- app_assoc, (search_fence_close _ _ Ha Hw).
  apply app_nil_r.
Qed.

Lemma greedy_all_dropWhile (p : char -> bool) (s : jstring) :
  exists m, greedy p (run []) s = Some (m, ([], dropWhile p s)).
Proof.
  induction s as [|c s [m IH]]; simpl.
  - exists []; reflexivity.
  - destruct (p c).
    + simpl in IH; rewrite IH. eexists; reflexivity.
    + eexists; reflexivity.
Qed.

(** An opening expression, a literal and then whitespace, takes the
    literal and the whitespace after it. *)
Lemma replace_fence_open (lit rest : jstring) :
  replace_empty {| anchored := true; body := lits lit ++ [Star isWhiteSpace] |}
                (lit ++ rest)
  = trimStart rest.
Proof.
  unfold replace_empty, exec; cbn [anchored body].
  rewrite run_lits. simpl run.
  destruct (greedy_all_dropWhile isWhiteSpace rest) as [m Hm].
  simpl in Hm; rewrite Hm; reflexivity.
Qed.

Lemma startsWith_app (a s : jstring) : startsWith (a ++ s) a = true.
Proof.
  induction a as [|c a IH]; simpl; [destruct s; reflexivity|now rewrite N.eqb_refl].
Qed.

Lemma startsWith_app_inv (a b s : jstring) :
  startsWith (a ++ s) (a ++ b) = startsWith s b.
Proof. induction a as [|c a IH]; simpl; [reflexivity|now rewrite N.eqb_refl]. Qed.

Lemma trim_pad (p1 p2 mid : jstring) (x y : char) :
  forallb isWhiteSpace p1 = true -> forallb isWhiteSpace p2 = true ->
  isWhiteSpace x = false -> isWhiteSpace y = false ->
  trim (p1 ++ (x :: mid ++ [y]) ++ p2) = x :: mid ++ [y].
Proof.
  intros H1 H2 Hx Hy. unfold trim, trimStart, trimEnd.
  rewrite dropWhile_all by exact H1.
  replace (dropWhile isWhiteSpace ((x :: mid ++ [y]) ++ p2))
    with ((x :: mid ++ [y]) ++ p2) by (simpl; now rewrite Hx).
  rewrite rev_app_distr, dropWhile_all by (now rewrite forallb_rev).
  replace (rev (x :: mid ++ [y])) with (y :: rev mid ++ [x])
    by (simpl; now rewrite rev_app_distr).
  replace (dropWhile isWhiteSpace (y :: rev mid ++ [x])) with (y :: rev mid ++ [x])
    by (simpl; now rewrite Hy).
  simpl. rewrite rev_app_distr, rev_involutive. reflexivity.
Qed.

(** Whitespace around a text that begins and ends with the fence is all
    that [trim] removes. *)
Lemma trim_fenced (p1 p2 inner : jstring) :
  forallb isWhiteSpace p1 = true -> forallb isWhiteSpace p2 = true ->
  trim (p1 ++ (fence ++ inner ++ fence) ++ p2) = fence ++ inner ++ fence.
Proof.
  intros H1 H2.
  replace (fence ++ inner ++ fence)
    with (backtick :: ([backtick; backtick] ++ inner ++ [backtick; backtick])
                   ++ [backtick])
    by (unfold fence; simpl; f_equal; f_equal; f_equal;
        rewrite <- app_assoc; reflexivity).
  apply trim_pad; auto.
Qed.

Lemma cleanContent_tagged (p1 p2 inner : jstring) :
  forallb isWhiteSpace p1 = true -> forallb isWhiteSpace p2 = true ->
  cleanContent (p1 ++ (fence ++ str "json" ++ inner ++ fence) ++ p2) = trim inner.
Proof.
  intros H1 H2. unfold cleanContent.
  replace (fence ++ str "json" ++ inner ++ fence)
    with (fence ++ (str "json" ++ inner) ++ fence) by (now rewrite <- app_assoc).
  rewrite trim_fenced by assumption.
  replace (fence ++ (str "json" ++ inner) ++ fence)
    with ((fence ++ str "json") ++ inner ++ fence) by (now rewrite <- !app_assoc).
  rewrite startsWith_app.
  unfold re_fence_json; rewrite replace_fence_open.
  unfold trimStart.
  change (inner ++ fence) with (inner ++ backtick :: [backtick; backtick]).
  rewrite dropWhile_app_stop by reflexivity.
  apply (replace_fence_close (dropWhile isWhiteSpace inner)).
Qed.

(** X1.  A text wrapped in a fence, with or without the tag [json] and
    with whitespace around it, is cleaned to what stands between the
    fences, trimmed.  A tag other than [json] is part of that text and
    stays. *)
Theorem cleanContent_fenced (p1 p2 inner : jstring) :
  forallb isWhiteSpace p1 = true -> forallb isWhiteSpace p2 = true ->
  cleanContent (p1 ++ (fence ++ str "json" ++ inner ++ fence) ++ p2) = trim inner
  /\ (startsWith (inner ++ fence) (str "json") = false ->
      cleanContent (p1 ++ (fence ++ inner ++ fence) ++ p2) = trim inner).
Proof.
  intros H1 H2; split.
  - now apply cleanContent_tagged.
  - intros Hjson. unfold cleanContent.
    rewrite trim_fenced by assumption.
    rewrite startsWith_app_inv, Hjson.
    rewrite (startsWith_app fence (inner ++ fence)).
    unfold re_fence_open; rewrite replace_fence_open.
    unfold trimStart.
    change (inner ++ fence) with (inner ++ backtick :: [backtick; backtick]).
    rewrite dropWhile_app_stop by reflexivity.
    apply (replace_fence_close (dropWhile isWhiteSpace inner)).
Qed.

(** X1 on the fenced text of the round trip. *)
Lemma cleanContent_fenced_witness :
  cleanContent ([] ++ (fence ++ str "json"
                       ++ ([newline]
                           ++ quoted "{'fofa_query':'app=\'nginx\'','explanation':'x'}"
                           ++ [newline])
                       ++ fence) ++ [])
  = trim ([newline]
          ++ quoted "{'fofa_query':'app=\'nginx\'','explanation':'x'}"
          ++ [newline]).
Proof.
  apply (proj1 (cleanContent_fenced [] []
                  ([newline]
                   ++ quoted "{'fofa_query':'app=\'nginx\'','explanation':'x'}"
                   ++ [newline])
                  eq_refl eq_refl)).
Defined.

(** X2.  A JSON object wrapped in a fence tagged [json], with whitespace
    around it and inside the fences, comes back from the extraction as its
    two members: the round trip of a fenced answer. *)
Theorem fenced_object_round_trip (engine : Engine) (p1 p2 inner : jstring)
        (props : list (jstring * value)) :
  forallb isWhiteSpace p1 = true -> forallb isWhiteSpace p2 = true ->
  JSON.parse (trim inner) = Some (VObject props) ->
  extract engine (p1 ++ (fence ++ str "json" ++ inner ++ fence) ++ p2)
  = Ret {| fofa_query := lookup (str "fofa_query") props;
           explanation := lookup (str "explanation") props |}.
Proof.
  intros H1 H2 Hparse.
  pose proof (strictParse_cases engine
                (p1 ++ (fence ++ str "json" ++ inner ++ fence) ++ p2)) as H.
  rewrite (cleanContent_tagged p1 p2 inner H1 H2), Hparse in H.
  unfold extract; rewrite H; reflexivity.
Qed.

(** X2 on the fenced answer of the specification. *)
Lemma fenced_object_round_trip_witness :
  extract sample_engine
    ([] ++ (fence ++ str "json"
            ++ ([newline]
                ++ quoted "{'fofa_query':'app=\'nginx\'','explanation':'x'}"
                ++ [newline])
            ++ fence) ++ [])
  = Ret {| fofa_query :=
             lookup (str "fofa_query")
                    [(str "fofa_query", VString nginx_query);
                     (str "explanation", VString (str "x"))];
           explanation :=
             lookup (str "explanation")
                    [(str "fofa_query", VString nginx_query);
                     (str "explanation", VString (str "x"))] |}.
Proof.
  apply (fenced_object_round_trip sample_engine [] []
           ([newline]
            ++ quoted "{'fofa_query':'app=\'nginx\'','explanation':'x'}"
            ++ [newline])
           [(str "fofa_query", VString nginx_query);
            (str "explanation", VString (str "x"))]
           eq_refl eq_refl).
  vm_compute; reflexivity.
Defined.

(** ** Reading the envelope ([extractContent]) *)

Lemma read_nullish (v : value) (a : accessor) :
  v = VUndefined \/ v = VNull -> read v a = VUndefined.
Proof. intros [->| ->]; destruct a; reflexivity. Qed.

Lemma at_path_undefined (path : list accessor) :
  at_path VUndefined path = VUndefined.
Proof.
  induction path as [|a path IH]; [reflexivity|].
  unfold at_path in *; simpl. now destruct a.
Qed.

Lemma at_path_cons (v : value) (a : accessor) (path : list accessor) :
  at_path v (a :: path) = at_path (read v a) path.
Proof. reflexivity. Qed.

(** A path that ends in a string starts from a value that can be read. *)
Lemma at_path_readable (v : value) (a : accessor) (path : list accessor) s :
  at_path v (a :: path) = VString s -> v <> VUndefined /\ v <> VNull.
Proof.
  rewrite at_path_cons; intros H.
  split; intros ->; rewrite read_nullish in H by auto;
    rewrite at_path_undefined in H; discriminate.
Qed.

Lemma get_prop_defined (engine : Engine) (v : value) (key : jstring) :
  v <> VUndefined -> v <> VNull ->
  get_prop engine v key = Ret (read v (Field key)).
Proof. destruct v; simpl; intros H1 H2; congruence. Qed.

Lemma get_index0_defined (engine : Engine) (v : value) :
  v <> VUndefined -> v <> VNull ->
  get_index0 engine v = Ret (read v First).
Proof. destruct v; simpl; intros H1 H2; congruence. Qed.

Lemma read_truthy_source (v : value) (a : accessor) :
  read v a <> VUndefined -> truthy v = true.
Proof.
  destruct a, v as [| |b|n|s|items|props]; simpl; try congruence.
  destruct s; congruence.
Qed.

Ltac read_step H :=
  let Hr := fresh "Hr" in
  pose proof (at_path_readable _ _ _ _ H) as Hr; destruct Hr;
  rewrite at_path_cons in H.

(** X3.  From an envelope with a string at [candidates[0].content.parts[0].text]
    the text read is that string, trimmed; from an envelope whose
    [candidates] or [candidates[0]] is falsy and that has a string at
    [choices[0].message.content], it is that string, trimmed. *)
Theorem extractContent_reads (engine : Engine) (responseData : value)
        (s : jstring) :
  (at_path responseData candidates_path = VString s ->
   extractContent engine responseData = Ret (trim s))
  /\ (truthy (read responseData (Field (str "candidates"))) = false
      \/ truthy (read (read responseData (Field (str "candidates"))) First) = false ->
      at_path responseData choices_path = VString s ->
      extractContent engine responseData = Ret (trim s)).
Proof.
  split.
  - intros H. unfold candidates_path in H.
    assert (H0 := H).
    read_step H. set (v1 := read responseData (Field (str "candidates"))) in *.
    read_step H. set (v2 := read v1 First) in *.
    read_step H. set (v3 := read v2 (Field (str "content"))) in *.
    read_step H. set (v4 := read v3 (Field (str "parts"))) in *.
    read_step H. set (v5 := read v4 First) in *.
    read_step H. set (v6 := read v5 (Field (str "text"))) in *.
    change (v6 = VString s) in H.
    assert (T1 : truthy v1 = true)
      by (apply (read_truthy_source v1 First); fold v2; congruence).
    assert (T2 : truthy v2 = true)
      by (apply (read_truthy_source v2 (Field (str "content"))); fold v3; congruence).
    unfold extractContent, first_of.
    rewrite (get_prop_defined engine _ (str "candidates")) by assumption.
    fold v1; simpl bind; rewrite T1.
    rewrite (get_index0_defined engine) by assumption.
    fold v2; simpl bind; rewrite T2.
    rewrite (get_prop_defined engine _ (str "content")) by assumption.
    fold v3; simpl bind.
    rewrite (get_prop_defined engine _ (str "parts")) by assumption.
    fold v4; simpl bind.
    rewrite (get_index0_defined engine) by assumption.
    fold v5; simpl bind.
    rewrite (get_prop_defined engine _ (str "text")) by assumption.
    fold v6; simpl bind. rewrite H; reflexivity.
  - intros Hfalsy H. unfold choices_path in H.
    read_step H. set (c := read responseData (Field (str "candidates"))) in *.
    set (v1 := read responseData (Field (str "choices"))) in *.
    read_step H. set (v2 := read v1 First) in *.
    read_step H. set (v3 := read v2 (Field (str "message"))) in *.
    read_step H. set (v4 := read v3 (Field (str "content"))) in *.
    change (v4 = VString s) in H.
    assert (T1 : truthy v1 = true)
      by (apply (read_truthy_source v1 First); fold v2; congruence).
    assert (T2 : truthy v2 = true)
      by (apply (read_truthy_source v2 (Field (str "message"))); fold v3; congruence).
    assert (Hc : exists c', first_of engine responseData (str "candidates") = Ret c'
                            /\ truthy c' = false).
    { unfold first_of.
      rewrite (get_prop_defined engine _ (str "candidates")) by assumption.
      fold c; simpl bind.
      destruct (truthy c) eqn:Tc.
      - destruct Hfalsy as [Hf|Hf]; [congruence|].
        assert (c <> VUndefined /\ c <> VNull) as [? ?]
          by (split; intros E; rewrite E in Tc; discriminate).
        rewrite (get_index0_defined engine) by assumption. eauto.
      - eauto. }
    destruct Hc as (c' & Hc' & Tc').
    unfold extractContent. rewrite Hc'; simpl bind; rewrite Tc'.
    unfold first_of.
    rewrite (get_prop_defined engine _ (str "choices")) by assumption.
    fold v1; simpl bind; rewrite T1.
    rewrite (get_index0_defined engine) by assumption.
    fold v2; simpl bind; rewrite T2.
    rewrite (get_prop_defined engine _ (str "message")) by assumption.
    fold v3; simpl bind.
    rewrite (get_prop_defined engine _ (str "content")) by assumption.
    fold v4; simpl bind. rewrite H; reflexivity.
Qed.

(** X3 on an envelope of each shape. *)
Lemma extractContent_reads_witness :
  extractContent sample_engine
    (VObject [(str "candidates",
               VArray [VObject [(str "content",
                 VObject [(str "parts",
                   VArray [VObject [(str "text", VString (str " a=b "))]])])]])])
  = Ret (trim (str " a=b "))
  /\ extractContent sample_engine (completion (str " a=b ")) = Ret (trim (str " a=b ")).
Proof.
  split.
  - apply (proj1 (extractContent_reads sample_engine _ (str " a=b "))).
    reflexivity.
  - apply (proj2 (extractContent_reads sample_engine _ (str " a=b "))).
    + left; reflexivity.
    + reflexivity.
Defined.

(** X4.  The first shape shadows the second: when [candidates[0]] is
    truthy and there is no string at [candidates[0].content.parts[0].text],
    the read throws, whatever stands under [choices]. *)
Theorem candidates_shadow_choices (engine : Engine) (responseData : value) :
  truthy (read responseData (Field (str "candidates"))) = true ->
  truthy (read (read responseData (Field (str "candidates"))) First) = true ->
  ~ has_text responseData candidates_path ->
  exists cause, extractContent engine responseData = Throw (ErrorObj cause).
Proof.
  intros T1 T2 Hno.
  destruct (extractContent engine responseData) as [s|e] eqn:E.
  - exfalso.
    assert (Hshape : has_text responseData candidates_path
                     \/ has_text responseData choices_path)
      by (eapply extractContent_ret; exact E).
    destruct Hshape as [Hshape|Hshape]; [now apply Hno|].
    unfold extractContent, first_of in E.
    assert (Hd : responseData <> VUndefined /\ responseData <> VNull)
      by (split; intros ->; discriminate).
    destruct Hd as [Hd1 Hd2].
    set (c := read responseData (Field (str "candidates"))) in *.
    assert (Hc : c <> VUndefined /\ c <> VNull)
      by (split; intros Hx; rewrite Hx in T1; discriminate).
    destruct Hc as [Hc1 Hc2].
    rewrite (get_prop_defined engine _ (str "candidates") Hd1 Hd2) in E.
    fold c in E. cbn [bind] in E. rewrite T1 in E.
    rewrite (get_index0_defined engine _ Hc1 Hc2) in E.
    cbn [bind] in E. rewrite T2 in E.
    repeat (apply bind_ret in E; destruct E as (? & ? & E)).
    repeat match goal with
           | H : get_prop _ _ _ = Ret _ |- _ => apply get_prop_read in H
           | H : get_index0 _ _ = Ret _ |- _ => apply get_index0_read in H
           end.
    apply call_trim_string in E; destruct E as [t Ht].
    apply Hno; exists t. rewrite <- Ht; clear Ht; subst; reflexivity.
  - destruct (@extractContent_throws engine responseData e E) as [cause ->]; eauto.
Qed.

(** X4 on an envelope that holds both a truthy [candidates[0]] without
    text and a well-formed [choices]. *)
Lemma candidates_shadow_choices_witness :
  exists cause,
    extractContent sample_engine
      (VObject [(str "candidates", VArray [VObject []]);
                (str "choices",
                 VArray [VObject [(str "message",
                                   VObject [(str "content", VString (str "x"))])]])])
    = Throw (ErrorObj cause).
Proof.
  apply candidates_shadow_choices.
  - reflexivity.
  - reflexivity.
  - intros [s H]; vm_compute in H; discriminate H.
Defined.

(** ** The translation as a whole ([convertTextToFofaQuery]) *)

(** X5.  Whatever the completion service does, a translation makes exactly
    one request and no call of the search service.  The request goes to
    the configured URL with the key as bearer token, and its one message
    holds the text of the user unchanged.  Whatever the translation throws
    is an [Error] whose message begins with "LLM服务调用失败: ". *)
Theorem translation_one_request (engine : Engine) (prompt : Prompt)
        (net : Remote) (config : LLMConfig) (userInput : jstring)
        (log : list Event) :
  exists out request,
    convertTextToFofaQuery engine prompt net config userInput log
    = (out, log ++ [Posted request])
    /\ url request = apiUrl config
    /\ authorization request = str "Bearer " ++ llmApiKey config
    /\ infix userInput (content request)
    /\ forall e, out = Throw e ->
                 exists cause, e = ErrorObj (msg_llm_failed ++ cause).
Proof.
  pose proof (convert_cases engine prompt net config userInput log) as E;
    cbv zeta in E.
  set (request := buildRequest engine config (buildPrompt prompt userInput)) in *.
  set (inner := (responseData <- axios_post net request ;;
                 content <- extractContent engine responseData ;;
                 extract engine content)) in *.
  exists (match inner with
          | Ret r => Ret r
          | Throw e => Throw (ErrorObj (msg_llm_failed ++ message_of e))
          end), request.
  split; [exact E|].
  assert (Hreq : url request = apiUrl config
                 /\ authorization request = str "Bearer " ++ llmApiKey config
                 /\ content request = buildPrompt prompt userInput).
  { subst request; unfold buildRequest.
    destruct (includes (toLowerCase engine (apiUrl config)) (str "siliconflow.cn"));
      repeat split. }
  destruct Hreq as (Hu & Ha & Hc).
  split; [exact Hu|]. split; [exact Ha|]. split.
  - rewrite Hc. unfold buildPrompt. apply infix_middle.
  - intros e. destruct inner as [r|e'].
    + discriminate.
    + intros H; injection H as <-. exists (message_of e'); reflexivity.
Qed.

(** X6.  Once the envelope of the completion can be read, the translation
    returns: it returns what the extraction makes of the text read, and the
    extraction always makes a result. *)
Theorem readable_envelope_translates (engine : Engine) (prompt : Prompt)
        (net : Remote) (config : LLMConfig) (userInput : jstring)
        (log : list Event) (responseData : value) (text : jstring) :
  axios_post net (buildRequest engine config (buildPrompt prompt userInput))
  = Ret responseData ->
  extractContent engine responseData = Ret text ->
  exists r,
    extract engine text = Ret r
    /\ fst (convertTextToFofaQuery engine prompt net config userInput log) = Ret r.
Proof.
  intros Hpost Hread.
  pose proof (convert_cases engine prompt net config userInput log) as E;
    cbv zeta in E.
  rewrite E, Hpost; simpl. rewrite Hread; simpl.
  destruct (extract_cases engine text) as (r & Hr & _).
  exists r; rewrite Hr; auto.
Qed.

(** X6 on a completion that is prose: the translation returns the
    parse-failure result. *)
Lemma readable_envelope_translates_witness :
  exists r,
    extract sample_engine (str "I cannot help") = Ret r
    /\ fst (convertTextToFofaQuery sample_engine sample_prompt
              (sample_remote (Ret (completion (str "I cannot help"))) (Ret no_rows))
              sample_llm_config (str "find") [])
       = Ret r.
Proof.
  apply (readable_envelope_translates sample_engine sample_prompt
           (sample_remote (Ret (completion (str "I cannot help"))) (Ret no_rows))
           sample_llm_config (str "find") []
           (completion (str "I cannot help")) (str "I cannot help"));
    reflexivity.
Defined.

(** ** The recovery from the text ([extractFromText]) *)

(** A match holds every literal character of the expression. *)
Lemma run_needs_literal (pat : pattern) :
  forall s caps rest c,
    run pat s = Some (caps, rest) -> In (Chr c) pat -> In c s.
Proof.
  induction pat as [|it k IH]; intros s caps rest c Hrun Hin; [destruct Hin|].
  assert (Hk : forall m t caps' rest',
             s = m ++ t -> run k t = Some (caps', rest') ->
             In (Chr c) k -> In c s).
  { intros m t caps' rest' -> Ht Hc. apply in_or_app; right. eapply IH; eauto. }
  destruct it as [c0|p|p|p|p|]; simpl in Hrun.
  - destruct s as [|x xs]; [discriminate|].
    destruct (x =? c0)%N eqn:E; [|discriminate]. apply N.eqb_eq in E; subst x.
    destruct Hin as [Hin|Hin]; [injection Hin as ->; now left|].
    right; eapply IH; eauto.
  - destruct s as [|x xs]; [discriminate|].
    destruct (p x); [|discriminate].
    destruct Hin as [Hin|Hin]; [discriminate|]. right; eapply IH; eauto.
  - destruct (greedy p (run k) s) as [[m [caps' rest']]|] eqn:E; [|discriminate].
    destruct (greedy_sound _ _ _ E) as (_ & t & Hs & Ht).
    destruct Hin as [Hin|Hin]; [discriminate|]. eapply Hk; eauto.
  - destruct (greedy p (run k) s) as [[m [caps' rest']]|] eqn:E; [|discriminate].
    destruct (greedy_sound _ _ _ E) as (_ & t & Hs & Ht).
    destruct Hin as [Hin|Hin]; [discriminate|]. eapply Hk; eauto.
  - destruct (greedy p (run k) s) as [[m [caps' rest']]|] eqn:E; [|discriminate].
    destruct (greedy_sound _ _ _ E) as (_ & t & Hs & Ht).
    destruct Hin as [Hin|Hin]; [discriminate|]. eapply Hk; eauto.
  - destruct s as [|x xs]; [|discriminate].
    destruct Hin as [Hin|Hin]; [discriminate|]. eapply IH; eauto.
Qed.

Lemma match_needs_literal (r : regex) (s : jstring) (c : char) :
  anchored r = false -> In (Chr c) (body r) -> ~ In c s -> match_ r s = None.
Proof.
  intros Ha Hc Hs. unfold match_, exec; rewrite Ha.
  destruct (search (body r) s) as [[[pre caps] rest]|] eqn:E; [|reflexivity].
  exfalso; apply Hs.
  destruct (search_sound _ _ E) as (consumed & -> & Hrun & _).
  apply in_or_app; right. eapply run_needs_literal; eauto.
Qed.

Lemma re_pair_literals (key : jstring) (c : char) :
  c = dq \/ c = colon -> In (Chr c) (body (re_pair key)).
Proof.
  intros H. unfold re_pair; cbn [body]. apply in_or_app; right.
  destruct H as [->| ->]; simpl; auto 10.
Qed.

Lemma in_infix (c : char) (a b : jstring) : infix a b -> In c a -> In c b.
Proof.
  intros (l & r & ->) H. apply in_or_app; right. apply in_or_app; now left.
Qed.

Lemma scan_nothing (lines : list jstring) (vars : value * value) :
  (forall line, In line lines -> match_ re_line_value line = None) ->
  fold_left scanLine lines vars = vars.
Proof.
  revert vars; induction lines as [|l lines IH]; intros vars H; [reflexivity|].
  simpl. rewrite IH by (intros line Hl; apply H; now right).
  destruct vars as [q e]; unfold scanLine.
  rewrite (H l) by now left.
  destruct (includes l (str "fofa_query") && includes l [colon]),
    (includes l (str "explanation") && includes l [colon]); reflexivity.
Qed.

(** X7.  A text without a double quote, or without a colon, gives the
    recovery nothing to find: [extractFromText] returns no query and the
    stock explanation, and unless the cleaned text is JSON the extraction
    ends in the parse-failure result. *)
Theorem unquoted_text_not_recovered (engine : Engine) (content : jstring) :
  ~ In dq content \/ ~ In colon content ->
  extractFromText content
  = Ret {| fofa_query := VNull; explanation := VString msg_from_text |}
  /\ (JSON.parse (cleanContent content) = None ->
      extract engine content = Ret parseFailure).
Proof.
  intros Hno.
  assert (Hpair : forall key, match_ (re_pair key) content = None).
  { intros key. destruct Hno as [H|H].
    - apply (match_needs_literal _ _ dq); [reflexivity| |exact H].
      apply re_pair_literals; now left.
    - apply (match_needs_literal _ _ colon); [reflexivity| |exact H].
      apply re_pair_literals; now right. }
  assert (Hlines : forall line, In line (split newline content) ->
                                match_ re_line_value line = None).
  { intros line Hl. apply split_infix in Hl. destruct Hno as [H|H].
    - apply (match_needs_literal _ _ dq); [reflexivity|simpl; auto 10|].
      intros Hin; apply H; eapply in_infix; eauto.
    - apply (match_needs_literal _ _ colon); [reflexivity|simpl; auto 10|].
      intros Hin; apply H; eapply in_infix; eauto. }
  assert (Hx : extractFromText content
               = Ret {| fofa_query := VNull; explanation := VString msg_from_text |}).
  { unfold extractFromText. rewrite !Hpair. rewrite (scan_nothing _ _ Hlines).
    reflexivity. }
  split; [exact Hx|].
  intros Hparse.
  pose proof (strictParse_cases engine content) as H; rewrite Hparse in H.
  destruct H as [e H].
  unfold extract; rewrite H; simpl. unfold recover; rewrite Hx; reflexivity.
Qed.

(** X7 on an answer in prose. *)
Lemma unquoted_text_not_recovered_witness :
  extract sample_engine (str "I cannot help: too vague") = Ret parseFailure.
Proof.
  apply (proj2 (unquoted_text_not_recovered sample_engine
                  (str "I cannot help: too vague")
                  (or_introl (proj1 (notQuote_forallb (str "I cannot help: too vague"))
                                    eq_refl)))).
  vm_compute; reflexivity.
Defined.

(** A line from which the scan takes nothing for a key leaves the variable
    of that key as it was. *)
Lemma scanLine_keeps (line : jstring) (vars : value * value) :
  (yields (str "fofa_query") line = false ->
   fst (scanLine vars line) = fst vars)
  /\ (yields (str "explanation") line = false ->
      snd (scanLine vars line) = snd vars).
Proof.
  destruct vars as [q e]; unfold scanLine, yields; simpl.
  split; intros H.
  - destruct (includes line (str "fofa_query") && includes line [colon]);
      [|reflexivity].
    destruct (match_ re_line_value line); [discriminate|reflexivity].
  - destruct (includes line (str "explanation") && includes line [colon]);
      [|reflexivity].
    destruct (match_ re_line_value line); [discriminate|reflexivity].
Qed.

Lemma scanLine_takes (line : jstring) (vars : value * value) (caps : list jstring) :
  match_ re_line_value line = Some caps ->
  (yields (str "fofa_query") line = true ->
   fst (scanLine vars line) = group1 caps)
  /\ (yields (str "explanation") line = true ->
      snd (scanLine vars line) = group1 caps).
Proof.
  intros Hm; destruct vars as [q e]; unfold scanLine, yields; simpl.
  rewrite Hm. split; intros H.
  - destruct (includes line (str "fofa_query") && includes line [colon]);
      [reflexivity|discriminate].
  - destruct (includes line (str "explanation") && includes line [colon]);
      [reflexivity|discriminate].
Qed.

Lemma scan_keeps (lines : list jstring) :
  forall vars,
    ((forall l, In l lines -> yields (str "fofa_query") l = false) ->
     fst (fold_left scanLine lines vars) = fst vars)
    /\ ((forall l, In l lines -> yields (str "explanation") l = false) ->
        snd (fold_left scanLine lines vars) = snd vars).
Proof.
  induction lines as [|l lines IH]; intros vars; [split; reflexivity|].
  simpl; destruct (IH (scanLine vars l)) as [IHq IHe].
  destruct (scanLine_keeps l vars) as [Hq He].
  split; intros H.
  - rewrite IHq by (intros x Hx; apply H; now right).
    apply Hq, H; now left.
  - rewrite IHe by (intros x Hx; apply H; now right).
    apply He, H; now left.
Qed.

(** X8.  In the line scan the last line that yields a value for a key
    decides it: when the pattern scrape does not find both pairs, the
    query (the explanation) returned is the value of the last line that
    holds [fofa_query] ([explanation]), a colon and a quoted value after a
    colon. *)
Theorem line_scan_last_wins (text : jstring) (before after : list jstring)
        (line : jstring) (caps : list jstring) (r : LLMResponse) :
  match_ (re_pair (str "fofa_query")) text = None
  \/ match_ (re_pair (str "explanation")) text = None ->
  split newline text = before ++ line :: after ->
  match_ re_line_value line = Some caps ->
  extractFromText text = Ret r ->
  (yields (str "fofa_query") line = true ->
   (forall l, In l after -> yields (str "fofa_query") l = false) ->
   fofa_query r = group1 caps)
  /\ (yields (str "explanation") line = true ->
      (forall l, In l after -> yields (str "explanation") l = false) ->
      explanation r = group1 caps).
Proof.
  intros Hscrape Hsplit Hm Hr.
  assert (Hscan : r = let '(q, e) := fold_left scanLine (split newline text)
                                               (VNull, VString []) in
                      {| fofa_query := q;
                         explanation := if truthy e then e else VString msg_from_text |}).
  { unfold extractFromText, try_catch in Hr.
    destruct Hscrape as [H|H]; rewrite H in Hr.
    - destruct (fold_left scanLine (split newline text) (VNull, VString []));
        now injection Hr.
    - destruct (match_ (re_pair (str "fofa_query")) text);
        destruct (fold_left scanLine (split newline text) (VNull, VString []));
        now injection Hr. }
  rewrite Hsplit, fold_left_app in Hscan; simpl fold_left in Hscan.
  set (v0 := fold_left scanLine before (VNull, VString [])) in *.
  destruct (scan_keeps after (scanLine v0 line)) as [Kq Ke].
  destruct (scanLine_takes line v0 caps Hm) as [Tq Te].
  destruct (fold_left scanLine after (scanLine v0 line)) as [q e] eqn:Ef.
  simpl in Kq, Ke. subst r; simpl.
  split; intros Hy Hafter.
  - rewrite (Kq Hafter). now apply Tq.
  - rewrite (Ke Hafter), (Te Hy).
    assert (Hs : scraped line (group1 caps)) by now apply line_value_scraped.
    now rewrite (scraped_truthy Hs).
Qed.

(** X8 on two lines that both name the query. *)
Lemma line_scan_last_wins_witness :
  extractFromText two_queries_text
  = Ret {| fofa_query := VString (str "b=2");
           explanation := VString msg_from_text |}
  /\ fofa_query {| fofa_query := VString (str "b=2");
                   explanation := VString msg_from_text |}
     = group1 [str "b=2"].
Proof.
  split; [vm_compute; reflexivity|].
  apply (proj1 (line_scan_last_wins two_queries_text
                  [quoted "fofa_query: 'a=1'"] [] (quoted "fofa_query: 'b=2'")
                  [str "b=2"]
                  {| fofa_query := VString (str "b=2");
                     explanation := VString msg_from_text |}
                  (or_introl eq_refl) eq_refl eq_refl eq_refl)).
  - reflexivity.
  - intros l [].
Defined.

(** ** The search client ([FofaService]) *)

Lemma executeFofaQuery_ret_requested (engine : Engine) (net : Remote)
      (config : FofaConfig) (query : value) (size page : option Z)
      (log l2 : list Event) (records : list FofaResult) :
  executeFofaQuery engine net config query size page log = (Ret records, l2) ->
  exists called params, l2 = log ++ [called; Got params].
Proof.
  destruct query as [| |b|n|q|items|props];
    try (nonstring_query; intros H; discriminate H).
  pose proof (executeFofaQuery_string engine net config q size page log) as E;
    cbv zeta in E; rewrite E; clear E.
  destruct (validateQuery q); [|intros H; discriminate H].
  destruct (axios_get net _) as [response|e].
  - destruct (error_flag response); intros H; [discriminate H|].
    injection H as _ <-. eauto.
  - match goal with
    | |- context [@classify ?A e ?l] =>
        destruct (@classify_throws A e l) as [message ->]
    end.
    intros H; discriminate H.
Qed.

(** X9.  A call of [executeFofaQuery] makes a request exactly when its
    query is a string that passes the validator, and then one request only:
    it carries the account, the base64 of that query, the fields
    [ip,port,title,host], the size and the page.  Records are returned
    exactly when that request resolves with a payload whose error flag is
    not set, and they are the rows of that payload, transformed. *)
Theorem search_request_iff_valid (engine : Engine) (net : Remote)
        (config : FofaConfig) (query : value) (size page : option Z)
        (log : list Event) :
  exists out new,
    executeFofaQuery engine net config query size page log = (out, log ++ new)
    /\ (forall p,
           In (Got p) new <->
           exists q, query = VString q /\ validateQuery q = true
                     /\ p = params_for config q size page)
    /\ List.length (filter (fun ev => match ev with Got _ => true | _ => false end) new)
       <= 1
    /\ (forall records,
           out = Ret records <->
           exists q response,
             query = VString q /\ validateQuery q = true
             /\ axios_get net (params_for config q size page) = Ret response
             /\ error_flag response = false
             /\ records = transformResults (results response)).
Proof.
  destruct query as [| |b|n|q|items|props].
  1-4, 6-7:
    (nonstring_query;
     (eexists; eexists; split; [reflexivity|]; simpl; split; [|split; [lia|]];
      [intros p; split; [intros [H|[]]; discriminate H
                        |intros (q & H & _); discriminate H]
      |intros records; split; [intros H; discriminate H
                              |intros (q & r & H & _); discriminate H]])).
  pose proof (executeFofaQuery_string engine net config q size page log) as E;
    cbv zeta in E; rewrite E; clear E.
  fold (params_for config q size page).
  destruct (validateQuery q) eqn:Ev.
  - destruct (axios_get net (params_for config q size page)) as [response|e] eqn:Eg.
    + destruct (error_flag response) eqn:Ef;
        (eexists; eexists; split; [reflexivity|]; simpl; split; [|split; [lia|]]).
      * intros p; split.
        -- intros [H|[H|[]]]; [discriminate H|]. injection H as <-. eauto.
        -- intros (q' & H & _ & ->); injection H as <-; auto.
      * intros records; split; [intros H; discriminate H|].
        intros (q' & r & H & _ & Hr & Hflag & _); injection H as <-.
        rewrite Eg in Hr; injection Hr as <-; congruence.
      * intros p; split.
        -- intros [H|[H|[]]]; [discriminate H|]. injection H as <-. eauto.
        -- intros (q' & H & _ & ->); injection H as <-; auto.
      * intros records; split.
        -- intros H; injection H as <-. exists q, response; auto.
        -- intros (q' & r & H & _ & Hr & _ & ->); injection H as <-.
           rewrite Eg in Hr; now injection Hr as <-.
    + destruct (@classify_throws (list FofaResult) e
                  (log ++ [SearchCalled (VString q)
                             (match size with Some n => n | None => 100%Z end)
                             (match page with Some n => n | None => 1%Z end)]
                       ++ [Got (params_for config q size page)])) as [message Hm].
      rewrite Hm.
      eexists; eexists; split; [reflexivity|]; simpl; split; [|split; [lia|]].
      * intros p; split.
        -- intros [H|[H|[]]]; [discriminate H|]. injection H as <-. eauto.
        -- intros (q' & H & _ & ->); injection H as <-; auto.
      * intros records; split; [intros H; discriminate H|].
        intros (q' & r & H & _ & Hr & _); injection H as <-.
        rewrite Eg in Hr; discriminate Hr.
  - eexists; eexists; split; [reflexivity|]; simpl; split; [|split; [lia|]].
    + intros p; split; [intros [H|[]]; discriminate H|].
      intros (q' & H & Hv & _); injection H as <-; congruence.
    + intros records; split; [intros H; discriminate H|].
      intros (q' & r & H & Hv & _); injection H as <-; congruence.
Qed.

Lemma or_empty_nth_firstn (row : list jstring) (i n : nat) :
  i < n -> or_empty (nth_error (firstn n row) i) = or_empty (nth_error row i).
Proof. intros H; now rewrite nth_error_firstn, (proj2 (Nat.ltb_lt _ _) H). Qed.

Lemma or_empty_nth_pad (row : list jstring) (k i : nat) :
  or_empty (nth_error (row ++ repeat ([] : jstring) k) i) = or_empty (nth_error row i).
Proof.
  destruct (Nat.lt_ge_cases i (List.length row)) as [H|H].
  - now rewrite nth_error_app1.
  - rewrite nth_error_app2 by exact H.
    rewrite (proj2 (nth_error_None row i) H).
    destruct (nth_error (repeat ([] : jstring) k) (i - List.length row)) as [x|] eqn:E;
      [|reflexivity].
    apply nth_error_In, repeat_spec in E; subst; reflexivity.
Qed.

Lemma transformResults_map (rows : list (list jstring)) :
  transformResults (Some rows)
  = map (fun result =>
           {| ip := or_empty (nth_error result 0);
              port := or_empty (nth_error result 1);
              title := or_empty (nth_error result 2);
              host := or_empty (nth_error result 3) |}) rows.
Proof. destruct rows; reflexivity. Qed.

(** X10.  [transformResults] makes one record of every row, in order:
    the record at a place holds the first four columns of the row at that
    place, an empty string standing for a column that is missing.  So
    there are as many records as rows, columns after the fourth are
    ignored, and padding the rows with empty strings changes nothing.
    Absent rows give no records. *)
Theorem transformResults_total (rows : list (list jstring)) (k : nat) :
  (forall i row,
      nth_error rows i = Some row ->
      let column n := match nth_error row n with Some s => s | None => [] end in
      nth_error (transformResults (Some rows)) i
      = Some {| ip := column 0; port := column 1;
                title := column 2; host := column 3 |})
  /\ List.length (transformResults (Some rows)) = List.length rows
  /\ transformResults (Some (map (firstn 4) rows)) = transformResults (Some rows)
  /\ transformResults (Some (map (fun row => row ++ repeat ([] : jstring) k) rows))
     = transformResults (Some rows)
  /\ transformResults None = [].
Proof.
  rewrite !transformResults_map.
  split; [|split; [apply length_map|split; [|split; [|reflexivity]]]].
  - intros i row Hrow; cbv zeta.
    rewrite nth_error_map, Hrow; simpl.
    f_equal. f_equal;
      match goal with
      | |- or_empty ?o = _ => destruct o as [[|c s]|]; reflexivity
      end.
  - rewrite map_map. apply map_ext; intros row.
    now rewrite !or_empty_nth_firstn by lia.
  - rewrite map_map. apply map_ext; intros row.
    now rewrite !or_empty_nth_pad.
Qed.

(** ** The direct mode of the coordinator ([executeDirectQuery]) *)

Lemma executeDirectQuery_cases (engine : Engine) (net : Remote)
      (fofaConfig : FofaConfig) (fofaQuery : jstring) (resultSize : option Z)
      (log : list Event) :
  executeDirectQuery engine net fofaConfig fofaQuery resultSize log
  = match executeFofaQuery engine net fofaConfig (VString fofaQuery)
            (Some (match resultSize with Some n => n | None => 50%Z end))
            None log with
    | (Ret records, l2) =>
        (Ret {| success := true; data := Some records; error := None;
                query := Some (VString fofaQuery);
                explanation_ := Some (VString msg_direct) |}, l2)
    | (Throw e, l2) => (Ret (failed (message_of e)), l2)
    end.
Proof.
  unfold executeDirectQuery, tryM, bindM.
  destruct (executeFofaQuery engine net fofaConfig (VString fofaQuery) _ None log)
    as [[records|e] l2]; reflexivity.
Qed.

(** X11.  The direct run returns a [ProcessResult] and throws nothing, and
    it never calls the completion service.  A query that fails the
    validator gives a failure naming the query, with no request made.  A
    success holds the records of the search, the query as given and the
    explanation "直接FOFA查询"; it is a success exactly when the search
    client returns records. *)
Theorem executeDirectQuery_contract (engine : Engine) (prompt : Prompt)
        (net : Remote) (llmConfig : LLMConfig) (fofaConfig : FofaConfig)
        (fofaQuery : jstring) (resultSize : option Z) (log : list Event) :
  let size := Some (match resultSize with Some n => n | None => 50%Z end) in
  exists res new,
    executeDirectQuery engine net fofaConfig fofaQuery resultSize log
    = (Ret res, log ++ new)
    /\ (forall request, ~ In (Posted request) new)
    /\ (validateQuery fofaQuery = false ->
        res = failed (msg_invalid_query ++ fofaQuery)
        /\ forall p, ~ In (Got p) new)
    /\ (forall records l2,
           executeFofaQuery engine net fofaConfig (VString fofaQuery) size None log
           = (Ret records, l2) ->
           res = {| success := true; data := Some records; error := None;
                    query := Some (VString fofaQuery);
                    explanation_ := Some (VString msg_direct) |})
    /\ (forall e l2,
           executeFofaQuery engine net fofaConfig (VString fofaQuery) size None log
           = (Throw e, l2) ->
           res = failed (message_of e)).
Proof.
  intros size.
  destruct (executeFofaQuery_log engine net fofaConfig (VString fofaQuery)
              size None log) as (o & rest & He & Hrest & _).
  pose proof (executeFofaQuery_string engine net fofaConfig fofaQuery size None log)
    as Hs; cbv zeta in Hs.
  unfold executeDirectQuery, tryM, bindM. fold size. rewrite He.
  destruct o as [records|e]; simpl.
  - eexists; eexists; split; [reflexivity|].
    split; [|split; [|split]].
    + intros request [H|H]; [discriminate H|].
      destruct Hrest as [->|[p ->]]; simpl in H; [tauto|].
      destruct H as [H|[]]; discriminate H.
    + intros Hv. rewrite He, Hv in Hs. discriminate Hs.
    + intros records' l2 H; injection H as <- _; reflexivity.
    + intros e l2 H; discriminate H.
  - eexists; eexists; split; [reflexivity|].
    split; [|split; [|split]].
    + intros request [H|H]; [discriminate H|].
      destruct Hrest as [->|[p ->]]; simpl in H; [tauto|].
      destruct H as [H|[]]; discriminate H.
    + intros Hv. rewrite He, Hv in Hs. injection Hs as -> Hl.
      split; [reflexivity|].
      intros p [H|H]; [discriminate H|].
      apply app_inv_head in Hl. injection Hl as ->. destruct H.
    + intros records' l2 H; discriminate H.
    + intros e' l2 H; injection H as <- _; reflexivity.
Qed.

(** ** The result presenter ([ResultPresenter]) *)

(** X12.  With a limit of three or more, [truncateString] never returns
    more than [maxLength] characters: a text that fits is returned as it
    is, a longer one is cut to its first [maxLength - 3] characters
    followed by three dots, [maxLength] characters in all. *)
Theorem truncateString_fits (s : jstring) (maxLength : Z) :
  (3 <= maxLength)%Z ->
  (Z.of_nat (List.length (truncateString s maxLength)) <= maxLength)%Z
  /\ ((Z.of_nat (List.length s) <= maxLength)%Z -> truncateString s maxLength = s)
  /\ ((maxLength < Z.of_nat (List.length s))%Z ->
      truncateString s maxLength
      = firstn (Z.to_nat (maxLength - 3)) s ++ str "..."
      /\ Z.of_nat (List.length (truncateString s maxLength)) = maxLength).
Proof.
  intros Hmax. unfold truncateString.
  destruct s as [|c s]; [simpl; repeat split; try lia|].
  destruct (Z.leb_spec (Z.of_nat (List.length (c :: s))) maxLength) as [Hle|Hgt].
  - repeat split; try lia.
  - assert (Hlen : Z.of_nat (List.length (firstn (Z.to_nat (maxLength - 3)) (c :: s)
                                          ++ str "..."))
                   = maxLength).
    { rewrite length_app, length_firstn. simpl List.length in *. lia. }
    repeat split; try lia.
Qed.

(** X12 on a title of 43 characters, cut to 40. *)
Lemma truncateString_fits_witness :
  (Z.of_nat (List.length (truncateString (repeat 97%N 43) 40)) <= 40)%Z.
Proof.
  apply (proj1 (truncateString_fits (repeat 97%N 43) 40 ltac:(lia))).
Defined.

Lemma jstring_eqb_eq (a b : jstring) : jstring_eqb a b = true <-> a = b.
Proof.
  unfold jstring_eqb. destruct (list_eq_dec N.eq_dec a b); split; congruence.
Qed.

Lemma jstring_eqb_refl (a : jstring) : jstring_eqb a a = true.
Proof. now apply jstring_eqb_eq. Qed.

Lemma jstring_eqb_neq (a b : jstring) : jstring_eqb a b = false <-> a <> b.
Proof.
  unfold jstring_eqb. destruct (list_eq_dec N.eq_dec a b); split; congruence.
Qed.

Lemma count_at_bump (key k : jstring) (stats : list (jstring * nat)) :
  count_at k (bump key stats)
  = count_at k stats + (if jstring_eqb key k then 1 else 0).
Proof.
  unfold count_at.
  induction stats as [|[k0 n] rest IH]; simpl.
  - destruct (jstring_eqb key k); reflexivity.
  - destruct (jstring_eqb k0 key) eqn:E0; simpl.
    + apply jstring_eqb_eq in E0; subst k0.
      destruct (jstring_eqb key k); simpl; lia.
    + destruct (jstring_eqb k0 k) eqn:E1; simpl; [|exact IH].
      apply jstring_eqb_eq in E1; subst k0.
      destruct (jstring_eqb key k) eqn:E2; [|lia].
      apply jstring_eqb_eq in E2; subst key.
      rewrite jstring_eqb_refl in E0; discriminate E0.
Qed.

Lemma in_keys_bump (key k : jstring) (stats : list (jstring * nat)) :
  In k (map fst (bump key stats)) -> k = key \/ In k (map fst stats).
Proof.
  induction stats as [|[k0 n] rest IH]; simpl.
  - intros [<-|[]]; auto.
  - destruct (jstring_eqb k0 key); simpl; [tauto|].
    intros [H|H]; [auto|]. apply IH in H; tauto.
Qed.

Lemma NoDup_keys_bump (key : jstring) (stats : list (jstring * nat)) :
  NoDup (map fst stats) -> NoDup (map fst (bump key stats)).
Proof.
  induction stats as [|[k0 n] rest IH]; simpl; intros H.
  - constructor; [intros []|constructor].
  - destruct (jstring_eqb k0 key) eqn:E; simpl; [exact H|].
    inversion H as [|? ? Hnot Hrest]; subst.
    constructor; [|auto].
    intros Hin. apply in_keys_bump in Hin. destruct Hin as [->|Hin]; [|auto].
    rewrite jstring_eqb_refl in E; discriminate.
Qed.

Lemma positive_bump (key : jstring) (stats : list (jstring * nat)) :
  (forall k n, In (k, n) stats -> 0 < n) ->
  forall k n, In (k, n) (bump key stats) -> 0 < n.
Proof.
  induction stats as [|[k0 n0] rest IH]; simpl; intros H k n.
  - intros [E|[]]; injection E as <- <-; lia.
  - destruct (jstring_eqb k0 key); simpl.
    + intros [E|Hin]; [injection E as <- <-; lia|eauto].
    + intros [E|Hin]; [eauto|]. revert Hin; apply IH; eauto.
Qed.

Lemma sum_bump (key : jstring) (stats : list (jstring * nat)) :
  list_sum (map snd (bump key stats)) = S (list_sum (map snd stats)).
Proof.
  induction stats as [|[k0 n0] rest IH]; simpl; [reflexivity|].
  destruct (jstring_eqb k0 key); simpl; lia.
Qed.

Lemma count_at_in (k : jstring) (n : nat) (stats : list (jstring * nat)) :
  NoDup (map fst stats) -> In (k, n) stats -> count_at k stats = n.
Proof.
  unfold count_at.
  induction stats as [|[k0 n0] rest IH]; simpl; [tauto|].
  intros Hnd [E|Hin].
  - injection E as -> ->. now rewrite jstring_eqb_refl.
  - inversion Hnd as [|? ? Hnot Hrest]; subst.
    destruct (jstring_eqb k0 k) eqn:E; [|auto].
    apply jstring_eqb_eq in E; subst k0.
    exfalso; apply Hnot. change k with (fst (k, n)). now apply in_map.
Qed.

Lemma in_count_at (k : jstring) (stats : list (jstring * nat)) :
  0 < count_at k stats -> In (k, count_at k stats) stats.
Proof.
  unfold count_at.
  induction stats as [|[k0 n0] rest IH]; simpl; [lia|].
  destruct (jstring_eqb k0 k) eqn:E; simpl.
  - apply jstring_eqb_eq in E; subst k0. auto.
  - auto.
Qed.

Lemma occurrences_snoc (k : jstring) (results : list FofaResult) (r : FofaResult) :
  occurrences k (results ++ [r])
  = occurrences k results
    + match segment_of r with
      | Some segment => if jstring_eqb segment k then 1 else 0
      | None => 0
      end.
Proof.
  unfold occurrences. rewrite filter_app, length_app. simpl.
  destruct (segment_of r) as [segment|]; [|reflexivity].
  destruct (jstring_eqb segment k); reflexivity.
Qed.

Lemma split_pieces (sep : char) (s : jstring) :
  List.length (split sep s)
  = S (List.length (filter (fun c => (c =? sep)%N) s)).
Proof.
  induction s as [|c rest IH]; simpl; [reflexivity|].
  destruct (c =? sep)%N; simpl; [now rewrite IH|].
  destruct (split sep rest); simpl in *; [discriminate IH|exact IH].
Qed.

Lemma split_join (sep : char) (s : jstring) :
  join [sep] (split sep s) = s
  /\ Forall (fun piece => ~ In sep piece) (split sep s).
Proof.
  induction s as [|c rest [IHj IHf]]; simpl.
  - split; [reflexivity|]. constructor; [intros []|constructor].
  - pose proof (split_pieces sep rest) as Hlen.
    destruct (N.eqb_spec c sep) as [->|Hne].
    + destruct (split sep rest) as [|p ps]; [discriminate Hlen|].
      split; [simpl in *; now rewrite IHj|].
      constructor; [intros []|exact IHf].
    + destruct (split sep rest) as [|p ps]; [discriminate Hlen|].
      split.
      * simpl in *. destruct ps; simpl in *; now rewrite <- IHj.
      * inversion IHf as [|? ? Hp Hps]; subst.
        constructor; [|exact Hps].
        intros [E|Hin]; [congruence|auto].
Qed.

Lemma segment_has_dot (r : FofaResult) :
  has_dot r = true <-> segment_of r <> None.
Proof.
  unfold has_dot, segment_of.
  assert (Hex : existsb (fun c => (c =? dot)%N) (ip r) = true
                <-> filter (fun c => (c =? dot)%N) (ip r) <> []).
  { induction (ip r) as [|c rest IH]; simpl; [split; [discriminate|tauto]|].
    destruct (c =? dot)%N; simpl; [split; [discriminate|reflexivity]|exact IH]. }
  rewrite Hex.
  pose proof (split_pieces dot (ip r)) as Hlen.
  destruct (ip r) as [|c0 rest] eqn:Eip; [simpl; tauto|].
  destruct (split dot (c0 :: rest)) as [|s0 [|s1 more]];
    destruct (filter (fun c => (c =? dot)%N) (c0 :: rest));
    simpl in Hlen; try discriminate Hlen; split; congruence.
Qed.

(** X13.  A record is counted exactly when its address holds a dot, and
    the key it is counted under is the text of its address up to its
    second dot, or the whole address when it holds one dot only. *)
Theorem segment_of_prefix (r : FofaResult) :
  (In dot (ip r) <-> exists segment, segment_of r = Some segment)
  /\ forall segment,
       segment_of r = Some segment ->
       (exists a b, segment = a ++ [dot] ++ b /\ ~ In dot a /\ ~ In dot b)
       /\ (ip r = segment \/ exists rest, ip r = segment ++ dot :: rest).
Proof.
  split.
  - assert (Hin : In dot (ip r) <-> has_dot r = true).
    { unfold has_dot. rewrite existsb_exists. split.
      - intros H; exists dot; split; [exact H|reflexivity].
      - intros (c & Hc & E). apply N.eqb_eq in E; now subst c. }
    rewrite Hin, segment_has_dot.
    destruct (segment_of r) as [segment|]; split; eauto; try congruence.
    intros [segment H]; discriminate H.
  - intros segment Hs.
    split; unfold segment_of in Hs;
      destruct (split_join dot (ip r)) as [Hj Hf];
      destruct (ip r) as [|c0 rest] eqn:Eip; try discriminate Hs;
      destruct (split dot (c0 :: rest)) as [|s0 [|s1 more]]; try discriminate Hs;
      injection Hs as <-.
    + exists s0, s1. inversion Hf as [|? ? H0 Hf']; subst.
      inversion Hf' as [|? ? H1 _]; subst. auto.
    + destruct more as [|s2 more]; simpl in Hj.
      * left; now rewrite <- Hj.
      * right. exists (join [dot] (s2 :: more)).
        rewrite <- Hj. simpl. now rewrite <- !app_assoc.
Qed.

(** X13 on the address 10.20.30.40, counted under 10.20. *)
Lemma segment_of_prefix_witness :
  segment_of {| ip := str "10.20.30.40"; port := str "80"; title := [];
                host := [] |} = Some (str "10.20")
  /\ ip {| ip := str "10.20.30.40"; port := str "80"; title := [];
           host := [] |} = str "10.20" ++ dot :: str "30.40".
Proof.
  split; [reflexivity|].
  destruct (proj2 (proj2 (segment_of_prefix
                     {| ip := str "10.20.30.40"; port := str "80";
                        title := []; host := [] |}) (str "10.20") eq_refl))
    as [H|[rest H]]; [discriminate H|reflexivity].
Defined.

Lemma statistics_invariant (results : list FofaResult) :
  let stats := getIPSegmentStatistics results in
  NoDup (map fst stats)
  /\ (forall k, count_at k stats = occurrences k results)
  /\ (forall k n, In (k, n) stats -> 0 < n)
  /\ list_sum (map snd stats) = List.length (filter has_dot results).
Proof.
  unfold getIPSegmentStatistics.
  induction results as [|r results IH] using rev_ind; simpl.
  - repeat split; [constructor|intros k n []].
  - rewrite fold_left_app; simpl.
    destruct IH as (Hnd & Hcount & Hpos & Hsum).
    rewrite filter_app, length_app; simpl.
    pose proof (segment_has_dot r) as Hdot.
    destruct (segment_of r) as [segment|] eqn:Es.
    + assert (Hd : has_dot r = true) by (apply Hdot; discriminate).
      rewrite Hd; simpl.
      split; [now apply NoDup_keys_bump|].
      split; [|split; [now apply positive_bump|]].
      * intros k. rewrite count_at_bump, occurrences_snoc, Es, Hcount.
        reflexivity.
      * rewrite sum_bump, Hsum. lia.
    + assert (Hd : has_dot r = false).
      { destruct (has_dot r); [|reflexivity]. now destruct (proj1 Hdot eq_refl). }
      rewrite Hd; simpl.
      split; [exact Hnd|]. split; [|split; [exact Hpos|lia]].
      intros k. rewrite occurrences_snoc, Es, Hcount. lia.
Qed.

(** X14.  [getIPSegmentStatistics] returns one entry for each key that
    some record is counted under and no other: the keys are distinct, the
    number beside a key is the number of records counted under it, never
    zero, and the numbers add up to the number of records whose address
    holds a dot. *)
Theorem ip_segment_statistics (results : list FofaResult) :
  let stats := getIPSegmentStatistics results in
  NoDup (map fst stats)
  /\ (forall k n, In (k, n) stats <-> n = occurrences k results /\ 0 < n)
  /\ list_sum (map snd stats) = List.length (filter has_dot results).
Proof.
  intros stats.
  destruct (statistics_invariant results) as (Hnd & Hcount & Hpos & Hsum).
  fold stats in Hnd, Hcount, Hpos, Hsum.
  split; [exact Hnd|]. split; [|exact Hsum].
  intros k n; split.
  - intros Hin. split; [|eauto].
    rewrite <- Hcount. symmetry. now apply count_at_in.
  - intros [-> Hn]. rewrite <- Hcount in *. now apply in_count_at.
Qed.

(** ** The protocol server ([NL2FOFAMCPServer]) *)

Lemma handleDirectFofaQuery_cases (engine : Engine) (net : Remote)
      (fofaConfig : FofaConfig) (fofaQuery : jstring) (size : option Z)
      (log : list Event) :
  handleDirectFofaQuery engine net fofaConfig fofaQuery size log
  = match executeFofaQuery engine net fofaConfig (VString fofaQuery)
            (Some (match size with Some n => n | None => 50%Z end))
            None log with
    | (Ret records, l2) =>
        (Ret (Formatted {| qr_success := true; qr_results := records;
                           qr_query := VString fofaQuery;
                           qr_explanation := VString msg_direct;
                           qr_count := List.length records |}), l2)
    | (Throw e, l2) => (Ret (Plain (msg_tool_failed ++ message_of e)), l2)
    end.
Proof.
  unfold handleDirectFofaQuery, tryM, bindM.
  destruct (executeFofaQuery engine net fofaConfig (VString fofaQuery) _ None log)
    as [[records|e] l2]; reflexivity.
Qed.




Lemma handleNaturalLanguageQuery_total (engine : Engine) (prompt : Prompt)
      (net : Remote) (llmConfig : LLMConfig) (fofaConfig : FofaConfig)
      (query : jstring) (size : option Z) (log : list Event) :
  exists text new,
    handleNaturalLanguageQuery engine prompt net llmConfig fofaConfig query size log
    = (Ret text, log ++ new).
Proof.
  rewrite handleNaturalLanguageQuery_cases.
  destruct (convertTextToFofaQuery engine prompt net llmConfig query log)
    as [[r|e] l1] eqn:Ec; apply convert_log in Ec; subst l1.
  - destruct (truthy (fofa_query r));
      [|destruct (ToString engine (explanation r)); eauto].
    destruct (executeFofaQuery_log engine net fofaConfig (fofa_query r)
                (Some (match size with Some n => n | None => 50%Z end)) None
                (log ++ [Posted (buildRequest engine llmConfig
                                   (buildPrompt prompt query))]))
      as (o & rest & -> & _).
    rewrite <- app_assoc.
    destruct o; [destruct (formatQueryResult engine _)|]; eauto.
  - eauto.
Qed.

Lemma handleDirectFofaQuery_total (engine : Engine) (net : Remote)
      (fofaConfig : FofaConfig) (fofaQuery : jstring) (size : option Z)
      (log : list Event) :
  exists text new,
    handleDirectFofaQuery engine net fofaConfig fofaQuery size log
    = (Ret text, log ++ new).
Proof.
  rewrite handleDirectFofaQuery_cases.
  destruct (executeFofaQuery_log engine net fofaConfig (VString fofaQuery)
              (Some (match size with Some n => n | None => 50%Z end)) None log)
    as (o & rest & -> & _).
  destruct o; eauto.
Qed.

Lemma tryM_ret {A : Type} (body : M A) (handler : exn -> M A) (log l2 : list Event)
      (a : A) :
  body log = (Ret a, l2) -> tryM body handler log = (Ret a, l2).
Proof. unfold tryM; now intros ->. Qed.

(** X17.  The handler of tool calls answers every call and throws nothing.
    While the services are not set and the environment lacks a required
    variable, every call is answered with "❌ 错误: 服务初始化失败，请检查环境变量配置",
    makes no request and leaves the services unset, whatever the tool.
    With the services set, a tool of another name than the two, absent
    arguments, and a query that is absent or empty are each answered with
    their own error text, with no request made; any other call is the call
    of the handler of the tool with the query and the size. *)
Theorem callTool_answers (engine : Engine) (prompt : Prompt) (net : Remote)
        (env : Env) (services : option (LLMConfig * FofaConfig))
        (name : jstring) (args : option ToolArgs) (log : list Event) :
  let call := callTool engine prompt net env services name args in
  let natural := str "natural_language_query" in
  let directly := str "direct_fofa_query" in
  exists text new,
    snd call log = (Ret text, log ++ new)
    /\ (fst call = None <-> services = None /\ initializeServices env = None)
    /\ (fst call = None ->
        text = Plain (msg_tool_error ++ msg_init_failed) /\ new = [])
    /\ (forall llmConfig fofaConfig,
           fst call = Some (llmConfig, fofaConfig) ->
           (name <> natural -> name <> directly ->
            text = Plain (msg_tool_error ++ msg_unknown_tool ++ name) /\ new = [])
           /\ (name = natural ->
               match args with
               | None =>
                   text = Plain (msg_tool_error
                                 ++ fault_message engine (ReadOfNullish (str "query")))
                   /\ new = []
               | Some typedArgs =>
                   match arg_query typedArgs with
                   | Some (c :: s) =>
                       snd call log
                       = handleNaturalLanguageQuery engine prompt net llmConfig
                           fofaConfig (c :: s) (arg_size typedArgs) log
                   | _ =>
                       text = Plain (msg_tool_error ++ msg_missing_argument
                                     ++ str "query")
                       /\ new = []
                   end
               end)
           /\ (name = directly ->
               match args with
               | None =>
                   text = Plain (msg_tool_error
                                 ++ fault_message engine
                                      (ReadOfNullish (str "fofaQuery")))
                   /\ new = []
               | Some typedArgs =>
                   match arg_fofaQuery typedArgs with
                   | Some (c :: s) =>
                       snd call log
                       = handleDirectFofaQuery engine net fofaConfig (c :: s)
                           (arg_size typedArgs) log
                   | _ =>
                       text = Plain (msg_tool_error ++ msg_missing_argument
                                     ++ str "fofaQuery")
                       /\ new = []
                   end
               end)).
Proof.
  intros call natural directly; subst call natural directly.
  assert (Hd : str "natural_language_query" <> str "direct_fofa_query")
    by (intros H; discriminate H).
  unfold callTool; cbn [fst snd].
  set (natural := str "natural_language_query") in *.
  set (directly := str "direct_fofa_query") in *.
  set (configured := match services with
                     | Some s => Some s
                     | None => initializeServices env
                     end).
  assert (Hconf : configured = None
                  <-> services = None /\ initializeServices env = None).
  { subst configured. destruct services as [s|]; [|tauto].
    split; [discriminate|intros [H _]; discriminate H]. }
  destruct configured as [[llmConfig fofaConfig]|].
  2:{ exists (Plain (msg_tool_error ++ msg_init_failed)), [].
      rewrite app_nil_r.
      split; [reflexivity|]. split; [exact Hconf|]. split; [auto|].
      intros l f H; discriminate H. }
  destruct (jstring_eqb name natural) eqn:En.
  - apply jstring_eqb_eq in En.
    destruct args as [typedArgs|].
    + destruct (arg_query typedArgs) as [[|c s]|] eqn:Eq.
      * exists (Plain (msg_tool_error ++ msg_missing_argument ++ str "query")), [].
        rewrite app_nil_r. split; [reflexivity|]. split; [exact Hconf|].
        split; [discriminate|]. intros l f H; injection H as <- <-.
        split; [congruence|]. split; [|congruence].
        intros _. auto.
      * destruct (handleNaturalLanguageQuery_total engine prompt net llmConfig
                    fofaConfig (c :: s) (arg_size typedArgs) log)
          as (text & new & Hh).
        exists text, new.
        split; [now apply tryM_ret|]. split; [exact Hconf|].
        split; [discriminate|]. intros l f H; injection H as <- <-.
        split; [congruence|]. split; [|congruence].
        intros _. rewrite Hh. now apply tryM_ret.
      * exists (Plain (msg_tool_error ++ msg_missing_argument ++ str "query")), [].
        rewrite app_nil_r. split; [reflexivity|]. split; [exact Hconf|].
        split; [discriminate|]. intros l f H; injection H as <- <-.
        split; [congruence|]. split; [|congruence].
        intros _. auto.
    + exists (Plain (msg_tool_error
                     ++ fault_message engine (ReadOfNullish (str "query")))), [].
      rewrite app_nil_r. split; [reflexivity|]. split; [exact Hconf|].
      split; [discriminate|]. intros l f H; injection H as <- <-.
      split; [congruence|]. split; [auto|congruence].
  - apply jstring_eqb_neq in En.
    destruct (jstring_eqb name directly) eqn:Ed.
    + apply jstring_eqb_eq in Ed.
      destruct args as [typedArgs|].
      * destruct (arg_fofaQuery typedArgs) as [[|c s]|] eqn:Eq.
        -- exists (Plain (msg_tool_error ++ msg_missing_argument
                           ++ str "fofaQuery")), [].
           rewrite app_nil_r. split; [reflexivity|]. split; [exact Hconf|].
           split; [discriminate|]. intros l f H; injection H as <- <-.
           split; [congruence|]. split; [congruence|].
           intros _. auto.
        -- destruct (handleDirectFofaQuery_total engine net fofaConfig (c :: s)
                       (arg_size typedArgs) log) as (text & new & Hh).
           exists text, new.
           split; [now apply tryM_ret|]. split; [exact Hconf|].
           split; [discriminate|]. intros l f H; injection H as <- <-.
           split; [congruence|]. split; [congruence|].
           intros _. rewrite Hh. now apply tryM_ret.
        -- exists (Plain (msg_tool_error ++ msg_missing_argument
                           ++ str "fofaQuery")), [].
           rewrite app_nil_r. split; [reflexivity|]. split; [exact Hconf|].
           split; [discriminate|]. intros l f H; injection H as <- <-.
           split; [congruence|]. split; [congruence|].
           intros _. auto.
      * exists (Plain (msg_tool_error
                       ++ fault_message engine (ReadOfNullish (str "fofaQuery")))), [].
        rewrite app_nil_r. split; [reflexivity|]. split; [exact Hconf|].
        split; [discriminate|]. intros l f H; injection H as <- <-.
        split; [congruence|]. split; [congruence|auto].
    + apply jstring_eqb_neq in Ed.
      exists (Plain (msg_tool_error ++ msg_unknown_tool ++ name)), [].
      rewrite app_nil_r. split; [reflexivity|]. split; [exact Hconf|].
      split; [discriminate|]. intros l f H; injection H as <- <-.
      split; [auto|]. split; congruence.
Qed.

(** ** The environment and the command line ([index.ts]) *)

Lemma falsy_var_set (value : option jstring) :
  falsy_var value = false <-> exists s, value = Some s /\ s <> [].
Proof.
  destruct value as [[|c s]|]; simpl; split; try discriminate.
  - intros (s & H & Hs); injection H as <-; now destruct Hs.
  - intros _; exists (c :: s); split; [reflexivity|discriminate].
  - reflexivity.
  - intros (s & H & _); discriminate H.
Qed.

(** X18.  The server and the command line check the environment in the
    same way and build the same configurations.  A configuration is built
    exactly when the three required variables are set and not empty; it
    holds their values, and the address of the completion service is the
    fourth variable, or the default address when that one is unset or
    empty.  The names reported missing are those of the required variables
    that are unset or empty. *)
Theorem environment_checked (env : Env) :
  initializeServices env = validateEnvironment env
  /\ (validateEnvironment env <> None <->
      (exists s, LLM_API_KEY env = Some s /\ s <> [])
      /\ (exists s, FOFA_EMAIL env = Some s /\ s <> [])
      /\ (exists s, FOFA_API_KEY env = Some s /\ s <> []))
  /\ (forall llmConfig fofaConfig,
         validateEnvironment env = Some (llmConfig, fofaConfig) ->
         LLM_API_KEY env = Some (llmApiKey llmConfig)
         /\ FOFA_EMAIL env = Some (email fofaConfig)
         /\ FOFA_API_KEY env = Some (fofaApiKey fofaConfig)
         /\ apiUrl llmConfig <> []
         /\ (LLM_API_URL env = Some (apiUrl llmConfig)
             \/ falsy_var (LLM_API_URL env) = true
                /\ apiUrl llmConfig = default_api_url))
  /\ (forall name,
         In name (missingVars env) <->
         exists value, In (name, value) (requiredEnvVars env)
                       /\ falsy_var value = true).
Proof.
  split; [reflexivity|].
  rewrite <- !falsy_var_set.
  unfold validateEnvironment, missingVars, requiredEnvVars.
  destruct env as [k u e f]; simpl.
  split; [|split].
  - destruct (falsy_var k), (falsy_var e), (falsy_var f); simpl;
      split; try discriminate; try tauto; intros (? & ? & ?); discriminate.
  - intros l c.
    destruct k as [[|? ?]|], e as [[|? ?]|], f as [[|? ?]|]; simpl;
      try discriminate.
    intros H; injection H as <- <-; simpl.
    repeat split; try discriminate.
    + destruct u as [[|? ?]|]; simpl; try discriminate.
    + destruct u as [[|? ?]|]; simpl; auto.
  - intros name; split.
    + destruct (falsy_var k) eqn:Ek, (falsy_var e) eqn:Ee, (falsy_var f) eqn:Ef;
        simpl; intros H;
        repeat match goal with
               | H : _ \/ _ |- _ => destruct H as [H|H]
               | H : False |- _ => destruct H
               end; subst name; eauto 6.
    + intros (value & Hin & Hv).
      destruct Hin as [H|[H|[H|[]]]]; injection H as <- <-; rewrite Hv; simpl.
      * auto.
      * destruct (falsy_var k); simpl; auto.
      * destruct (falsy_var k), (falsy_var e); simpl; auto.
Qed.

Lemma main_cases (engine : Engine) (prompt : Prompt) (net : Remote) (env : Env)
      (parsed : Outcome ParsedArgs) (log : list Event) :
  main engine prompt net env parsed log
  = match parsed with
    | Throw _ => (Ret (Exited 1), log)
    | Ret p =>
        if help p || ((List.length (positionals p) =? 0) && negb (direct p)) then
          (Ret Returned, log)
        else
          match trim (join [32%N] (positionals p)) with
          | [] => (Ret (Exited 1), log)
          | _ :: _ =>
              match validateEnvironment env with
              | None => (Ret (Exited 1), log)
              | Some (llmConfig, fofaConfig) =>
                  match (if direct p
                         then executeDirectQuery engine net fofaConfig
                                (join [32%N] (positionals p)) None
                         else processUserQuery engine prompt net llmConfig
                                fofaConfig (join [32%N] (positionals p)) None)
                          log with
                  | (Ret result, l2) =>
                      (Ret (Exited (if success result then 0 else 1)), l2)
                  | (Throw _, l2) => (Ret (Exited 1), l2)
                  end
              end
          end
    end.
Proof.
  unfold main, parseArguments, tryM, bindM, lift.
  destruct parsed as [p|e]; [|reflexivity]. cbn [bind].
  destruct (help p || ((List.length (positionals p) =? 0) && negb (direct p)));
    [reflexivity|].
  destruct (direct p);
    (destruct (trim (join [32%N] (positionals p))); [reflexivity|];
     cbn [ret];
     destruct (validateEnvironment env) as [[llmConfig fofaConfig]|];
     [|reflexivity];
     match goal with
     | |- context [match ?run log with _ => _ end] =>
         destruct (run log) as [[result|e] l2]; reflexivity
     end).
Qed.

Lemma processUserQuery_run (engine : Engine) (prompt : Prompt) (net : Remote)
      (llmConfig : LLMConfig) (fofaConfig : FofaConfig) (userInput : jstring)
      (resultSize : option Z) (log : list Event) :
  exists res new,
    processUserQuery engine prompt net llmConfig fofaConfig userInput resultSize log
    = (Ret res, log ++ new)
    /\ (success res = true -> exists params, In (Got params) new).
Proof.
  rewrite processUserQuery_cases.
  destruct (convertTextToFofaQuery engine prompt net llmConfig userInput log)
    as [[r|e] l1] eqn:Ec; apply convert_log in Ec; subst l1.
  - destruct (truthy (fofa_query r)).
    + destruct (ToString engine (fofa_query r));
        [|eexists; eexists; split; [reflexivity|]; discriminate].
      destruct (ToString engine (explanation r));
        [|eexists; eexists; split; [reflexivity|]; discriminate].
      destruct (executeFofaQuery engine net fofaConfig (fofa_query r) _ None _)
        as [[records|e] l2] eqn:Ee.
      * apply executeFofaQuery_ret_requested in Ee.
        destruct Ee as (called & params & ->).
        rewrite <- app_assoc.
        eexists; eexists; split; [reflexivity|].
        intros _; exists params. simpl; auto.
      * destruct (executeFofaQuery_log engine net fofaConfig (fofa_query r)
                    (Some (match resultSize with Some n => n | None => 50%Z end))
                    None
                    (log ++ [Posted (buildRequest engine llmConfig
                                       (buildPrompt prompt userInput))]))
          as (o & rest & Hl & _).
        rewrite Hl in Ee. injection Ee as _ <-.
        rewrite <- app_assoc.
        eexists; eexists; split; [reflexivity|]. discriminate.
    + destruct (ToString engine (explanation r));
        eexists; eexists; split; try reflexivity; discriminate.
  - eexists; eexists; split; [reflexivity|]. discriminate.
Qed.

Lemma executeDirectQuery_run (engine : Engine) (net : Remote)
      (fofaConfig : FofaConfig) (fofaQuery : jstring) (resultSize : option Z)
      (log : list Event) :
  exists res new,
    executeDirectQuery engine net fofaConfig fofaQuery resultSize log
    = (Ret res, log ++ new)
    /\ (success res = true -> exists params, In (Got params) new)
    /\ (forall request, ~ In (Posted request) new).
Proof.
  rewrite executeDirectQuery_cases.
  destruct (executeFofaQuery_log engine net fofaConfig (VString fofaQuery)
              (Some (match resultSize with Some n => n | None => 50%Z end))
              None log) as (o & rest & Hl & Hrest & _).
  assert (Hposted : forall request,
             ~ In (Posted request)
                  (SearchCalled (VString fofaQuery)
                     (match resultSize with Some n => n | None => 50%Z end) 1
                   :: rest)).
  { intros request [H|H]; [discriminate H|].
    destruct Hrest as [->|[p ->]]; simpl in H; [tauto|].
    destruct H as [H|[]]; discriminate H. }
  destruct (executeFofaQuery engine net fofaConfig (VString fofaQuery) _ None log)
    as [[records|e] l2] eqn:Ee.
  - pose proof Ee as Er. apply executeFofaQuery_ret_requested in Er.
    destruct Er as (called & params & ->).
    injection Hl as _ Hl. apply app_inv_head in Hl.
    eexists; eexists; split; [reflexivity|]. split.
    + intros _; exists params; simpl; auto.
    + rewrite Hl. exact Hposted.
  - injection Hl as _ ->.
    eexists; eexists; split; [reflexivity|]. split; [discriminate|exact Hposted].
Qed.

(** X19.  A run of [main] throws nothing, and it ends by returning or
    with the exit code 0 or 1.  It returns exactly when the arguments
    parse and ask for the help text or hold neither a query nor the direct
    option; nothing is requested then.  The code is 0 only when the
    environment is complete and a request to the search service was made.
    With an incomplete environment, or a query of whitespace alone,
    nothing is requested and the code is not 0.  With the direct option
    the completion service is never called. *)
Theorem main_terminates (engine : Engine) (prompt : Prompt) (net : Remote)
        (env : Env) (parsed : Outcome ParsedArgs) (log : list Event) :
  exists t new,
    main engine prompt net env parsed log = (Ret t, log ++ new)
    /\ (t = Returned \/ t = Exited 0 \/ t = Exited 1)
    /\ (t = Returned <->
        exists p, parsed = Ret p
                  /\ (help p = true \/ positionals p = [] /\ direct p = false))
    /\ (t = Returned -> new = [])
    /\ (t = Exited 0 ->
        validateEnvironment env <> None /\ exists params, In (Got params) new)
    /\ (validateEnvironment env = None -> t <> Exited 0 /\ new = [])
    /\ (forall p, parsed = Ret p ->
                  trim (join [32%N] (positionals p)) = [] ->
                  t <> Exited 0 /\ new = [])
    /\ (forall p, parsed = Ret p -> direct p = true ->
                  forall request, ~ In (Posted request) new).
Proof.
  rewrite main_cases.
  destruct parsed as [p|e].
  2:{ exists (Exited 1), []. rewrite app_nil_r.
      split; [reflexivity|]. split; [auto|].
      split; [split; [discriminate|intros (p & H & _); discriminate H]|].
      repeat split; try discriminate; intros; try discriminate; auto. }
  assert (Hhelp : help p || ((List.length (positionals p) =? 0) && negb (direct p))
                  = true
                  <-> help p = true \/ positionals p = [] /\ direct p = false).
  { destruct (help p), (direct p), (positionals p); simpl; split; auto;
      try discriminate; intros [H|[H1 H2]]; discriminate. }
  destruct (help p || ((List.length (positionals p) =? 0) && negb (direct p))).
  { exists Returned, []. rewrite app_nil_r.
    split; [reflexivity|]. split; [auto|].
    split; [split; [intros _; exists p; split; [reflexivity|now apply Hhelp]
                   |reflexivity]|].
    repeat split; try discriminate; intros; try discriminate; auto. }
  assert (Hnot : forall t, t <> Returned ->
                 (t = Returned <->
                  exists p0, Ret p = Ret p0
                    /\ (help p0 = true \/ positionals p0 = [] /\ direct p0 = false))).
  { intros t Ht; split; [contradiction|].
    intros (p0 & H & Hor); injection H as <-.
    apply Hhelp in Hor; discriminate Hor. }
  destruct (trim (join [32%N] (positionals p))) as [|c q] eqn:Et.
  { exists (Exited 1), []. rewrite app_nil_r.
    split; [reflexivity|]. split; [auto|].
    split; [apply Hnot; discriminate|].
    repeat split; try discriminate; intros; try discriminate; auto. }
  destruct (validateEnvironment env) as [[llmConfig fofaConfig]|] eqn:Ev.
  2:{ exists (Exited 1), []. rewrite app_nil_r.
      split; [reflexivity|]. split; [auto|].
      split; [apply Hnot; discriminate|].
      repeat split; try discriminate; intros; try discriminate; auto. }
  destruct (direct p) eqn:Ed.
  - destruct (executeDirectQuery_run engine net fofaConfig
                (join [32%N] (positionals p)) None log)
      as (res & new & -> & Hgot & Hposted).
    exists (Exited (if success res then 0 else 1)), new.
    split; [reflexivity|].
    split; [destruct (success res); auto|].
    split; [apply Hnot; discriminate|].
    split; [discriminate|].
    split; [|split; [discriminate|split]].
    + intros H. split; [discriminate|].
      apply Hgot. destruct (success res); [reflexivity|discriminate H].
    + intros p0 H; injection H as <-. rewrite Et; discriminate.
    + intros p0 _ _. exact Hposted.
  - destruct (processUserQuery_run engine prompt net llmConfig fofaConfig
                (join [32%N] (positionals p)) None log)
      as (res & new & -> & Hgot).
    exists (Exited (if success res then 0 else 1)), new.
    split; [reflexivity|].
    split; [destruct (success res); auto|].
    split; [apply Hnot; discriminate|].
    split; [discriminate|].
    split; [|split; [discriminate|split]].
    + intros H. split; [discriminate|].
      apply Hgot. destruct (success res); [reflexivity|discriminate H].
    + intros p0 H; injection H as <-. rewrite Et; discriminate.
    + intros p0 H; injection H as <-. congruence.
Qed.

(** ** The validator, continued *)

Lemma validateQuery_counts (s : jstring) :
  validateQuery s = true <->
  trim s <> []
  /\ Nat.Even (count_occ N.eq_dec s dq)
  /\ count_occ N.eq_dec s lparen = count_occ N.eq_dec s rparen
  /\ (In equals s \/ In colon s \/ exists c, In c s /\ isWordChar c = true).
Proof.
  unfold validateQuery.
  assert (Hq : match match_all_chr dq s with
               | Some qs => List.length qs mod 2 =? 0
               | None => true
               end = true <-> Nat.Even (count_occ N.eq_dec s dq)).
  { rewrite <- (match_all_chr_count dq s).
    destruct (match_all_chr dq s) as [qs|].
    - rewrite Nat.eqb_eq; apply mod2_Even.
    - split; [intros _; exists 0; reflexivity|reflexivity]. }
  rewrite <- Hq, <- (match_all_chr_count lparen s), <- (match_all_chr_count rparen s).
  destruct (trim s) as [|t ts] eqn:Et.
  - replace (_ || _) with true by (destruct s; reflexivity).
    split; [discriminate|intros [H _]; contradiction].
  - assert (Hs : s <> []) by (intros ->; discriminate).
    destruct s as [|x xs]; [contradiction|].
    cbv beta iota zeta. simpl (List.length (t :: ts) =? 0). simpl (false || false).
    cbv iota.
    rewrite !andb_true_iff, orb_true_iff, Nat.eqb_eq, test_operator, test_word.
    split.
    + intros [[Hsyn Hquo] Hpar].
      repeat split; try assumption; [discriminate|tauto].
    + intros (_ & Hquo & Hpar & Hsyn). repeat split; try assumption; tauto.
Qed.

Lemma same_members (s t : jstring) :
  (forall c, count_occ N.eq_dec s c = count_occ N.eq_dec t c) ->
  forall c, In c s -> In c t.
Proof.
  intros H c Hin.
  apply (count_occ_In N.eq_dec). rewrite <- H. now apply (count_occ_In N.eq_dec).
Qed.

Lemma validateQuery_counts_only (s t : jstring) :
  (forall c, count_occ N.eq_dec s c = count_occ N.eq_dec t c) ->
  validateQuery s = true -> validateQuery t = true.
Proof.
  intros H Hs. apply validateQuery_counts in Hs.
  destruct Hs as (Htrim & Hquo & Hpar & Hsyn).
  apply validateQuery_counts. rewrite <- !H.
  split; [|split; [exact Hquo|split; [exact Hpar|]]].
  - intros Ht. apply Htrim.
    apply trim_nil_iff. apply trim_nil_iff in Ht.
    apply forallb_forall. intros c Hc.
    apply (proj1 (forallb_forall _ _) Ht). exact (same_members s t H c Hc).
  - destruct Hsyn as [Hin|[Hin|(c & Hin & Hw)]].
    + left; exact (same_members s t H _ Hin).
    + right; left; exact (same_members s t H _ Hin).
    + right; right; exists c; split; [exact (same_members s t H _ Hin)|exact Hw].
Qed.

(** X20.  The validator looks at which characters a query holds and how
    many of each, never at their order: two queries that hold every
    character the same number of times get the same verdict.  So it does
    not check that a parenthesis is opened before it is closed, nor where
    the quotes stand. *)
Theorem validateQuery_order_blind (s t : jstring) :
  (forall c, count_occ N.eq_dec s c = count_occ N.eq_dec t c) ->
  validateQuery s = validateQuery t.
Proof.
  intros H.
  destruct (validateQuery s) eqn:Es, (validateQuery t) eqn:Et; try reflexivity.
  - rewrite (validateQuery_counts_only s t H Es) in Et; discriminate Et.
  - rewrite (validateQuery_counts_only t s (fun c => eq_sym (H c)) Et) in Es;
      discriminate Es.
Qed.

(** X20 on a query and its mirror image, which closes its parenthesis
    before it opens it. *)
Lemma validateQuery_order_blind_witness :
  validateQuery (str "(port=80)") = validateQuery (rev (str "(port=80)"))
  /\ validateQuery (rev (str "(port=80)")) = true.
Proof.
  split; [|vm_compute; reflexivity].
  apply (validateQuery_order_blind (str "(port=80)") (rev (str "(port=80)"))).
  intros c. symmetry. apply count_occ_rev.
Defined.
